(** * Upload / storage orchestration pipeline: a shallow embedding

    The development follows the JavaScript sources of the repository:

    - [src/utils/encryption.js]        -> [Module Encryption]
    - [src/core/FileProcessor.js]      -> [Module FileProcessor]
    - [StorjProvider], [ArweaveProvider] -> [Module Provider]
    - [src/providers/ProviderManager.js] -> [Module ProviderManager]
    - [MetadataManager]                -> [Module MetadataManager]
    - the [POST /api/upload] handler   -> [Module Server]
    - [src/utils/validation.js]        -> [Module Validation]
    - [SecurityManager] (rate limiter) -> [Module SecurityManager]

    Conventions.  JavaScript numbers that hold sizes and counters are
    integers and are modelled in [Z]; buffers are [list byte]; a JS
    [Map] whose iteration order matters is an association list in
    insertion order ([JsMap]); a [Map] that is only read and written by
    key is a [gmap].  Asynchronous functions are modelled as their
    sequential composition (every [await] in the modelled functions is
    awaited before the next statement).  Exceptions carry their message.
    Logging and event emission have no influence on the results and are
    left out; wall-clock time stamps are left out as well. *)

From Stdlib Require Import ZArith Lia.
From Stdlib.Strings Require Import Byte Ascii String.
From stdpp Require Import base option list strings gmap pretty sorting.

Open Scope string_scope.
Open Scope list_scope.

Abbreviation bytes := (list byte).

(** ** A state-and-exception monad *)

(** [M S A]: a computation over state [S] that returns an [A] or throws a
    JavaScript [Error], represented by its message.  State changes made
    before a throw persist, as in JavaScript. *)
Definition M (S A : Type) : Type := S -> S * (string + A).

Global Instance M_ret {S} : MRet (M S) := fun A a s => (s, inr a).
Global Instance M_bind {S} : MBind (M S) := fun A B k m s =>
  match m s with
  | (s', inl e) => (s', inl e)
  | (s', inr a) => k a s'
  end.

Definition throw {S A} (e : string) : M S A := fun s => (s, inl e).

(** [try { m } catch (error) { h error.message }] *)
Definition try_catch {S A} (m : M S A) (h : string -> M S A) : M S A := fun s =>
  match m s with
  | (s', inl e) => h e s'
  | r => r
  end.

Definition get_state {S} : M S S := fun s => (s, inr s).
Definition put_state {S} (s : S) : M S unit := fun _ => (s, inr tt).
Definition modify_state {S} (f : S -> S) : M S unit := fun s => (f s, inr tt).

(** Run a computation over a component [T] of the state. *)
Definition zoom {S T A} (proj : S -> T) (upd : T -> S -> S) (m : M T A) : M S A := fun s =>
  match m (proj s) with
  | (t, r) => (upd t s, r)
  end.

(** ** JavaScript [Map] with insertion order *)

Module JsMap.
Definition t (V : Type) : Type := list (string * V).

Fixpoint get {V} (m : t V) (k : string) : option V :=
  match m with
  | [] => None
  | (k', v) :: m' => if String.eqb k' k then Some v else get m' k
  end.

(** [set] keeps the position of an existing key and appends a new one. *)
Fixpoint set {V} (m : t V) (k : string) (v : V) : t V :=
  match m with
  | [] => [(k, v)]
  | (k', v') :: m' => if String.eqb k' k then (k', v) :: m' else (k', v') :: set m' k v
  end.

Definition keys {V} (m : t V) : list string := map fst m.
Definition entries {V} (m : t V) : list (string * V) := m.
End JsMap.

(** ** The environment shared by all components *)

(** What one request can observe of the process: the local file system,
    the source of [generateUniqueId] values, and a counter that gives
    each freshly created result object its identity.  [trace] records
    the externally visible actions, oldest first. *)
Inductive Event :=
| EvPut (provider key : string) (body : bytes)   (* bytes handed to a backend *)
| EvGet (provider key : string)                  (* object fetched from a backend *)
| EvGzip (path : string)                         (* pako.gzip run on a file *)
| EvEncrypt (path : string)                      (* encrypt run on a file *)
| EvChunk (path : string).                       (* chunkFile run on a file *)

Record World := mkWorld {
  fs : gmap string bytes;
  trace : list Event;
  idSource : nat -> string;
  nextId : nat;
  nextObj : nat;
  randomSource : nat -> bytes;
  nextRandom : nat
}.

Definition set_fs (f : gmap string bytes -> gmap string bytes) (w : World) : World :=
  mkWorld (f (fs w)) (trace w) (idSource w) (nextId w) (nextObj w)
          (randomSource w) (nextRandom w).
Definition log_event (e : Event) (w : World) : World :=
  mkWorld (fs w) (trace w ++ [e]) (idSource w) (nextId w) (nextObj w)
          (randomSource w) (nextRandom w).

(** [generateUniqueId()]: a time stamp and six random bytes; here the next
    value of the environment's identifier source. *)
Definition generateUniqueId : M World string := fun w =>
  (mkWorld (fs w) (trace w) (idSource w) (S (nextId w)) (nextObj w)
           (randomSource w) (nextRandom w),
   inr (idSource w (nextId w))).

Definition newObject : M World nat := fun w =>
  (mkWorld (fs w) (trace w) (idSource w) (nextId w) (S (nextObj w))
           (randomSource w) (nextRandom w),
   inr (nextObj w)).

(** A buffer of exactly [n] bytes with the given content, zero filled. *)
Definition fit (n : nat) (d : bytes) : bytes := take n (d ++ replicate n x00%byte).

(** [crypto.randomBytes(n)]: [n] bytes of the environment's choosing. *)
Definition randomBytes (n : nat) : M World bytes := fun w =>
  (mkWorld (fs w) (trace w) (idSource w) (nextId w) (nextObj w)
           (randomSource w) (S (nextRandom w)),
   inr (fit n (randomSource w (nextRandom w)))).

Definition emit (e : Event) : M World unit := modify_state (log_event e).

(** [fs.readFileSync(path)] *)
Definition readFileSync (path : string) : M World bytes := fun w =>
  match fs w !! path with
  | Some d => (w, inr d)
  | None => (w, inl ("ENOENT: no such file or directory, open '" +:+ path +:+ "'"))
  end.

(** [fs.statSync(path).size] *)
Definition statSize (path : string) : M World Z := fun w =>
  match fs w !! path with
  | Some d => (w, inr (Z.of_nat (length d)))
  | None => (w, inl ("ENOENT: no such file or directory, stat '" +:+ path +:+ "'"))
  end.

Definition writeFileSync (path : string) (d : bytes) : M World unit :=
  modify_state (set_fs (insert path d)).

Definition unlinkSync (path : string) : M World unit := fun w =>
  match fs w !! path with
  | Some _ => (set_fs (delete path) w, inr tt)
  | None => (w, inl ("ENOENT: no such file or directory, unlink '" +:+ path +:+ "'"))
  end.

Definition existsSync (path : string) : M World bool := fun w =>
  (w, inr (bool_decide (is_Some (fs w !! path)))).

(** [path.join(dir, name)] for a directory and a plain file name; the
    result is not normalised (a leading [./] of [dir] stays). *)
Definition path_join (dir name : string) : string := dir +:+ "/" +:+ name.

(** The digest behind [calculateFileHash] (SHA-256, hex encoded). *)
Class Digest := { sha256 : bytes -> string }.

(** [calculateFileHash(filePath)] *)
Definition calculateFileHash `{Digest} (path : string) : M World string :=
  d ← readFileSync path; mret (sha256 d).

(** ** String and path helpers of the JavaScript run time *)

Module JsStr.

(** [s.toLowerCase()], on ASCII letters. *)
Definition lower_char (c : ascii) : ascii :=
  let n := nat_of_ascii c in
  if Nat.leb 65 n && Nat.leb n 90 then ascii_of_nat (n + 32) else c.

Fixpoint toLowerCase (s : string) : string :=
  match s with
  | EmptyString => EmptyString
  | String c s' => String (lower_char c) (toLowerCase s')
  end.

(** [s.startsWith(p)] *)
Definition startsWith (s p : string) : bool := String.prefix p s.

(** [s.includes(p)] *)
Fixpoint includes (s p : string) : bool :=
  String.prefix p s ||
  match s with
  | EmptyString => false
  | String _ s' => includes s' p
  end.

(** [list.includes(x)] on strings *)
Definition mem (x : string) (l : list string) : bool := existsb (String.eqb x) l.

(** [parts.join(sep)] *)
Fixpoint join (sep : string) (parts : list string) : string :=
  match parts with
  | [] => ""
  | [x] => x
  | x :: rest => x +:+ sep +:+ join sep rest
  end.


(** [s.slice(0, n)] and [s.substring(0, n)] for [n >= 0] *)
Fixpoint take (n : nat) (s : string) : string :=
  match n, s with
  | S n', String c s' => String c (take n' s')
  | _, _ => EmptyString
  end.

(** [s.slice(n)] for [n >= 0] *)
Fixpoint drop (n : nat) (s : string) : string :=
  match n, s with
  | S n', String _ s' => drop n' s'
  | _, _ => s
  end.

(** [s.endsWith(p)] *)
Definition endsWith (s p : string) : bool :=
  String.eqb (drop (String.length s - String.length p) s) p
  && Nat.leb (String.length p) (String.length s).

End JsStr.

Module Path.

(** [path.basename(p)]: the part after the last ['/']. *)
Fixpoint basename_go (s acc : string) : string :=
  match s with
  | EmptyString => acc
  | String c s' =>
      if Ascii.eqb c "/"%char then basename_go s' EmptyString
      else basename_go s' (acc +:+ String c EmptyString)
  end.
Definition basename (s : string) : string := basename_go s EmptyString.

(** The suffix of [s] that starts at its last ['.'], when that dot is not
    the first character. *)
Fixpoint from_last_dot (s : string) (first : bool) : option string :=
  match s with
  | EmptyString => None
  | String c s' =>
      match from_last_dot s' false with
      | Some e => Some e
      | None => if Ascii.eqb c "."%char && negb first then Some s else None
      end
  end.

(** [path.extname(p)] *)
Definition extname (p : string) : string :=
  let b := basename p in
  if String.eqb b ".." then "" else default "" (from_last_dot b true).

End Path.

(** ** Hexadecimal text of a [Buffer] *)

Module Hex.

(** The digit of a value below 16, as [toString('hex')] writes it. *)
Definition digit (n : N) : ascii :=
  ascii_of_N (if (n <? 10)%N then 48 + n else 87 + n).

(** The value of a hexadecimal digit, in either case. *)
Definition unhex (c : ascii) : option N :=
  let n := N_of_ascii c in
  if (48 <=? n)%N && (n <=? 57)%N then Some (n - 48)%N
  else if (97 <=? n)%N && (n <=? 102)%N then Some (n - 87)%N
  else if (65 <=? n)%N && (n <=? 70)%N then Some (n - 55)%N
  else None.

Definition byte_of_N (n : N) : byte := default x00%byte (Byte.of_N n).

(** [buffer.toString('hex')] *)
Fixpoint encode (b : bytes) : string :=
  match b with
  | [] => EmptyString
  | x :: b' =>
      String (digit (Byte.to_N x / 16)) (String (digit (Byte.to_N x mod 16)) (encode b'))
  end.

(** [Buffer.from(s, 'hex')]: pairs of digits are decoded up to the first
    pair that is not hexadecimal; a single character left at the end is
    dropped. *)
Fixpoint decode (s : string) : bytes :=
  match s with
  | String a (String b s') =>
      match unhex a, unhex b with
      | Some x, Some y => byte_of_N (16 * x + y) :: decode s'
      | _, _ => []
      end
  | _ => []
  end.

End Hex.

(** ** Storage providers ([StorjProvider], [ArweaveProvider]) *)

Module Provider.

(** The S3-compatible endpoint behind a provider ([this.s3]).  Its answers
    are not determined by the program; each request either fails with a
    message or returns what the SDK call resolves to. *)
Record S3Head := { head_fileHash : option string }.   (* Metadata['file-hash'] *)
Record S3Put := { Location : string; ETag : string }.

Record S3 := {
  s3_upload : string -> bytes -> string + S3Put;        (* s3.upload({Key, Body, ...}) *)
  s3_multipart : string -> bytes -> string + S3Put;     (* the multipart life cycle as a whole *)
  s3_headObject : string -> string + S3Head;
  s3_getObject : string -> string + bytes
}.

Inductive Kind := Storj | Arweave.

Record t := {
  kind : Kind;
  s3 : S3;
  isConnected : bool
}.

(** [this.name] *)
Definition name (p : t) : string :=
  match kind p with Storj => "Storj" | Arweave => "Arweave" end.

(** [this.maxFileSize] of [ArweaveProvider]: the 200MB free tier limit. *)
Definition maxFileSize : Z := 200 * 1024 * 1024.

(** The [options] object handed to [upload]; absent properties are [None]. *)
Record UploadOptions := {
  originalName : option string;
  permanent : option bool;
  critical : option bool;
  userId : option string;
  createBackup : option bool;
  prefix : option string;
  strategy : option string;
  isBackup : option bool
}.

(** [{ ...options, strategy: s }] *)
Definition with_strategy (o : UploadOptions) (s : string) : UploadOptions :=
  {| originalName := originalName o; permanent := permanent o; critical := critical o;
     userId := userId o; createBackup := createBackup o; prefix := prefix o;
     strategy := Some s; isBackup := isBackup o |}.

(** [{ ...options, strategy: s, isBackup: true }] *)
Definition with_backup_strategy (o : UploadOptions) (s : string) : UploadOptions :=
  {| originalName := originalName o; permanent := permanent o; critical := critical o;
     userId := userId o; createBackup := createBackup o; prefix := prefix o;
     strategy := Some s; isBackup := Some true |}.

(** The object a successful [upload] resolves to.  [oid] is the identity of
    the JavaScript object (two results are [===] iff their [oid]s agree). *)
Record UploadResult := {
  oid : nat;
  provider : string;
  fileId : string;
  key : string;
  location : string;
  etag : string;
  size : Z;
  hash : string;
  res_permanent : option bool
}.

(** JavaScript truthiness of a string-or-undefined: [x || d]. *)
Definition str_or (x : option string) (d : string) : string :=
  match x with
  | Some s => if String.eqb s "" then d else s
  | None => d
  end.

(** [StorjProvider.upload] *)
Definition storj_upload `{Digest} (p : t) (filePath : string) (options : UploadOptions)
  : M World UploadResult :=
  if negb (isConnected p) then throw (name p +:+ " provider not connected") else
  fileSize ← statSize filePath;
  fileHash ← calculateFileHash filePath;
  fileId ← generateUniqueId;
  let key := str_or (prefix options) "uploads" +:+ "/" +:+ fileId +:+ "-" +:+ Path.basename filePath in
  try_catch
    (body ← readFileSync filePath;
     _ ← emit (EvPut (name p) key body);
     uploadResult ←
       (match (if (50 * 1024 * 1024 <? fileSize)%Z then s3_multipart (s3 p) key body
               else s3_upload (s3 p) key body) with
        | inl e => throw e
        | inr r => mret r
        end);
     o ← newObject;
     mret {| oid := o; provider := name p; fileId := fileId; key := key;
             location := Location uploadResult; etag := ETag uploadResult;
             size := fileSize; hash := fileHash; res_permanent := None |})
    (fun error => throw (name p +:+ " upload failed: " +:+ error)).

(** [ArweaveProvider.upload] *)
Definition arweave_upload `{Digest} (p : t) (filePath : string) (options : UploadOptions)
  : M World UploadResult :=
  if negb (isConnected p) then throw (name p +:+ " provider not connected") else
  fileSize ← statSize filePath;
  if (maxFileSize <? fileSize)%Z then
    throw ("File size (" +:+ pretty fileSize +:+ " bytes) exceeds Arweave free tier limit ("
           +:+ pretty maxFileSize +:+ " bytes)")
  else
  fileHash ← calculateFileHash filePath;
  fileId ← generateUniqueId;
  let key := "permanent/" +:+ fileId +:+ "-" +:+ Path.basename filePath in
  try_catch
    (body ← readFileSync filePath;
     _ ← emit (EvPut (name p) key body);
     uploadResult ←
       (match s3_upload (s3 p) key body with
        | inl e => throw e
        | inr r => mret r
        end);
     o ← newObject;
     mret {| oid := o; provider := name p; fileId := fileId; key := key;
             location := Location uploadResult; etag := ETag uploadResult;
             size := fileSize; hash := fileHash; res_permanent := Some true |})
    (fun error => throw (name p +:+ " upload failed: " +:+ error)).

(** [provider.upload(filePath, options)], dispatched on the class. *)
Definition upload `{Digest} (p : t) : string -> UploadOptions -> M World UploadResult :=
  match kind p with
  | Storj => storj_upload p
  | Arweave => arweave_upload p
  end.

(** The [options] of [download]. *)
Record DownloadOptions := {
  dl_originalName : option string;
  strictIntegrity : bool
}.

(** The object a successful [download] resolves to. *)
Record DownloadResult := {
  dl_provider : string;
  dl_path : string;
  dl_size : Z;
  dl_hash : string;
  integrity : bool;
  dl_permanent : option bool
}.

(** [hash === originalHash], where [originalHash] may be [undefined]. *)
Definition hash_matches (downloadHash : string) (originalHash : option string) : bool :=
  match originalHash with
  | Some h => String.eqb downloadHash h
  | None => false
  end.

(** [StorjProvider.download] and [ArweaveProvider.download]: the two bodies
    differ in the [permanent] property of the result and in the text of
    the integrity error. *)
Definition download `{Digest} (p : t) (key downloadPath : string) (options : DownloadOptions)
  : M World DownloadResult :=
  if negb (isConnected p) then throw (name p +:+ " provider not connected") else
  try_catch
    (headResult ← (match s3_headObject (s3 p) key with inl e => throw e | inr h => mret h end);
     let originalHash := head_fileHash headResult in
     _ ← emit (EvGet (name p) key);
     data ← (match s3_getObject (s3 p) key with inl e => throw e | inr d => mret d end);
     _ ← writeFileSync downloadPath data;
     downloadHash ← calculateFileHash downloadPath;
     let isValid := hash_matches downloadHash originalHash in
     if negb isValid && strictIntegrity options then
       _ ← unlinkSync downloadPath;
       throw (match kind p with
              | Storj => "File integrity verification failed"
              | Arweave => "File integrity verification failed for permanent storage"
              end)
     else
       mret {| dl_provider := name p; dl_path := downloadPath;
               dl_size := Z.of_nat (length data); dl_hash := downloadHash;
               integrity := isValid;
               dl_permanent := match kind p with Storj => None | Arweave => Some true end |})
    (fun error => throw (name p +:+ " download failed: " +:+ error)).

(** The bytes a provider serves intact under a key: the provider is
    connected, the object and its metadata can be fetched, and the
    fetched bytes hash to the recorded [file-hash]. *)
Definition intact `{Digest} (p : t) (key : string) : option bytes :=
  if isConnected p then
    match s3_headObject (s3 p) key, s3_getObject (s3 p) key with
    | inr h, inr d => if hash_matches (sha256 d) (head_fileHash h) then Some d else None
    | _, _ => None
    end
  else None.

End Provider.

(** ** [ProviderManager]: placement strategies, upload with fail-over, download *)

Module ProviderManager.
Import Provider.

(** An entry of [this.healthStatus]. *)
Record Health := { status : string }.

(** An entry of [this.uploadStrategies]. *)
Record Strategy := {
  st_primary : string;
  st_backup : option string;                       (* [null] is [None] *)
  st_condition : Z -> UploadOptions -> bool
}.

(** The manager.  [this.uploadStrategies] is filled once, by
    [defineUploadStrategies] in the constructor, and never changed, so it
    is the constant table below rather than a field. *)
Record t := {
  providers : JsMap.t Provider.t;
  healthStatus : JsMap.t Health;
  failoverEnabled : bool
}.

(** [options.permanent === true] and the like. *)
Definition is_true (b : option bool) : bool :=
  match b with Some true => true | _ => false end.

(** [defineUploadStrategies]: the [set] calls on the empty
    [this.uploadStrategies], in their order. *)
Definition defineUploadStrategies : JsMap.t Strategy :=
  let uploadStrategies : JsMap.t Strategy := [] in
  (* Strategy for small files (< 10MB) *)
  let uploadStrategies := JsMap.set uploadStrategies "small"
    {| st_primary := "storj"; st_backup := Some "arweave";
       st_condition := fun fileSize options => (fileSize <? 10 * 1024 * 1024)%Z |} in
  (* Strategy for medium files (10MB - 100MB) *)
  let uploadStrategies := JsMap.set uploadStrategies "medium"
    {| st_primary := "storj"; st_backup := None;
       st_condition := fun fileSize options =>
         (10 * 1024 * 1024 <=? fileSize)%Z && (fileSize <? 100 * 1024 * 1024)%Z |} in
  (* Strategy for large files (> 100MB) *)
  let uploadStrategies := JsMap.set uploadStrategies "large"
    {| st_primary := "storj"; st_backup := None;
       st_condition := fun fileSize options => (100 * 1024 * 1024 <=? fileSize)%Z |} in
  (* Strategy for permanent files *)
  let uploadStrategies := JsMap.set uploadStrategies "permanent"
    {| st_primary := "arweave"; st_backup := Some "storj";
       st_condition := fun fileSize options => is_true (permanent options) |} in
  (* Strategy for critical files *)
  let uploadStrategies := JsMap.set uploadStrategies "critical"
    {| st_primary := "storj"; st_backup := Some "arweave";
       st_condition := fun fileSize options =>
         is_true (critical options) && (fileSize <? 200 * 1024 * 1024)%Z |} in
  uploadStrategies.

(** [isProviderHealthy]: [health && health.status === 'healthy'] *)
Definition isProviderHealthy (pm : t) (providerName : string) : bool :=
  match JsMap.get (healthStatus pm) providerName with
  | Some health => String.eqb (status health) "healthy"
  | None => false
  end.

(** [getHealthiestProvider]: the first healthy entry of [healthStatus],
    else the first provider key ([undefined] when there is none). *)
Definition getHealthiestProvider (pm : t) : option string :=
  match List.find (fun e => String.eqb (status (snd e)) "healthy") (healthStatus pm) with
  | Some e => Some (fst e)
  | None => head (JsMap.keys (providers pm))
  end.

(** What [selectStrategy] returns.  [sel_primary] and [sel_backup] are the
    names after the health test; the two provider objects are looked up
    under the names of the table entry. *)
Record Selected := {
  sel_name : string;
  sel_primary : option string;
  sel_backup : option string;
  primaryProvider : option Provider.t;
  backupProvider : option Provider.t
}.

(** The object built inside the loop of [selectStrategy] for a matching entry. *)
Definition resolve (pm : t) (strategyName : string) (strategy : Strategy) : Selected :=
  let primaryHealthy := isProviderHealthy pm (st_primary strategy) in
  let backupHealthy :=
    match st_backup strategy with
    | Some b => isProviderHealthy pm b
    | None => false
    end in
  {| sel_name := strategyName;
     sel_primary := if primaryHealthy then Some (st_primary strategy)
                    else if backupHealthy then st_backup strategy else None;
     sel_backup := match st_backup strategy with
                   | Some b => if backupHealthy then Some b else None
                   | None => None
                   end;
     primaryProvider := JsMap.get (providers pm) (st_primary strategy);
     backupProvider := match st_backup strategy with
                       | Some b => JsMap.get (providers pm) b
                       | None => None
                       end |}.

(** The [for ... of this.uploadStrategies] loop: the first entry whose
    condition holds. *)
Fixpoint first_match (pm : t) (strategies : JsMap.t Strategy) (fileSize : Z)
    (options : UploadOptions) : option Selected :=
  match strategies with
  | [] => None
  | (strategyName, strategy) :: rest =>
      if st_condition strategy fileSize options then Some (resolve pm strategyName strategy)
      else first_match pm rest fileSize options
  end.

Definition selectStrategyIn (strategies : JsMap.t Strategy) (pm : t) (fileSize : Z)
    (options : UploadOptions) : Selected :=
  match first_match pm strategies fileSize options with
  | Some s => s
  | None =>
      {| sel_name := "default";
         sel_primary := getHealthiestProvider pm;
         sel_backup := None;
         primaryProvider :=
           match getHealthiestProvider pm with
           | Some n => JsMap.get (providers pm) n
           | None => None
           end;
         backupProvider := None |}
  end.

(** [selectStrategy(fileSize, options)] *)
Definition selectStrategy : t -> Z -> UploadOptions -> Selected :=
  selectStrategyIn defineUploadStrategies.

(** What [upload] resolves to. *)
Record UploadOutcome := {
  success : bool;
  primary : UploadResult;
  backups : list UploadResult;
  out_strategy : string;
  totalUploads : Z;
  out_fileSize : Z
}.

(** [r !== primaryResult] on result objects *)
Definition not_same (primaryResult r : UploadResult) : bool :=
  negb (Nat.eqb (oid r) (oid primaryResult)).

(** [strategy.backup !== strategy.primary] on the selected names *)
Definition names_differ (a b : option string) : bool :=
  negb (bool_decide (a = b)).

(** [upload(filePath, options)].  The size is read by
    [require('fs').statSync(filePath).size]; [require] is taken to resolve
    to the [fs] module. *)
Definition upload `{Digest} (pm : t) (filePath : string) (options : UploadOptions)
  : M World UploadOutcome :=
  fileSize ← statSize filePath;
  let strategy := selectStrategy pm fileSize options in
  (* Primary upload *)
  '(primaryResult, results) ←
    (match primaryProvider strategy with
     | Some primaryProv =>
         try_catch
           (r ← Provider.upload primaryProv filePath (with_strategy options (sel_name strategy));
            mret (r, [r]))
           (fun error =>
              (* Try backup provider if primary fails *)
              match backupProvider strategy with
              | Some backupProv =>
                  if failoverEnabled pm then
                    try_catch
                      (backupResult ← Provider.upload backupProv filePath
                                        (with_strategy options (sel_name strategy +:+ "_fallback"));
                       mret (backupResult, [backupResult]))
                      (fun backupError =>
                         throw ("Both primary and backup uploads failed: "
                                +:+ error +:+ ", " +:+ backupError))
                  else throw error
              | None => throw error
              end)
     | None => throw "No healthy providers available for upload"
     end);
  (* Backup upload (if enabled and different from primary) *)
  results ←
    (match backupProvider strategy with
     | Some backupProv =>
         if names_differ (sel_backup strategy) (sel_primary strategy)
            && negb (bool_decide (createBackup options = Some false))
         then
           try_catch
             (backupResult ← Provider.upload backupProv filePath
                               (with_backup_strategy options (sel_name strategy +:+ "_backup"));
              mret (results ++ [backupResult]))
             (fun backupError => mret results)
         else mret results
     | None => mret results
     end);
  mret {| success := true;
          primary := primaryResult;
          backups := List.filter (not_same primaryResult) results;
          out_strategy := sel_name strategy;
          totalUploads := Z.of_nat (length results);
          out_fileSize := fileSize |}.

(** [fileId.split('-')[0]] *)
Fixpoint before_dash (s : string) : string :=
  match s with
  | EmptyString => EmptyString
  | String c s' => if Ascii.eqb c "-"%char then EmptyString else String c (before_dash s')
  end.

(** [[...new Set(keys)]]: the first occurrence of each key, in order. *)
Fixpoint dedup (seen keys : list string) : list string :=
  match keys with
  | [] => []
  | k :: rest =>
      if existsb (String.eqb k) seen then dedup seen rest
      else k :: dedup (seen ++ [k]) rest
  end.

(** JavaScript truthiness of [options.originalName]. *)
Definition truthy_str (x : option string) : bool :=
  match x with
  | Some s => negb (String.eqb s "")
  | None => false
  end.

(** [generatePossibleKeys(fileId, options)] *)
Definition generatePossibleKeys (fileId : string) (options : DownloadOptions) : list string :=
  let keys := [ "uploads/" +:+ fileId; "permanent/" +:+ fileId ] in
  let keys :=
    if truthy_str (dl_originalName options) then
      keys ++ [ "uploads/" +:+ fileId +:+ "-" +:+ default "" (dl_originalName options);
                "permanent/" +:+ fileId +:+ "-" +:+ default "" (dl_originalName options) ]
    else keys in
  let keys := keys ++ [ "uploads/" +:+ before_dash fileId +:+ "-" +:+ fileId;
                        "permanent/" +:+ before_dash fileId +:+ "-" +:+ fileId ] in
  dedup [] keys.

(** The inner loop of [download]: the first key whose download succeeds;
    a failing key moves on to the next one. *)
Fixpoint try_keys `{Digest} (prov : Provider.t) (keys : list string) (downloadPath : string)
    (options : DownloadOptions) : M World (option DownloadResult) :=
  match keys with
  | [] => mret None
  | key :: rest =>
      try_catch
        (result ← Provider.download prov key downloadPath options; mret (Some result))
        (fun keyError => try_keys prov rest downloadPath options)
  end.

(** [a.provider: a.error] joined by [", "] *)
Fixpoint join_attempts (attempts : list (string * string)) : string :=
  match attempts with
  | [] => ""
  | [(p, e)] => p +:+ ": " +:+ e
  | (p, e) :: rest => p +:+ ": " +:+ e +:+ ", " +:+ join_attempts rest
  end.

(** The outer loop of [download] over [this.providers.entries()]. *)
Fixpoint download_from `{Digest} (pm : t) (provs : list (string * Provider.t))
    (fileId downloadPath : string) (options : DownloadOptions)
    (downloadAttempts : list (string * string)) : M World DownloadResult :=
  match provs with
  | [] => throw ("Download failed from all providers: " +:+ join_attempts downloadAttempts)
  | (providerName, prov) :: rest =>
      if negb (isProviderHealthy pm providerName) then
        download_from pm rest fileId downloadPath options downloadAttempts
      else
        r ← try_catch
              (let possibleKeys := generatePossibleKeys fileId options in
               x ← try_keys prov possibleKeys downloadPath options; mret (inr x))
              (fun providerError => mret (inl providerError));
        match r with
        | inr (Some result) => mret result
        | inr None => download_from pm rest fileId downloadPath options downloadAttempts
        | inl e =>
            download_from pm rest fileId downloadPath options
              (downloadAttempts ++ [(providerName, e)])
        end
  end.

(** [download(fileId, downloadPath, options)] *)
Definition download `{Digest} (pm : t) (fileId downloadPath : string)
    (options : DownloadOptions) : M World DownloadResult :=
  download_from pm (JsMap.entries (providers pm)) fileId downloadPath options [].

(** [this.s3.deleteObject({ Key })] of a provider's endpoint, which the
    record [S3] does not hold. *)
Definition DeleteObject := Provider.t -> string -> string + unit.

(** [provider.delete(key)].  [StorjProvider] has the method;
    [ArweaveProvider] has none, so the call throws a [TypeError]. *)
Definition provider_delete (deleteObject : DeleteObject) (p : Provider.t) (key : string)
  : string + unit :=
  match kind p with
  | Storj =>
      if negb (isConnected p) then inl (name p +:+ " provider not connected")
      else deleteObject p key
  | Arweave => inl "provider.delete is not a function"
  end.

(** The inner loop of [deleteFile]: the first key whose deletion succeeds. *)
Fixpoint delete_first (deleteObject : DeleteObject) (prov : Provider.t) (keys : list string)
  : option string :=
  match keys with
  | [] => None
  | key :: rest =>
      match provider_delete deleteObject prov key with
      | inr _ => Some key      (* Move to next provider after successful deletion *)
      | inl _ => delete_first deleteObject prov rest
      end
  end.

(** The outer loop of [deleteFile]: the entries pushed to [deleteResults]. *)
Fixpoint delete_from (deleteObject : DeleteObject) (pm : t) (provs : list (string * Provider.t))
    (possibleKeys : list string) : list (string * string) :=
  match provs with
  | [] => []
  | (providerName, prov) :: rest =>
      if negb (isProviderHealthy pm providerName) then
        delete_from deleteObject pm rest possibleKeys
      else
        match delete_first deleteObject prov possibleKeys with
        | Some key => (providerName, key) :: delete_from deleteObject pm rest possibleKeys
        | None => delete_from deleteObject pm rest possibleKeys
        end
  end.

(** [deleteFile(fileId, options)]: the [deletions] of the result. *)
Definition deleteFile (deleteObject : DeleteObject) (pm : t) (fileId : string)
    (options : DownloadOptions) : string + list (string * string) :=
  let possibleKeys := generatePossibleKeys fileId options in
  let deleteResults := delete_from deleteObject pm (JsMap.entries (providers pm)) possibleKeys in
  if bool_decide (deleteResults = []) then
    inl ("File " +:+ fileId +:+ " not found in any provider")
  else inr deleteResults.

(** [this.s3.headBucket] of a provider's endpoint. *)
Definition HeadBucket := Provider.t -> string + unit.

(** [provider.healthCheck().status] *)
Definition healthCheck (headBucket : HeadBucket) (p : Provider.t) : Health :=
  match headBucket p with
  | inr _ => {| status := "healthy" |}
  | inl _ => {| status := "unhealthy" |}
  end.

(** [performHealthChecks]: every provider is checked and its entry of
    [healthStatus] is set.  The checks run concurrently; the entries are
    set here in the order of [this.providers], which is the order in which
    the checks are started. *)
Definition performHealthChecks (headBucket : HeadBucket) (pm : t) : t :=
  {| providers := providers pm;
     healthStatus :=
       foldl (fun hs e => JsMap.set hs (fst e) (healthCheck headBucket (snd e)))
             (healthStatus pm) (JsMap.entries (providers pm));
     failoverEnabled := failoverEnabled pm |}.

(** [getProviderNames()] *)
Definition getProviderNames (pm : t) : list string := JsMap.keys (providers pm).

End ProviderManager.

(** ** [utils/encryption.js] *)

Module Encryption.

Definition ALGORITHM : string := "aes-256-gcm".
Definition KEY_LENGTH : nat := 32.
Definition IV_LENGTH : nat := 16.
Definition TAG_LENGTH : nat := 16.

(** The part of [node:crypto] used by [encrypt] and [decrypt]:
    [createCipher(ALGORITHM, key, iv)] followed by [update], [final] and
    [getAuthTag]; [createDecipher(ALGORITHM, key, iv)] followed by
    [setAuthTag], [update] and [final] (which throws unless the tag
    authenticates the data); and [scryptSync]. *)
Class Cipher := {
  cipher_update : bytes -> bytes -> bytes -> bytes;           (* key, iv, data *)
  cipher_authTag : bytes -> bytes -> bytes -> bytes;          (* key, iv, data *)
  decipher_update : bytes -> bytes -> bytes -> bytes;         (* key, iv, ciphertext *)
  decipher_final : bytes -> bytes -> bytes -> bytes -> bool;  (* key, iv, tag, ciphertext *)
  scryptSync : string -> string -> nat -> bytes
}.

(** What the platform guarantees of these primitives. *)
Record CipherLaws `{Cipher} : Prop := {
  decipher_cipher : forall k iv d, decipher_update k iv (cipher_update k iv d) = d;
  final_accepts : forall k iv d,
    decipher_final k iv (cipher_authTag k iv d) (cipher_update k iv d) = true;
  authTag_length : forall k iv d, length (cipher_authTag k iv d) = TAG_LENGTH;
  scrypt_length : forall pw salt n, length (scryptSync pw salt n) = n
}.

(** A key argument: a string (pass phrase) or a [Buffer]. *)
Inductive KeyArg :=
| KeyString (s : string)
| KeyBuffer (b : bytes).

(** JavaScript truthiness of [key]: [null], [undefined] and [''] are falsy. *)
Definition key_truthy (key : option KeyArg) : bool :=
  match key with
  | None => false
  | Some (KeyString s) => negb (String.eqb s "")
  | Some (KeyBuffer _) => true
  end.

Definition generateKey : M World bytes := randomBytes KEY_LENGTH.
Definition generateIV : M World bytes := randomBytes IV_LENGTH.

(** "Ensure key is the right length" *)
Definition finalKeyOf `{Cipher} {S} (k : KeyArg) : M S bytes :=
  match k with
  | KeyString s => mret (scryptSync s "salt" KEY_LENGTH)
  | KeyBuffer b =>
      if Nat.eqb (length b) KEY_LENGTH then mret b
      else throw ("Invalid key length: " +:+ pretty (length b) +:+ ", expected: "
                  +:+ pretty KEY_LENGTH)
  end.

Record EncryptResult := {
  encrypted : bytes;
  res_key : bytes;
  res_iv : bytes;
  res_tag : bytes;
  algorithm : string
}.

(** [encrypt(data, key = null, iv = null)] *)
Definition encrypt `{Cipher} (data : bytes) (key : option KeyArg) (iv : option bytes)
  : M World EncryptResult :=
  try_catch
    (encryptionKey ← (if key_truthy key then mret (default (KeyBuffer []) key)
                      else k ← generateKey; mret (KeyBuffer k));
     initVector ← (match iv with Some v => mret v | None => generateIV end);
     finalKey ← finalKeyOf encryptionKey;
     let encrypted := cipher_update finalKey initVector data in
     let tag := cipher_authTag finalKey initVector data in
     let result := initVector ++ tag ++ encrypted in
     mret {| encrypted := result; res_key := finalKey; res_iv := initVector;
             res_tag := tag; algorithm := ALGORITHM |})
    (fun error => throw ("Encryption failed: " +:+ error)).

(** [decrypt(encryptedData, key, iv = null, tag = null)].  The function
    touches no state; it is stated over any state type. *)
Definition decrypt `{Cipher} {S} (encryptedData : bytes) (key : KeyArg)
    (iv tag : option bytes) : M S bytes :=
  try_catch
    ('(initVector, authTag, ciphertext) ←
       (match iv, tag with
        | Some iv, Some tag => mret (iv, tag, encryptedData)
        | _, _ =>
            if Nat.ltb (length encryptedData) (IV_LENGTH + TAG_LENGTH)
            then throw "Encrypted data too short"
            else mret (take IV_LENGTH encryptedData,
                       take TAG_LENGTH (drop IV_LENGTH encryptedData),
                       drop (IV_LENGTH + TAG_LENGTH) encryptedData)
        end);
     finalKey ← finalKeyOf key;
     let decrypted := decipher_update finalKey initVector ciphertext in
     if decipher_final finalKey initVector authTag ciphertext then mret decrypted
     else throw "Unsupported state or unable to authenticate data")
    (fun error => throw ("Decryption failed: " +:+ error)).

(** The keys [encrypt] accepts: none (a key is generated), a pass phrase,
    or a buffer of [KEY_LENGTH] bytes. *)
Definition key_accepted (key : option KeyArg) : Prop :=
  match key with
  | Some (KeyBuffer b) => length b = KEY_LENGTH
  | _ => True
  end.

(** The other primitives of [node:crypto] used in this file:
    [pbkdf2Sync(password, salt, iterations, keylen, 'sha256')], which is
    given for the iteration counts it accepts (1 to 2^31 - 1), and
    [createHmac('sha256', secret).update(data).digest()]. *)
Class Kdf := { pbkdf2Sync : string -> bytes -> Z -> nat -> bytes }.
Class Mac := { hmac : bytes -> bytes -> bytes }.   (* secret, data *)

(** [randomString(length)] with the default encoding ['hex'], for a
    non-negative integer [length]: [Math.ceil(length / 2)] random bytes,
    written in hexadecimal and cut to [length] characters. *)
Definition randomString (length : nat) : M World string :=
  b ← randomBytes (Nat.div (length + 1) 2);
  mret (JsStr.take length (Hex.encode b)).

(** [createHMAC(data, secret)] *)
Definition createHMAC `{Mac} (data secret : bytes) : string :=
  Hex.encode (hmac secret data).

(** [crypto.timingSafeEqual(a, b)]: throws unless the two buffers have the
    same length. *)
Definition timingSafeEqual {S} (a b : bytes) : M S bool :=
  if Nat.eqb (length a) (length b)
  then mret (if List.list_eq_dec Byte.byte_eq_dec a b then true else false)
  else throw "Input buffers must have the same byte length".

(** [verifyHMAC(data, secret, signature)] *)
Definition verifyHMAC `{Mac} {S} (data secret : bytes) (signature : string) : M S bool :=
  let expectedSignature := createHMAC data secret in
  timingSafeEqual (Hex.decode signature) (Hex.decode expectedSignature).

Record HashedPassword := {
  pw_hash : string;
  pw_salt : string;
  pw_rounds : Z
}.

(** [hashPassword(password, saltRounds)] *)
Definition hashPassword `{Kdf} (password : string) (saltRounds : Z) : M World HashedPassword :=
  salt ← randomBytes 16;
  let hash := pbkdf2Sync password salt (saltRounds * 1000) 32 in
  mret {| pw_hash := Hex.encode hash; pw_salt := Hex.encode salt; pw_rounds := saltRounds |}.

(** [verifyPassword(password, hash, salt, rounds)] *)
Definition verifyPassword `{Kdf} {S} (password hash salt : string) (rounds : Z) : M S bool :=
  let saltBuffer := Hex.decode salt in
  let hashBuffer := Hex.decode hash in
  let computedHash := pbkdf2Sync password saltBuffer (rounds * 1000) 32 in
  timingSafeEqual computedHash hashBuffer.

End Encryption.

(** ** [utils/validation.js]: the checks used by the pipeline *)

Module Validation.

Definition dangerousExtensions : list string :=
  [ ".exe"; ".bat"; ".cmd"; ".com"; ".pif"; ".scr"; ".vbs"; ".vbe"; ".js"; ".jse";
    ".jar"; ".msi"; ".msp"; ".hta"; ".cpl"; ".dll"; ".ocx"; ".sys"; ".drv" ].

(** The case-insensitive patterns, matched on a lower-cased copy. *)
Definition suspiciousPatterns : list string :=
  [ "virus"; "malware"; "trojan"; "backdoor"; "exploit";
    "payload"; "shell"; "hack"; "crack"; "keygen" ].

(** The character class of [invalidChars]: the characters
    less-than, greater-than, colon, double quote, slash, backslash, bar,
    question mark, star, and the control characters 0 to 31. *)
Definition invalid_char (c : ascii) : bool :=
  let n := nat_of_ascii c in
  Nat.leb n 31 || existsb (Nat.eqb n) [60; 62; 58; 34; 47; 92; 124; 63; 42]%nat.

Fixpoint has_invalid_char (s : string) : bool :=
  match s with
  | EmptyString => false
  | String c s' => invalid_char c || has_invalid_char s'
  end.

(** [performSecurityCheck(fileName, extension).safe] *)
Definition performSecurityCheck (fileName extension : string) : bool :=
  negb (JsStr.mem extension dangerousExtensions)
  && negb (existsb (fun pat => JsStr.includes (JsStr.toLowerCase fileName) pat) suspiciousPatterns)
  && negb (Nat.ltb 255 (String.length fileName))
  && negb (has_invalid_char fileName).

Record TypeValidation := { tv_valid : bool; detectedType : string }.

(** [validateFileType(filePath, allowedTypes)] *)
Definition validateFileType (filePath : string) (allowedTypes : list string) : TypeValidation :=
  let extension := JsStr.toLowerCase (Path.extname filePath) in
  let fileName := JsStr.toLowerCase (Path.basename filePath) in
  if JsStr.mem "*" allowedTypes then {| tv_valid := true; detectedType := extension |}
  else
    let isAllowed :=
      existsb (fun type =>
                 if JsStr.startsWith type "." then String.eqb extension (JsStr.toLowerCase type)
                 else String.eqb extension ("." +:+ JsStr.toLowerCase type))
              allowedTypes in
    {| tv_valid := isAllowed && performSecurityCheck fileName extension;
       detectedType := extension |}.

Record FileValidation := { valid : bool; errors : list string }.

(** [validateFile(filePath, { maxSize, allowedTypes })] as the upload
    handler calls it (no hash check requested; the magic-byte check only
    adds warnings). *)
Definition validateFile (filePath : string) (maxSize : option Z) (allowedTypes : list string)
  : M World FileValidation := fun w =>
  match fs w !! filePath with
  | None => (w, inr {| valid := false; errors := ["File does not exist"] |})
  | Some d =>
      let fileSize := Z.of_nat (length d) in
      let sizeIssues :=
        (match maxSize with
         | Some m => if negb (m =? 0)%Z && (m <? fileSize)%Z
                     then ["File size (" +:+ pretty fileSize +:+ " bytes) exceeds maximum ("
                           +:+ pretty m +:+ " bytes)"]
                     else []
         | None => []
         end)
        ++ (if (fileSize =? 0)%Z then ["File is empty"] else []) in
      let typeCheck := validateFileType filePath allowedTypes in
      let errs := sizeIssues
                  ++ (if tv_valid typeCheck then []
                      else ["File type not allowed: " +:+ detectedType typeCheck]) in
      (w, inr {| valid := bool_decide (errs = []); errors := errs |})
  end.

(** [\s] on the characters of the model (code units below 256): the
    ASCII white space and the no-break space. *)
Definition is_space (c : ascii) : bool :=
  existsb (Nat.eqb (nat_of_ascii c)) [9; 10; 11; 12; 13; 32; 160]%nat.

(** The character class [[.\s]] *)
Definition dot_or_space (c : ascii) : bool := Ascii.eqb c "."%char || is_space c.

(** [filename.replace(invalidChars, '_')], with the [g] flag: every
    character of the class of [invalid_char] becomes an underscore. *)
Fixpoint replace_invalid (s : string) : string :=
  match s with
  | EmptyString => EmptyString
  | String c s' => String (if invalid_char c then "_"%char else c) (replace_invalid s')
  end.

(** [s.replace(/^[.\s]+|[.\s]+$/g, '')]: the leading and the trailing run
    of dots and white space are removed. *)
Fixpoint trim_left (s : string) : string :=
  match s with
  | EmptyString => EmptyString
  | String c s' => if dot_or_space c then trim_left s' else s
  end.

Fixpoint trim_right (s : string) : string :=
  match s with
  | EmptyString => EmptyString
  | String c s' =>
      match trim_right s' with
      | EmptyString => if dot_or_space c then EmptyString else String c EmptyString
      | t => String c t
      end
  end.

(** [path.basename(p, ext)] for a name [p] without separators: [p]
    without the suffix [ext]; the empty string when [p] is [ext]. *)
Definition basename_without (p ext : string) : string :=
  if String.eqb ext "" then p
  else if String.eqb p ext then ""
  else if JsStr.endsWith p ext then JsStr.take (String.length p - String.length ext) p
  else p.

(** [sanitizeFilename(filename)] *)
Definition sanitizeFilename (filename : string) : string :=
  (* Remove invalid characters *)
  let sanitized := replace_invalid filename in
  (* Remove leading/trailing dots and spaces *)
  let sanitized := trim_right (trim_left sanitized) in
  (* Limit length *)
  let sanitized :=
    if Nat.ltb 255 (String.length sanitized) then
      let ext := Path.extname sanitized in
      let name := basename_without sanitized ext in
      JsStr.take (255 - String.length ext) name +:+ ext
    else sanitized in
  (* Ensure it's not empty *)
  if String.eqb sanitized "" then "unnamed_file" else sanitized.

End Validation.

(** ** [core/FileProcessor.js] *)

Module FileProcessor.
Import Encryption.

(** [pako.gzip] and [pako.ungzip]; [inl] is a thrown error. *)
Class Gzip := {
  gzip : Z -> bytes -> string + bytes;       (* level, data *)
  ungzip : bytes -> string + bytes
}.

Record Config := {
  maxFileSize : Z;
  chunkSize : Z;
  compressionThreshold : Z;
  allowedTypes : list string;
  tempDir : string;
  enableCompression : bool;
  enableEncryption : bool;
  enableDeduplication : bool
}.

(** The constructor argument; an absent property is [None]. *)
Record RawConfig := {
  raw_maxFileSize : option Z;
  raw_chunkSize : option Z;
  raw_compressionThreshold : option Z;
  raw_allowedTypes : option (list string);
  raw_tempDir : option string;
  raw_enableCompression : option bool;
  raw_enableEncryption : option bool;
  raw_enableDeduplication : option bool
}.

(** [this.config = { maxFileSize: config.maxFileSize || 1GB, ..., ...config }]:
    the trailing spread writes every property that is present over its
    default, so a default is used exactly for an absent property. *)
Definition new_config (config : RawConfig) : Config :=
  {| maxFileSize := default (1024 * 1024 * 1024)%Z (raw_maxFileSize config);
     chunkSize := default (50 * 1024 * 1024)%Z (raw_chunkSize config);
     compressionThreshold := default (1024 * 1024)%Z (raw_compressionThreshold config);
     allowedTypes := default ["*"] (raw_allowedTypes config);
     tempDir := default "./temp" (raw_tempDir config);
     enableCompression := default true (raw_enableCompression config);
     enableEncryption := default true (raw_enableEncryption config);
     enableDeduplication := default true (raw_enableDeduplication config) |}.

(** The [options] of [processFile]. *)
Record Options := {
  originalName : option string;
  encryptionKey : option KeyArg;
  encrypt_opt : option bool;               (* options.encrypt *)
  allowDeduplication : option bool;
  opt_chunkSize : option Z;                (* options.chunkSize *)
  compressionLevel : option Z
}.

Record Chunk := {
  index : Z;
  path : string;
  size : Z;
  hash : string;
  start : Z;
  end_ : Z
}.

(** The [processing] object built by [processFile]. *)
Record Processing := {
  compressed : bool;
  encrypted : bool;
  chunks : list Chunk;
  originalSize : Z;
  finalSize : Z;
  proc_encryptionKey : option bytes;
  proc_encryptionIv : option bytes;
  chunked : option bool                    (* [undefined] unless chunking ran *)
}.

(** A value of [this.deduplicationCache]. *)
Record DedupEntry := {
  de_processingId : string;
  de_finalHash : string;
  de_size : Z
}.

Record FullResult := {
  processingId : string;
  originalPath : string;
  processedPath : string;
  originalHash : string;
  finalHash : string;
  processing : Processing
}.

(** The two shapes of object [processFile] resolves to. *)
Inductive ProcessResult :=
| Deduplicated (processingId originalHash : string) (existingFile : DedupEntry)
| Processed (result : FullResult).

(** A value of [this.processingQueue]. *)
Inductive QueueEntry :=
| QProcessing (file : string)
| QCompleted (result : FullResult)
| QFailed (error : string).

Record t := {
  config : Config;
  processingQueue : gmap string QueueEntry;
  deduplicationCache : gmap string DedupEntry
}.

Definition set_queue (pid : string) (e : QueueEntry) (fp : t) : t :=
  {| config := config fp;
     processingQueue := <[pid := e]> (processingQueue fp);
     deduplicationCache := deduplicationCache fp |}.

Definition set_dedup (h : string) (e : DedupEntry) (fp : t) : t :=
  {| config := config fp;
     processingQueue := processingQueue fp;
     deduplicationCache := <[h := e]> (deduplicationCache fp) |}.

(** The state of a call: the processor and the process environment. *)
Abbreviation St := (t * World)%type.

Definition inW {A} (m : M World A) : M St A := zoom snd (fun w s => (s.1, w)) m.
Definition inFP {A} (m : M t A) : M St A := zoom fst (fun fp s => (fp, s.2)) m.
Definition the_config : M St Config := fun s => (s, inr (config s.1)).

Record SecurityScan := { safe : bool; reason : string }.

(** [performSecurityScan(filePath)] *)
Definition performSecurityScan (filePath : string) : SecurityScan :=
  let fileName := JsStr.toLowerCase (Path.basename filePath) in
  let extension := Path.extname fileName in
  let dangerousExtensions := [".exe"; ".bat"; ".cmd"; ".scr"; ".pif"; ".vbs"; ".js"] in
  if JsStr.mem extension dangerousExtensions then
    {| safe := false; reason := "Potentially dangerous file extension: " +:+ extension |}
  else
    let suspiciousPatterns := ["virus"; "malware"; "trojan"; "backdoor"] in
    match List.find (fun pat => JsStr.includes fileName pat) suspiciousPatterns with
    | Some pat => {| safe := false; reason := "Suspicious filename pattern detected: " +:+ pat |}
    | None => {| safe := true; reason := "" |}
    end.

Record Validation := { valid : bool; errors : list string; warnings : list string }.

(** The checks of [validateFile], on what the file system holds at
    [filePath] ([None]: no such file). *)
Definition validate (cfg : Config) (filePath : string) (content : option bytes) : Validation :=
  match content with
  | None => {| valid := false; errors := ["File does not exist"]; warnings := [] |}
  | Some d =>
      let statsSize := Z.of_nat (length d) in
      let typeValidation := Validation.validateFileType filePath (allowedTypes cfg) in
      let securityScan := performSecurityScan filePath in
      let errs :=
        (if (statsSize =? 0)%Z then ["File is empty"] else [])
        ++ (if (maxFileSize cfg <? statsSize)%Z
            then ["File size (" +:+ pretty statsSize +:+ " bytes) exceeds maximum allowed size ("
                  +:+ pretty (maxFileSize cfg) +:+ " bytes)"]
            else [])
        ++ (if Validation.tv_valid typeValidation then []
            else ["File type not allowed: " +:+ Validation.detectedType typeValidation])
        ++ (if safe securityScan then []
            else ["Security scan failed: " +:+ reason securityScan]) in
      let warns :=
        if (100 * 1024 * 1024 <? statsSize)%Z
        then ["Large file detected - upload may take significant time"] else [] in
      {| valid := bool_decide (errs = []); errors := errs; warnings := warns |}
  end.

(** [validateFile(filePath, options)] *)
Definition validateFile (filePath : string) : M St Validation := fun s =>
  (s, inr (validate (config s.1) filePath (fs s.2 !! filePath))).

Record CompressionResult := {
  beneficial : bool;
  compressedPath : option string;
  compressedSize : option Z
}.

(** [x || d] on a number-or-undefined: [0] is falsy. *)
Definition num_or (x : option Z) (d : Z) : Z :=
  match x with
  | Some v => if (v =? 0)%Z then d else v
  | None => d
  end.

(** [compressedSize < originalSize * 0.9].  Both sizes are integers below
    2^53; for such values the double-precision product compares with an
    integer exactly as the rational 9/10 of [originalSize] does. *)
Definition is_beneficial (compressedSize originalSize : Z) : bool :=
  (10 * compressedSize <? 9 * originalSize)%Z.

(** [compressFile(filePath, options)].  The display value [ratio] is left out. *)
Definition compressFile `{Gzip} (filePath : string) (options : Options)
  : M St CompressionResult :=
  cfg ← the_config;
  originalSize ← inW (statSize filePath);
  uid ← inW generateUniqueId;
  let tempCompressedPath := path_join (tempDir cfg) ("compressed_" +:+ uid +:+ ".gz") in
  try_catch
    (originalData ← inW (readFileSync filePath);
     _ ← inW (emit (EvGzip filePath));
     compressedData ← (match gzip (num_or (compressionLevel options) 6) originalData with
                       | inl e => throw e
                       | inr c => mret c
                       end);
     let compressedSize := Z.of_nat (length compressedData) in
     (* Only use compression if it saves at least 10% *)
     if is_beneficial compressedSize originalSize then
       _ ← inW (writeFileSync tempCompressedPath compressedData);
       mret {| beneficial := true; compressedPath := Some tempCompressedPath;
               compressedSize := Some compressedSize |}
     else
       mret {| beneficial := false; compressedPath := None; compressedSize := None |})
    (fun error =>
       mret {| beneficial := false; compressedPath := None; compressedSize := None |}).

Record EncryptionResult := {
  encryptedPath : string;
  er_key : bytes;
  er_iv : bytes
}.

(** [encryptFile(filePath, encryptionKey)] *)
Definition encryptFile `{Cipher} (filePath : string) (encryptionKey : option KeyArg)
  : M St EncryptionResult :=
  cfg ← the_config;
  uid ← inW generateUniqueId;
  let tempEncryptedPath := path_join (tempDir cfg) ("encrypted_" +:+ uid +:+ ".enc") in
  fileData ← inW (readFileSync filePath);
  _ ← inW (emit (EvEncrypt filePath));
  encryptionResult ← inW (encrypt fileData encryptionKey None);
  _ ← inW (writeFileSync tempEncryptedPath (Encryption.encrypted encryptionResult));
  mret {| encryptedPath := tempEncryptedPath;
          er_key := res_key encryptionResult;
          er_iv := res_iv encryptionResult |}.

(** [Math.ceil(a / b)] for integers [a] and [b <> 0]. *)
Definition ceil_div (a b : Z) : Z := (- ((- a) / b))%Z.

(** The path of chunk [i]: [path.join(tempDir, `chunk_${i}_${uid}.part`)] *)
Definition chunkPathOf (dir : string) (i : Z) (uid : string) : string :=
  path_join dir ("chunk_" +:+ pretty i +:+ "_" +:+ uid +:+ ".part").

(** The body of the [for] loop of [chunkFile], run for [n] more rounds
    from index [i]. *)
Fixpoint chunk_loop `{Digest} (n : nat) (i : Z) (filePath : string) (fileSize chunkSize : Z)
    (chunks : list Chunk) : M St (list Chunk) :=
  match n with
  | O => mret chunks
  | S n' =>
      cfg ← the_config;
      let start := (i * chunkSize)%Z in
      let end_ := Z.min (start + chunkSize) fileSize in
      uid ← inW generateUniqueId;
      let chunkPath := chunkPathOf (tempDir cfg) i uid in
      (* Read chunk: a zero-filled buffer of [end - start] bytes receives
         the bytes of the file from position [start] *)
      content ← inW (readFileSync filePath);
      let buffer := fit (Z.to_nat (end_ - start)) (drop (Z.to_nat start) content) in
      (* Write chunk *)
      _ ← inW (writeFileSync chunkPath buffer);
      chunkHash ← inW (calculateFileHash chunkPath);
      chunk_loop n' (i + 1)%Z filePath fileSize chunkSize
        (chunks ++ [ {| index := i; path := chunkPath; size := Z.of_nat (length buffer);
                        hash := chunkHash; start := start; end_ := end_ |} ])
  end.

Record ChunkingResult := {
  cr_chunks : list Chunk;
  totalChunks : Z;
  cr_originalSize : Z
}.

(** [chunkFile(filePath, options)].  With a chunk size of zero and a
    non-empty file [totalChunks] is [Infinity] and the loop of the source
    never ends; the embedding signals that case by an error of its own. *)
Definition chunkFile `{Digest} (filePath : string) (options : Options)
  : M St ChunkingResult :=
  cfg ← the_config;
  fileSize ← inW (statSize filePath);
  let chunkSize := num_or (opt_chunkSize options) (chunkSize cfg) in
  _ ← inW (emit (EvChunk filePath));
  if (chunkSize =? 0)%Z && negb (fileSize =? 0)%Z then throw "(the loop does not terminate)"
  else
    let totalChunks := if (chunkSize =? 0)%Z then 0%Z else ceil_div fileSize chunkSize in
    chunks ← chunk_loop (Z.to_nat totalChunks) 0 filePath fileSize chunkSize [];
    mret {| cr_chunks := chunks; totalChunks := totalChunks; cr_originalSize := fileSize |}.

(** [chunks.sort((a, b) => a.index - b.index)]: a stable sort on [index]. *)
Fixpoint insert_chunk (c : Chunk) (sorted : list Chunk) : list Chunk :=
  match sorted with
  | [] => [c]
  | d :: rest => if (index c <? index d)%Z then c :: d :: rest else d :: insert_chunk c rest
  end.

Definition sort_chunks (chunks : list Chunk) : list Chunk :=
  foldl (fun acc c => insert_chunk c acc) [] chunks.

(** The loop of [reconstructFile]: the chunk files are read one after the
    other and their data queued on the output stream. *)
Fixpoint read_chunks (sortedChunks : list Chunk) (queued : bytes)
  : M World (string * bytes + bytes) :=
  match sortedChunks with
  | [] => mret (inr queued)
  | chunk :: rest =>
      try_catch
        (chunkData ← readFileSync (path chunk); read_chunks rest (queued ++ chunkData))
        (fun error => mret (inl (error, queued)))
  end.

(** [reconstructFile(chunks, outputPath)].  The write stream opens its
    file after the synchronous loop has run, so all reads come first; what
    was queued is written even when a later read has failed. *)
Definition reconstructFile (chunks : list Chunk) (outputPath : string) : M World string :=
  let sortedChunks := sort_chunks chunks in
  r ← read_chunks sortedChunks [];
  match r with
  | inr data => _ ← writeFileSync outputPath data; mret outputPath
  | inl (error, partial) =>
      _ ← writeFileSync outputPath partial;
      throw error
  end.

(** The [result] object of a run that went through the stages. *)
Definition mkResult (processingId filePath processedFilePath originalHash finalHash : string)
    (processing : Processing) : FullResult :=
  {| processingId := processingId; originalPath := filePath;
     processedPath := processedFilePath; originalHash := originalHash;
     finalHash := finalHash; processing := processing |}.

(** Step 4 of [processFile], "Compression (if enabled and beneficial)":
    the path to go on with and the value of [processing.compressed]. *)
Definition compressionStep `{Gzip} (filePath : string) (originalSize : Z) (options : Options)
  : M St (string * bool) :=
  cfg ← the_config;
  if enableCompression cfg && (compressionThreshold cfg <? originalSize)%Z then
    compressionResult ← compressFile filePath options;
    if beneficial compressionResult
    then mret (default filePath (compressedPath compressionResult), true)
    else mret (filePath, false)
  else mret (filePath, false).

(** Steps 4 to 8 of [processFile], with the bookkeeping that follows them:
    what runs when the deduplication check has not returned. *)
Definition runStages `{Digest} `{Cipher} `{Gzip} (processingId filePath originalHash : string)
    (options : Options) : M St ProcessResult :=
  cfg ← the_config;
  originalSize ← inW (statSize filePath);
  (* Step 4: Compression (if enabled and beneficial) *)
  '(processedFilePath, compressed) ← compressionStep filePath originalSize options;
  (* Step 5: Encryption (if enabled) *)
  '(processedFilePath, encrypted, key, iv) ←
    (if enableEncryption cfg && negb (bool_decide (encrypt_opt options = Some false)) then
       encryptionResult ← encryptFile processedFilePath (encryptionKey options);
       mret (encryptedPath encryptionResult, true,
             Some (er_key encryptionResult), Some (er_iv encryptionResult))
     else mret (processedFilePath, false, None, None));
  (* Step 6: Chunking (for large files) *)
  finalSize ← inW (statSize processedFilePath);
  '(chunks, chunked) ←
    (if (chunkSize cfg <? finalSize)%Z then
       chunkingResult ← chunkFile processedFilePath options;
       mret (cr_chunks chunkingResult, Some true)
     else mret ([], None));
  (* Step 7: Generate final hash *)
  finalHash ← inW (calculateFileHash processedFilePath);
  (* Step 8: Update deduplication cache *)
  _ ← (if enableDeduplication cfg then
         inFP (modify_state (set_dedup originalHash
                 {| de_processingId := processingId; de_finalHash := finalHash;
                    de_size := originalSize |}))
       else mret tt);
  let result :=
    mkResult processingId filePath processedFilePath originalHash finalHash
      {| compressed := compressed; encrypted := encrypted;
         chunks := chunks; originalSize := originalSize; finalSize := finalSize;
         proc_encryptionKey := key; proc_encryptionIv := iv; chunked := chunked |} in
  (* Update processing queue *)
  _ ← inFP (modify_state (set_queue processingId (QCompleted result)));
  mret (Processed result).

(** [processFile(filePath, options)] *)
Definition processFile `{Digest} `{Cipher} `{Gzip} (filePath : string) (options : Options)
  : M St ProcessResult :=
  processingId ← inW generateUniqueId;
  try_catch
    ((* Add to processing queue *)
     _ ← inFP (modify_state (set_queue processingId (QProcessing (Path.basename filePath))));
     (* Step 1: Validate file *)
     validation ← validateFile filePath;
     if negb (valid validation) then
       throw ("File validation failed: " +:+ JsStr.join ", " (errors validation))
     else
     (* Step 2: Calculate original hash for deduplication *)
     originalHash ← inW (calculateFileHash filePath);
     cfg ← the_config;
     fp ← inFP get_state;
     (* Step 3: Check for deduplication *)
     match (if enableDeduplication cfg then deduplicationCache fp !! originalHash else None) with
     | Some existingFile =>
         if negb (bool_decide (allowDeduplication options = Some false))
         then mret (Deduplicated processingId originalHash existingFile)
         else runStages processingId filePath originalHash options
     | None => runStages processingId filePath originalHash options
     end)
    (fun error =>
       _ ← inFP (modify_state (set_queue processingId (QFailed error)));
       throw error).

(** [if (fs.existsSync(p)) fs.unlinkSync(p)] *)
Definition remove_if_exists (p : string) : M World unit :=
  present ← existsSync p;
  if (present : bool) then unlinkSync p else mret tt.

(** The loop of [cleanup] over [result.processing.chunks]. *)
Fixpoint remove_chunks (chunks : list Chunk) : M World unit :=
  match chunks with
  | [] => mret tt
  | chunk :: rest => _ ← remove_if_exists (path chunk); remove_chunks rest
  end.

(** [cleanup(processingId)] *)
Definition cleanup (processingId : string) : M St unit :=
  fp ← inFP get_state;
  match processingQueue fp !! processingId with
  | Some (QCompleted result) =>
      (* Clean up processed file if different from original *)
      _ ← (if negb (String.eqb (processedPath result) (originalPath result))
           then inW (remove_if_exists (processedPath result)) else mret tt);
      (* Clean up chunks *)
      _ ← inW (remove_chunks (chunks (processing result)));
      inFP (modify_state (fun fp =>
        {| config := config fp;
           processingQueue := delete processingId (processingQueue fp);
           deduplicationCache := deduplicationCache fp |}))
  | _ => mret tt
  end.



(** A computation that leaves the processor itself (configuration, queue
    and deduplication cache) as it found it. *)
Definition keeps_processor {A} (m : M St A) : Prop :=
  forall s s' r, m s = (s', r) -> s'.1 = s.1.

Record DecompressResult := {
  dec_path : string;
  dec_originalSize : Z;          (* the size of the compressed data *)
  decompressedSize : Z
}.

(** [decompressFile(compressedPath, outputPath)] *)
Definition decompressFile `{Gzip} (compressedPath outputPath : string)
  : M World DecompressResult :=
  compressedData ← readFileSync compressedPath;
  decompressedData ← (match ungzip compressedData with
                      | inl e => throw e
                      | inr d => mret d
                      end);
  _ ← writeFileSync outputPath decompressedData;
  mret {| dec_path := outputPath;
          dec_originalSize := Z.of_nat (length compressedData);
          decompressedSize := Z.of_nat (length decompressedData) |}.

Record DecryptResult := {
  decrypted_path : string;
  decrypted_size : Z
}.

(** [decryptFile(encryptedPath, outputPath, key, iv)]: [decrypt] is called
    without a tag, so it reads the combined format whatever [iv] is. *)
Definition decryptFile `{Cipher} (encryptedPath outputPath : string) (key : KeyArg)
    (iv : option bytes) : M World DecryptResult :=
  encryptedData ← readFileSync encryptedPath;
  decryptedData ← decrypt encryptedData key iv None;
  _ ← writeFileSync outputPath decryptedData;
  mret {| decrypted_path := outputPath;
          decrypted_size := Z.of_nat (length decryptedData) |}.

(** [getProcessingStatus(processingId)] *)
Definition getProcessingStatus (fp : t) (processingId : string) : option QueueEntry :=
  processingQueue fp !! processingId.

(** What [pako] guarantees: [ungzip] inverts [gzip]. *)
Record GzipLaws `{Gzip} : Prop := {
  ungzip_gzip : forall level d c, gzip level d = inr c -> ungzip c = inr d
}.

End FileProcessor.

(** ** [MetadataManager] *)

Module MetadataManager.

(** The value of [processing.encryptionKey] or [processing.encryptionIv].
    A [Buffer] that went through [JSON.stringify] and [JSON.parse] comes
    back as a plain object ([SJson]). *)
Inductive Secret :=
| SUndefined
| SBuffer (b : bytes)
| SJson (b : bytes)
| SString (s : string).

Definition REDACTED : Secret := SString "[REDACTED]".

(** JavaScript truthiness. *)
Definition truthy (v : Secret) : bool :=
  match v with
  | SUndefined => false
  | SString s => negb (String.eqb s "")
  | SBuffer _ | SJson _ => true
  end.

(** [JSON.parse(JSON.stringify(v))] *)
Definition json_secret (v : Secret) : Secret :=
  match v with
  | SBuffer b => SJson b
  | v => v
  end.

(** The nested [processing] object. *)
Record ProcessingInfo := {
  compressed : bool;
  encrypted : bool;
  chunked : option bool;
  chunkCount : Z;
  finalSize : Z;
  encryptionKey : Secret;
  encryptionIv : Secret
}.

(** The nested [blockchain] object; a deleted [gasUsed] is [None]. *)
Record Blockchain := {
  transactionHash : option string;
  blockNumber : option Z;
  gasUsed : option (option Z);           (* [Some None] is the property set to [null] *)
  confirmed : bool
}.

Record FileInfo := {
  originalName : string;
  fsize : Z;
  ftype : string;
  fhash : string
}.

Record Placement := {
  pl_provider : string;
  pl_location : string;
  pl_key : string;
  pl_size : Z;
  pl_etag : string
}.

Record Storage := {
  st_primary : Placement;
  st_backups : list Placement;
  st_strategy : string;
  st_totalUploads : Z
}.

Record Access := {
  owner : string;
  accessLevel : string;
  downloadCount : Z
}.

Record SystemInfo := {
  uploadedFrom : string;
  userAgent : string;
  apiVersion : string
}.

Record VersionEntry := {
  ve_version : Z;
  ve_changes : string
}.

(** A metadata object.  The nested objects that are written through a
    copy of the record, [processing] and [blockchain], are of type [P] and
    [B]: references into the heap for a live object ([Metadata]), the
    nested values themselves for its JSON text ([Stored]).  The other
    nested objects are only read in the modelled functions and are held
    by value. *)
Record MetadataOf (P B : Type) := {
  fileId : string;
  version : Z;
  file : FileInfo;
  storage : Storage;
  processing : option P;                 (* [null] is [None] *)
  access : Access;
  blockchain : option B;                 (* [undefined] is [None] *)
  system : option SystemInfo;            (* deleted is [None] *)
  versionHistory : option (list VersionEntry)
}.
Arguments fileId {P B}.
Arguments version {P B}.
Arguments file {P B}.
Arguments storage {P B}.
Arguments processing {P B}.
Arguments access {P B}.
Arguments blockchain {P B}.
Arguments system {P B}.
Arguments versionHistory {P B}.

Abbreviation Metadata := (MetadataOf nat nat).
Abbreviation Stored := (MetadataOf ProcessingInfo Blockchain).

(** The objects records point to. *)
Record Heap := {
  procs : gmap nat ProcessingInfo;
  chains : gmap nat Blockchain;
  nextLoc : nat
}.

Record Config := {
  enableBlockchainSync : bool;
  enableVersioning : bool;
  maxVersions : Z
}.

(** [getBlockchainMetadata]'s result. *)
Record BlockchainMetadata := {
  bm_fileId : string;
  bm_fileHash : string;
  bm_owner : string;
  bm_storageProvider : string;
  bm_permanent : bool;
  bm_encrypted : bool;
  bm_version : Z
}.

Record t := {
  config : Config;
  heap : Heap;
  metadataCache : gmap string Metadata;
  versionHistoryMap : gmap string (list VersionEntry);   (* [this.versionHistory] *)
  disk : gmap string Stored;                             (* the [.meta.json] files, by fileId *)
  blockchainQueue : list (string * option BlockchainMetadata)
}.

Definition set_heap (h : Heap) (s : t) : t :=
  {| config := config s; heap := h; metadataCache := metadataCache s;
     versionHistoryMap := versionHistoryMap s; disk := disk s;
     blockchainQueue := blockchainQueue s |}.
Definition set_cache (c : gmap string Metadata) (s : t) : t :=
  {| config := config s; heap := heap s; metadataCache := c;
     versionHistoryMap := versionHistoryMap s; disk := disk s;
     blockchainQueue := blockchainQueue s |}.
Definition set_versions (v : gmap string (list VersionEntry)) (s : t) : t :=
  {| config := config s; heap := heap s; metadataCache := metadataCache s;
     versionHistoryMap := v; disk := disk s; blockchainQueue := blockchainQueue s |}.
Definition set_disk (d : gmap string Stored) (s : t) : t :=
  {| config := config s; heap := heap s; metadataCache := metadataCache s;
     versionHistoryMap := versionHistoryMap s; disk := d;
     blockchainQueue := blockchainQueue s |}.
Definition set_queue (q : list (string * option BlockchainMetadata)) (s : t) : t :=
  {| config := config s; heap := heap s; metadataCache := metadataCache s;
     versionHistoryMap := versionHistoryMap s; disk := disk s; blockchainQueue := q |}.

(** The record with another [processing] and [blockchain]. *)
Definition rebind {P B P' B'} (m : MetadataOf P B) (p : option P') (b : option B')
  : MetadataOf P' B' :=
  {| fileId := fileId m; version := version m; file := file m; storage := storage m;
     processing := p; access := access m; blockchain := b; system := system m;
     versionHistory := versionHistory m |}.

(** What a record reads as in heap [h]: its JSON text, before the
    conversion of buffers. *)
Definition view (h : Heap) (m : Metadata) : Stored :=
  rebind m (l ← processing m; procs h !! l) (l ← blockchain m; chains h !! l).

Definition json_processing (p : ProcessingInfo) : ProcessingInfo :=
  {| compressed := compressed p; encrypted := encrypted p; chunked := chunked p;
     chunkCount := chunkCount p; finalSize := finalSize p;
     encryptionKey := json_secret (encryptionKey p);
     encryptionIv := json_secret (encryptionIv p) |}.

(** [JSON.stringify(metadata)] *)
Definition stringify (h : Heap) (m : Metadata) : Stored :=
  let v := view h m in
  rebind v (json_processing <$> processing v) (blockchain v).

(** [JSON.parse(text)]: fresh objects for the nested values. *)
Definition parse (d : Stored) : M t Metadata := fun s =>
  let h := heap s in
  let lp := nextLoc h in
  let lb := S (nextLoc h) in
  let h' := {| procs := match processing d with
                        | Some p => <[lp := p]> (procs h)
                        | None => procs h
                        end;
               chains := match blockchain d with
                         | Some b => <[lb := b]> (chains h)
                         | None => chains h
                         end;
               nextLoc := S (S (nextLoc h)) |} in
  (set_heap h' s,
   inr (rebind d (match processing d with Some _ => Some lp | None => None end)
                 (match blockchain d with Some _ => Some lb | None => None end))).

(** [persistMetadata(fileId, metadata)] *)
Definition persistMetadata (fileId : string) (metadata : Metadata) : M t unit :=
  modify_state (fun s => set_disk (<[fileId := stringify (heap s) metadata]> (disk s)) s).

(** [loadMetadataFromDisk(fileId)] *)
Definition loadMetadataFromDisk (fileId : string) : M t (option Metadata) := fun s =>
  match disk s !! fileId with
  | Some d => match parse d s with
              | (s', inr m) => (s', inr (Some m))
              | (s', inl e) => (s', inr None)
              end
  | None => (s, inr None)
  end.

(** The [options] of [getMetadata] and [filterMetadata]. *)
Record Options := {
  includeSecrets : bool;
  opt_accessLevel : option string;
  includeVersions : bool
}.

Definition defaultOptions : Options :=
  {| includeSecrets := false; opt_accessLevel := None; includeVersions := false |}.

(** [options.accessLevel && options.accessLevel !== 'admin'] *)
Definition restricted (options : Options) : bool :=
  match opt_accessLevel options with
  | Some a => negb (String.eqb a "") && negb (String.eqb a "admin")
  | None => false
  end.

(** [if (obj.processing?.encryptionKey) obj.processing.encryptionKey = '[REDACTED]']:
    the assignment goes to the object [processing] refers to. *)
Definition redactKey (m : Metadata) : M t unit := fun s =>
  match processing m with
  | Some l =>
      match procs (heap s) !! l with
      | Some p =>
          if truthy (encryptionKey p) then
            (set_heap {| procs := <[l := {| compressed := compressed p; encrypted := encrypted p;
                                            chunked := chunked p; chunkCount := chunkCount p;
                                            finalSize := finalSize p;
                                            encryptionKey := REDACTED;
                                            encryptionIv := encryptionIv p |}]> (procs (heap s));
                         chains := chains (heap s); nextLoc := nextLoc (heap s) |} s, inr tt)
          else (s, inr tt)
      | None => (s, inr tt)
      end
  | None => (s, inr tt)
  end.

Definition redactIv (m : Metadata) : M t unit := fun s =>
  match processing m with
  | Some l =>
      match procs (heap s) !! l with
      | Some p =>
          if truthy (encryptionIv p) then
            (set_heap {| procs := <[l := {| compressed := compressed p; encrypted := encrypted p;
                                            chunked := chunked p; chunkCount := chunkCount p;
                                            finalSize := finalSize p;
                                            encryptionKey := encryptionKey p;
                                            encryptionIv := REDACTED |}]> (procs (heap s));
                         chains := chains (heap s); nextLoc := nextLoc (heap s) |} s, inr tt)
          else (s, inr tt)
      | None => (s, inr tt)
      end
  | None => (s, inr tt)
  end.

(** [delete obj.blockchain.gasUsed] *)
Definition deleteGasUsed (m : Metadata) : M t unit := fun s =>
  match blockchain m with
  | Some l =>
      match chains (heap s) !! l with
      | Some b =>
          (set_heap {| procs := procs (heap s);
                       chains := <[l := {| transactionHash := transactionHash b;
                                           blockNumber := blockNumber b; gasUsed := None;
                                           confirmed := confirmed b |}]> (chains (heap s));
                       nextLoc := nextLoc (heap s) |} s, inr tt)
      | None => (s, inr tt)
      end
  | None => (s, inl "Cannot read properties of undefined (reading 'gasUsed')")
  end.

(** [filterMetadata(metadata, options)] for a record ([metadata] is not
    [null]).  [{ ...metadata }] copies the properties of the record; the
    nested objects are shared with the original. *)
Definition filterMetadata (metadata : Metadata) (options : Options) : M t Metadata :=
  let filteredMetadata := metadata in
  (* Remove sensitive information if not authorized *)
  _ ← (if negb (includeSecrets options) then
         _ ← redactKey filteredMetadata; redactIv filteredMetadata
       else mret tt);
  (* Filter based on access level *)
  filteredMetadata ←
    (if restricted options then
       let filteredMetadata :=
         {| fileId := fileId filteredMetadata; version := version filteredMetadata;
            file := file filteredMetadata; storage := storage filteredMetadata;
            processing := processing filteredMetadata; access := access filteredMetadata;
            blockchain := blockchain filteredMetadata; system := None;
            versionHistory := versionHistory filteredMetadata |} in
       _ ← deleteGasUsed filteredMetadata; mret filteredMetadata
     else mret filteredMetadata);
  (* Include version history if requested *)
  s ← get_state;
  mret (if includeVersions options then
          match versionHistoryMap s !! fileId metadata with
          | Some vh =>
              {| fileId := fileId filteredMetadata; version := version filteredMetadata;
                 file := file filteredMetadata; storage := storage filteredMetadata;
                 processing := processing filteredMetadata; access := access filteredMetadata;
                 blockchain := blockchain filteredMetadata; system := system filteredMetadata;
                 versionHistory := Some vh |}
          | None => filteredMetadata
          end
        else filteredMetadata).

(** [getMetadata(fileId, options)]; [null] is [None]. *)
Definition getMetadata (fileId : string) (options : Options) : M t (option Metadata) :=
  s ← get_state;
  match metadataCache s !! fileId with
  | None =>
      (* Try loading from disk if not in cache *)
      loadedMetadata ← loadMetadataFromDisk fileId;
      match loadedMetadata with
      | Some loaded =>
          _ ← modify_state (fun s => set_cache (<[fileId := loaded]> (metadataCache s)) s);
          r ← filterMetadata loaded options; mret (Some r)
      | None => mret None
      end
  | Some metadata => r ← filterMetadata metadata options; mret (Some r)
  end.

(** [getBlockchainMetadata(fileId)]: calls [getMetadata] with the default options. *)
Definition getBlockchainMetadata (fileId : string) : M t (option BlockchainMetadata) :=
  metadata ← getMetadata fileId defaultOptions;
  match metadata with
  | None => mret None
  | Some metadata =>
      s ← get_state;
      mret (Some {| bm_fileId := MetadataManager.fileId metadata;
                    bm_fileHash := fhash (file metadata);
                    bm_owner := owner (access metadata);
                    bm_storageProvider := pl_provider (st_primary (storage metadata));
                    bm_permanent :=
                      String.eqb (pl_provider (st_primary (storage metadata))) "Arweave";
                    bm_encrypted :=
                      match processing (view (heap s) metadata) with
                      | Some p => encrypted p
                      | None => false
                      end;
                    bm_version := version metadata |})
  end.

(** [queueForBlockchainSync(fileId, metadata)] *)
Definition queueForBlockchainSync (fileId : string) : M t unit :=
  bm ← getBlockchainMetadata fileId;
  modify_state (fun s => set_queue (blockchainQueue s ++ [(fileId, bm)]) s).

(** The arguments of [createMetadata]. *)
Record FileArg := {
  fa_fileId : option string;
  fa_originalName : option string;
  fa_path : string;
  fa_size : option Z;
  fa_type : option string;
  fa_hash : string
}.

Record UserInfo := {
  ui_userId : option string;
  ui_ipAddress : option string;
  ui_userAgent : option string
}.

Definition placement_of (r : Provider.UploadResult) : Placement :=
  {| pl_provider := Provider.provider r; pl_location := Provider.location r;
     pl_key := Provider.key r; pl_size := Provider.size r; pl_etag := Provider.etag r |}.

Definition secret_of (b : option bytes) : Secret :=
  match b with Some b => SBuffer b | None => SUndefined end.

(** The [processing] property built by [createMetadata].  Of the object a
    deduplicated [processFile] resolves to, [processingResult.processing]
    is [undefined], and reading its [compressed] property throws. *)
Definition processing_of (processingResult : option FileProcessor.ProcessResult)
  : string + option ProcessingInfo :=
  match processingResult with
  | None => inr None
  | Some (FileProcessor.Deduplicated _ _ _) =>
      inl "Cannot read properties of undefined (reading 'compressed')"
  | Some (FileProcessor.Processed r) =>
      let p := FileProcessor.processing r in
      inr (Some {| compressed := FileProcessor.compressed p;
                   encrypted := FileProcessor.encrypted p;
                   chunked := FileProcessor.chunked p;
                   chunkCount := Z.of_nat (length (FileProcessor.chunks p));
                   finalSize := FileProcessor.finalSize p;
                   encryptionKey := secret_of (FileProcessor.proc_encryptionKey p);
                   encryptionIv := secret_of (FileProcessor.proc_encryptionIv p) |})
  end.

(** The state of a call that also reaches the process environment. *)
Abbreviation St := (t * World)%type.

Definition inW {A} (m : M World A) : M St A := zoom snd (fun w s => (s.1, w)) m.
Definition inMM {A} (m : M t A) : M St A := zoom fst (fun mm s => (mm, s.2)) m.

(** [x || d] on a string-or-undefined, the default being computed on demand. *)
Definition str_or_else {S} (x : option string) (d : M S string) : M S string :=
  match x with
  | Some v => if String.eqb v "" then d else mret v
  | None => d
  end.

Definition num_or_else {S} (x : option Z) (d : M S Z) : M S Z :=
  match x with
  | Some v => if (v =? 0)%Z then d else mret v
  | None => d
  end.

(** [createMetadata(fileInfo, uploadResult, processingResult, userInfo)].
    The descriptive properties (description, tags, category) are left out. *)
Definition createMetadata (fileInfo : FileArg) (uploadResult : ProviderManager.UploadOutcome)
    (processingResult : option FileProcessor.ProcessResult) (userInfo : UserInfo)
  : M St Metadata :=
  fileId ← str_or_else (fa_fileId fileInfo) (inW generateUniqueId);
  originalName ← str_or_else (fa_originalName fileInfo) (mret (Path.basename (fa_path fileInfo)));
  fsize ← num_or_else (fa_size fileInfo) (inW (statSize (fa_path fileInfo)));
  ftype ← str_or_else (fa_type fileInfo) (mret (Path.extname (fa_path fileInfo)));
  match processing_of processingResult with
  | inl e => throw e
  | inr proc =>
      inMM (
      s ← get_state;
      let h := heap s in
      let lp := nextLoc h in
      let lb := S (nextLoc h) in
      let metadata : Metadata :=
        {| fileId := fileId;
           version := 1;
           file := {| originalName := originalName; fsize := fsize;
                      ftype := ftype; fhash := fa_hash fileInfo |};
           storage := {| st_primary := placement_of (ProviderManager.primary uploadResult);
                         st_backups := map placement_of (ProviderManager.backups uploadResult);
                         st_strategy := ProviderManager.out_strategy uploadResult;
                         st_totalUploads := ProviderManager.totalUploads uploadResult |};
           processing := match proc with Some _ => Some lp | None => None end;
           access := {| owner := Provider.str_or (ui_userId userInfo) "anonymous";
                        accessLevel := "private"; downloadCount := 0 |};
           blockchain := Some lb;
           system := Some {| uploadedFrom := Provider.str_or (ui_ipAddress userInfo) "unknown";
                             userAgent := Provider.str_or (ui_userAgent userInfo) "unknown";
                             apiVersion := "1.0.0" |};
           versionHistory := None |} in
      _ ← put_state
            (set_heap {| procs := match proc with
                                  | Some p => <[lp := p]> (procs h)
                                  | None => procs h
                                  end;
                         chains := <[lb := {| transactionHash := None; blockNumber := None;
                                              gasUsed := Some None; confirmed := false |}]>
                                     (chains h);
                         nextLoc := S (S (nextLoc h)) |} s);
      (* Store in cache and persist *)
      _ ← modify_state (fun s => set_cache (<[fileId := metadata]> (metadataCache s)) s);
      _ ← persistMetadata fileId metadata;
      (* Initialize version history *)
      _ ← (if enableVersioning (config s) then
             modify_state (fun s =>
               set_versions (<[fileId := [ {| ve_version := 1; ve_changes := "Initial upload" |} ]]>
                               (versionHistoryMap s)) s)
           else mret tt);
      (* Queue for blockchain sync *)
      _ ← (if enableBlockchainSync (config s) then queueForBlockchainSync fileId else mret tt);
      mret metadata)
  end.

(** What [getMetadata] finds for [fileId]: the cached record as it reads
    now, else the record on disk. *)
Definition lookupRecord (s : t) (fileId : string) : option Stored :=
  match metadataCache s !! fileId with
  | Some m => Some (view (heap s) m)
  | None => disk s !! fileId
  end.

(** Key material itself, as opposed to an absent value or a text. *)
Definition is_raw (v : Secret) : bool :=
  match v with
  | SBuffer _ | SJson _ => true
  | _ => false
  end.

(** The [processing] object after the two guarded assignments of
    [filterMetadata]. *)
Definition redacted (p : ProcessingInfo) : ProcessingInfo :=
  {| compressed := compressed p; encrypted := encrypted p; chunked := chunked p;
     chunkCount := chunkCount p; finalSize := finalSize p;
     encryptionKey := if truthy (encryptionKey p) then REDACTED else encryptionKey p;
     encryptionIv := if truthy (encryptionIv p) then REDACTED else encryptionIv p |}.

(** [deleteMetadata(fileId)] *)
Definition deleteMetadata (fileId : string) : M t bool :=
  (* Remove from cache *)
  _ ← modify_state (fun s => set_cache (delete fileId (metadataCache s)) s);
  _ ← modify_state (fun s => set_versions (delete fileId (versionHistoryMap s)) s);
  (* Remove from disk *)
  _ ← modify_state (fun s => set_disk (delete fileId (disk s)) s);
  mret true.

(** [updateAccessStats(fileId, action, userInfo)].  The counter is a
    property of the [access] object of the cached record, which is
    updated in place; the time stamps and [lastDownloadedBy] are left out. *)
Definition updateAccessStats (fileId action : string) : M t bool :=
  s ← get_state;
  match metadataCache s !! fileId with
  | None => mret false
  | Some metadata =>
      let access' :=
        if String.eqb action "download" then
          {| owner := owner (access metadata); accessLevel := accessLevel (access metadata);
             downloadCount := (downloadCount (access metadata) + 1)%Z |}
        else access metadata in
      let metadata' : Metadata :=
        {| fileId := MetadataManager.fileId metadata; version := version metadata;
           file := file metadata; storage := storage metadata;
           processing := processing metadata; access := access';
           blockchain := blockchain metadata; system := system metadata;
           versionHistory := versionHistory metadata |} in
      (* Persist changes *)
      _ ← modify_state (fun s => set_cache (<[fileId := metadata']> (metadataCache s)) s);
      _ ← persistMetadata fileId metadata';
      mret true
  end.

End MetadataManager.

(** ** The [POST /api/upload] handler *)

Module Server.

(** The components held by the server. *)
Record t := {
  fileProcessor : FileProcessor.t;
  providerManager : ProviderManager.t;
  metadataManager : MetadataManager.t;
  world : World
}.

Definition inProcessor {A} (m : M FileProcessor.St A) : M t A := fun s =>
  match m (fileProcessor s, world s) with
  | ((fp, w), r) =>
      ({| fileProcessor := fp; providerManager := providerManager s;
          metadataManager := metadataManager s; world := w |}, r)
  end.

Definition inWorld {A} (m : M World A) : M t A := fun s =>
  match m (world s) with
  | (w, r) =>
      ({| fileProcessor := fileProcessor s; providerManager := providerManager s;
          metadataManager := metadataManager s; world := w |}, r)
  end.

Definition inMetadata {A} (m : M MetadataManager.St A) : M t A := fun s =>
  match m (metadataManager s, world s) with
  | ((mm, w), r) =>
      ({| fileProcessor := fileProcessor s; providerManager := providerManager s;
          metadataManager := mm; world := w |}, r)
  end.

(** An uploaded file as [multer] hands it over, and the form fields. *)
Record UploadedFile := {
  uf_originalname : string;
  uf_path : string;
  uf_size : Z;
  uf_mimetype : string
}.

Record Body := {
  body_userId : option string;
  body_permanent : option string;
  body_critical : option string;
  body_encryptionKey : option string
}.

(** An entry of [uploadResults]. *)
Inductive FileOutcome :=
| Uploaded (filename fileId : string) (providers : Z) (permanent : bool)
| Rejected (filename error : string).

(** [processingResult.processedPath || file.path] *)
Definition path_to_upload (r : FileProcessor.ProcessResult) (filePath : string) : string :=
  match r with
  | FileProcessor.Processed f =>
      if String.eqb (FileProcessor.processedPath f) "" then filePath
      else FileProcessor.processedPath f
  | FileProcessor.Deduplicated _ _ _ => filePath
  end.

Definition processingId_of (r : FileProcessor.ProcessResult) : string :=
  match r with
  | FileProcessor.Processed f => FileProcessor.processingId f
  | FileProcessor.Deduplicated pid _ _ => pid
  end.

(** The body of the [for (const file of req.files)] loop of the handler. *)
Definition handleFile `{Digest} `{Encryption.Cipher} `{FileProcessor.Gzip}
    (maxSize : option Z) (body : Body) (file : UploadedFile) : M t FileOutcome :=
  try_catch
    ((* Validate file *)
     validation ← inWorld (Validation.validateFile (uf_path file) maxSize ["*"]);
     if negb (Validation.valid validation) then
       mret (Rejected (uf_originalname file) (JsStr.join ", " (Validation.errors validation)))
     else
     (* Process file *)
     processingResult ←
       inProcessor (FileProcessor.processFile (uf_path file)
         {| FileProcessor.originalName := Some (uf_originalname file);
            FileProcessor.encryptionKey := Encryption.KeyString <$> body_encryptionKey body;
            FileProcessor.encrypt_opt := None;
            FileProcessor.allowDeduplication := None;
            FileProcessor.opt_chunkSize := None;
            FileProcessor.compressionLevel := None |});
     (* Upload to storage providers *)
     s ← get_state;
     uploadResult ←
       inWorld (ProviderManager.upload (providerManager s)
         (path_to_upload processingResult (uf_path file))
         {| Provider.originalName := Some (uf_originalname file);
            Provider.permanent := Some (bool_decide (body_permanent body = Some "true"));
            Provider.critical := Some (bool_decide (body_critical body = Some "true"));
            Provider.userId := Some (Provider.str_or (body_userId body) "anonymous");
            Provider.createBackup := None; Provider.prefix := None;
            Provider.strategy := None; Provider.isBackup := None |});
     (* Create metadata *)
     metadata ←
       inMetadata (MetadataManager.createMetadata
         {| MetadataManager.fa_fileId :=
              Some (Provider.fileId (ProviderManager.primary uploadResult));
            MetadataManager.fa_originalName := Some (uf_originalname file);
            MetadataManager.fa_path := uf_path file;
            MetadataManager.fa_size := Some (uf_size file);
            MetadataManager.fa_type := Some (uf_mimetype file);
            MetadataManager.fa_hash := Provider.hash (ProviderManager.primary uploadResult) |}
         uploadResult (Some processingResult)
         {| MetadataManager.ui_userId := Some (Provider.str_or (body_userId body) "anonymous");
            MetadataManager.ui_ipAddress := None; MetadataManager.ui_userAgent := None |});
     (* Cleanup temporary files *)
     _ ← inProcessor (FileProcessor.cleanup (processingId_of processingResult));
     _ ← inWorld (unlinkSync (uf_path file));
     mret (Uploaded (uf_originalname file)
             (Provider.fileId (ProviderManager.primary uploadResult))
             (ProviderManager.totalUploads uploadResult)
             (match Provider.res_permanent (ProviderManager.primary uploadResult) with
              | Some b => b
              | None => false
              end)))
    (fun fileError =>
       (* Cleanup on error *)
       _ ← inWorld (FileProcessor.remove_if_exists (uf_path file));
       mret (Rejected (uf_originalname file) fileError)).

(** The loop over [req.files]. *)
Fixpoint handleFiles `{Digest} `{Encryption.Cipher} `{FileProcessor.Gzip}
    (maxSize : option Z) (body : Body) (files : list UploadedFile) : M t (list FileOutcome) :=
  match files with
  | [] => mret []
  | file :: rest =>
      r ← handleFile maxSize body file;
      rs ← handleFiles maxSize body rest;
      mret (r :: rs)
  end.

End Server.

(** ** [SecurityManager]: the rate limiter behind the [/api] routes *)

Module SecurityManager.

Record Config := {
  lockoutDuration : Z;
  rateLimitWindow : Z;
  rateLimitMax : Z
}.

(** A value of [this.rateLimitTracker]. *)
Record Entry := {
  requests : list Z;
  blocked : bool;
  blockUntil : Z
}.

Record t := {
  config : Config;
  rateLimitTracker : gmap string Entry;
  securityEvents : list string            (* the [type] of each logged event *)
}.

(** What [checkRateLimit] returns; an absent property is [None]. *)
Record RateLimit := {
  allowed : bool;
  retryAfter : option Z;
  remaining : Z;
  resetTime : option Z
}.

Definition set_entry (key : string) (e : Entry) (sm : t) : t :=
  {| config := config sm;
     rateLimitTracker := <[key := e]> (rateLimitTracker sm);
     securityEvents := securityEvents sm |}.

(** [logSecurityEvent(eventType, details)] *)
Definition logSecurityEvent (eventType : string) (sm : t) : t :=
  {| config := config sm;
     rateLimitTracker := rateLimitTracker sm;
     securityEvents := securityEvents sm ++ [eventType] |}.

(** [Math.ceil(a / 1000)] *)
Definition ceil_seconds (a : Z) : Z := (- ((- a) / 1000))%Z.

(** [checkRateLimit(identifier, action)] at the time [now] ([Date.now()]).
    The entry is an object held by the tracker and updated in place. *)
Definition checkRateLimit (identifier action : string) (now : Z) (sm : t) : t * RateLimit :=
  let key := identifier +:+ ":" +:+ action in
  let windowStart := (now - rateLimitWindow (config sm))%Z in
  (* Get or create rate limit entry *)
  let rateLimitEntry :=
    default {| requests := []; blocked := false; blockUntil := 0 |}
            (rateLimitTracker sm !! key) in
  let sm := set_entry key rateLimitEntry sm in
  (* Check if currently blocked *)
  if blocked rateLimitEntry && (now <? blockUntil rateLimitEntry)%Z then
    (sm, {| allowed := false;
            retryAfter := Some (ceil_seconds (blockUntil rateLimitEntry - now));
            remaining := 0; resetTime := None |})
  else
    (* Clean old requests *)
    let recent := List.filter (fun time => (windowStart <? time)%Z) (requests rateLimitEntry) in
    (* Check if limit exceeded *)
    if (rateLimitMax (config sm) <=? Z.of_nat (length recent))%Z then
      (logSecurityEvent "rate_limit_exceeded"
         (set_entry key {| requests := recent; blocked := true;
                           blockUntil := (now + lockoutDuration (config sm))%Z |} sm),
       {| allowed := false; retryAfter := Some (ceil_seconds (lockoutDuration (config sm)));
          remaining := 0; resetTime := None |})
    else
      (* Add current request *)
      (set_entry key {| requests := recent ++ [now]; blocked := false;
                        blockUntil := blockUntil rateLimitEntry |} sm,
       {| allowed := true;
          remaining := (rateLimitMax (config sm) - Z.of_nat (length (recent ++ [now])))%Z;
          retryAfter := None;
          resetTime := Some (windowStart + rateLimitWindow (config sm))%Z |}).

(** [hasPermission(userPermissions, requiredPermission)]; [None] is a
    value that is not an array. *)
Definition hasPermission (userPermissions : option (list string)) (requiredPermission : string)
  : bool :=
  match userPermissions with
  | None => false
  | Some ps =>
      JsStr.mem requiredPermission ps || JsStr.mem "admin" ps || JsStr.mem "*" ps
  end.

End SecurityManager.

(** ** Compositions of the functions above that the statements refer to *)

Module Usage.
Import Encryption FileProcessor.

(** The stages of [processFile] undone on the processed file of a result:
    [decryptFile] under the recorded key when the result is encrypted,
    then [decompressFile] when it is compressed.  [plainPath] receives
    the decrypted bytes, [outputPath] the restored file. *)
Definition restoreFile `{Cipher} `{Gzip} (result : FullResult) (plainPath outputPath : string)
  : M World string :=
  let p := processing result in
  decryptedPath ←
    (if encrypted p then
       match proc_encryptionKey p with
       | Some key =>
           _ ← decryptFile (processedPath result) plainPath (KeyBuffer key)
                 (proc_encryptionIv p);
           mret plainPath
       | None => throw "no key recorded"
       end
     else mret (processedPath result));
  if compressed p then
    _ ← decompressFile decryptedPath outputPath; mret outputPath
  else mret decryptedPath.


(** The rate-limit middleware of the [/api] routes on the successive
    requests of one client, made at the given times: the times of the
    requests that were passed on to the routes. *)
Fixpoint passedRequests (clientId : string) (times : list Z) (sm : SecurityManager.t)
  : SecurityManager.t * list Z :=
  match times with
  | [] => (sm, [])
  | now :: rest =>
      let (sm1, rateLimit) := SecurityManager.checkRateLimit clientId "api" now sm in
      let (sm2, passed) := passedRequests clientId rest sm1 in
      (sm2, if SecurityManager.allowed rateLimit then now :: passed else passed)
  end.

End Usage.

(** ** SHA-256, for running the model on concrete inputs *)

Module Sha256.
Local Open Scope Z_scope.

Definition w32 (x : Z) : Z := x mod 4294967296.
Definition add32 (a b : Z) : Z := w32 (a + b).
Definition rotr (n x : Z) : Z := Z.lor (Z.shiftr x n) (w32 (Z.shiftl x (32 - n))).
Definition not32 (x : Z) : Z := 4294967295 - x.

Definition Ch (x y z : Z) : Z := Z.lxor (Z.land x y) (Z.land (not32 x) z).
Definition Maj (x y z : Z) : Z := Z.lxor (Z.lxor (Z.land x y) (Z.land x z)) (Z.land y z).
Definition Sigma0 (x : Z) : Z := Z.lxor (Z.lxor (rotr 2 x) (rotr 13 x)) (rotr 22 x).
Definition Sigma1 (x : Z) : Z := Z.lxor (Z.lxor (rotr 6 x) (rotr 11 x)) (rotr 25 x).
Definition sigma0 (x : Z) : Z := Z.lxor (Z.lxor (rotr 7 x) (rotr 18 x)) (Z.shiftr x 3).
Definition sigma1 (x : Z) : Z := Z.lxor (Z.lxor (rotr 17 x) (rotr 19 x)) (Z.shiftr x 10).

(** The constants of the standard: the first 32 bits of the fractional
    parts of the cube roots ([K]) and of the square roots ([H0]) of the
    first primes. *)
Definition is_prime (n : Z) : bool :=
  forallb (fun d => negb (n mod Z.of_nat d =? 0)) (seq 2 (Z.to_nat n - 2)).

Definition primes : list Z :=
  Eval vm_compute in take 64 (List.filter is_prime (map Z.of_nat (seq 2 310))).

(** The largest [r] below [2 ^ bits] with [r ^ 3 <= n], added to [r0]. *)
Fixpoint cube_root (bits : nat) (r0 n : Z) : Z :=
  match bits with
  | O => r0
  | S b =>
      let r1 := r0 + 2 ^ Z.of_nat b in
      if r1 * r1 * r1 <=? n then cube_root b r1 n else cube_root b r0 n
  end.

Definition K : list Z :=
  Eval vm_compute in map (fun p => w32 (cube_root 40 0 (p * 2 ^ 96))) primes.

Definition H0 : list Z :=
  Eval vm_compute in map (fun p => w32 (Z.sqrt (p * 2 ^ 64))) (take 8 primes).

Definition byteZ (b : byte) : Z := Z.of_N (Byte.to_N b).

(* message padding: 0x80, zeros up to 56 mod 64, the bit length on 64 bits *)
Definition be_bytes (n : nat) (x : Z) : list Z :=
  map (fun i => (Z.shiftr x (8 * Z.of_nat (n - 1 - i))) mod 256) (seq 0 n).

Definition pad (msg : list Z) : list Z :=
  let l := Z.of_nat (length msg) in
  let zeros := Z.to_nat ((55 - l) mod 64) in
  msg ++ [128] ++ replicate zeros 0 ++ be_bytes 8 (8 * l).

Fixpoint words (n : nat) (bs : list Z) : list Z :=
  match n with
  | O => []
  | S n' =>
      match bs with
      | a :: b :: c :: d :: rest => (((a * 256 + b) * 256 + c) * 256 + d) :: words n' rest
      | _ => []
      end
  end.

(* message schedule: ws holds W[t-1], W[t-2], ... (most recent first) *)
Fixpoint schedule (n : nat) (ws : list Z) : list Z :=
  match n with
  | O => ws
  | S n' =>
      let w := add32 (add32 (sigma1 (nth 1 ws 0)) (nth 6 ws 0))
                     (add32 (sigma0 (nth 14 ws 0)) (nth 15 ws 0)) in
      schedule n' (w :: ws)
  end.

Definition round (st : list Z) (kw : Z * Z) : list Z :=
  match st with
  | [a; b; c; d; e; f; g; h] =>
      let t1 := add32 (add32 (add32 h (Sigma1 e)) (add32 (Ch e f g) (fst kw))) (snd kw) in
      let t2 := add32 (Sigma0 a) (Maj a b c) in
      [add32 t1 t2; a; b; c; add32 d t1; e; f; g]
  | _ => st
  end.

Definition compress (h : list Z) (block : list Z) : list Z :=
  let w := rev (schedule 48 (rev (words 16 block))) in
  let st := foldl round h (zip K w) in
  map (fun p => add32 (fst p) (snd p)) (zip h st).

Fixpoint blocks (n : nat) (bs : list Z) (h : list Z) : list Z :=
  match n with
  | O => h
  | S n' => blocks n' (drop 64 bs) (compress h (take 64 bs))
  end.

Definition hexdigit (x : Z) : ascii :=
  ascii_of_nat (Z.to_nat (if x <? 10 then 48 + x else 87 + x)).

Definition hex_of_bytes (bs : list Z) : string :=
  fold_right (fun b s => String (hexdigit (b / 16)) (String (hexdigit (b mod 16)) s)) EmptyString bs.

Definition hash (msg : list byte) : string :=
  let p := pad (map byteZ msg) in
  let h := blocks (length p / 64) p H0 in
  hex_of_bytes (mjoin (map (be_bytes 4) h)).

End Sha256.

(** ** Concrete instances and inputs used in the examples *)

Module Examples.
Import Provider.

#[export] Instance nodeDigest : Digest := {| sha256 := Sha256.hash |}.

#[export] Instance byte_eq_dec : EqDecision byte := Byte.byte_eq_dec.

(** A stand-in for the cipher: every byte is shifted by the matching byte
    of the key stream [key ++ iv]; the tag is a 16-byte digest prefix. *)
Definition shift (up : bool) (b k : byte) : byte :=
  let x := Z.of_N (Byte.to_N b) in
  let y := Z.of_N (Byte.to_N k) in
  default x00%byte (Byte.of_N (Z.to_N ((if up then x + y else x - y) mod 256))).

Fixpoint stream (up : bool) (ks cur : bytes) (d : bytes) : bytes :=
  match d with
  | [] => []
  | b :: d' =>
      match cur with
      | k :: cur' => shift up b k :: stream up ks cur' d'
      | [] =>
          match ks with
          | k :: ks' => shift up b k :: stream up ks ks' d'
          | [] => b :: stream up ks [] d'
          end
      end
  end.

Definition toyTag (k iv d : bytes) : bytes :=
  fit Encryption.TAG_LENGTH (take 16 d ++ k ++ iv).

#[export] Instance toyCipher : Encryption.Cipher :=
  {| Encryption.cipher_update := fun k iv d => stream true (k ++ iv) [] d;
     Encryption.cipher_authTag := toyTag;
     Encryption.decipher_update := fun k iv c => stream false (k ++ iv) [] c;
     Encryption.decipher_final := fun k iv tag c =>
       bool_decide (tag = toyTag k iv (stream false (k ++ iv) [] c));
     Encryption.scryptSync := fun pw salt n =>
       fit n (map (fun c => default x00%byte (Byte.of_N (N_of_ascii c))) (list_ascii_of_string (pw +:+ salt))) |}.

(** A stand-in for [pako]: runs of equal bytes become a count and the byte. *)
Fixpoint rle (d : bytes) (run : option (nat * byte)) : list (nat * byte) :=
  match d with
  | [] => match run with Some r => [r] | None => [] end
  | b :: d' =>
      match run with
      | Some (n, c) =>
          if bool_decide (b = c) && Nat.ltb n 255 then rle d' (Some (S n, c))
          else (n, c) :: rle d' (Some (1, b))
      | None => rle d' (Some (1, b))
      end
  end.

#[export] Instance toyGzip : FileProcessor.Gzip :=
  {| FileProcessor.gzip := fun level d =>
       inr (mjoin (map (fun r => [default x00%byte (Byte.of_N (N.of_nat (fst r))); snd r])
                       (rle d None)));
     FileProcessor.ungzip := fun c => inl "not used" |}.

Definition okPut (k : string) (b : bytes) : string + S3Put :=
  inr {| Location := "https://gateway/" +:+ k; ETag := "etag-" +:+ sha256 b |}.
Definition failPut (k : string) (b : bytes) : string + S3Put := inl "Service Unavailable".

(** An endpoint that accepts every put and holds no object. *)
Definition acceptingS3 : S3 :=
  {| s3_upload := okPut; s3_multipart := okPut;
     s3_headObject := fun _ => inl "NotFound"; s3_getObject := fun _ => inl "NoSuchKey" |}.

(** An endpoint that refuses every request. *)
Definition failingS3 : S3 :=
  {| s3_upload := failPut; s3_multipart := failPut;
     s3_headObject := fun _ => inl "Service Unavailable";
     s3_getObject := fun _ => inl "Service Unavailable" |}.

Definition storjOk : Provider.t := {| kind := Storj; s3 := acceptingS3; isConnected := true |}.
Definition arweaveOk : Provider.t := {| kind := Arweave; s3 := acceptingS3; isConnected := true |}.
Definition storjDown : Provider.t := {| kind := Storj; s3 := failingS3; isConnected := true |}.
Definition arweaveDown : Provider.t := {| kind := Arweave; s3 := failingS3; isConnected := true |}.

Definition healthy : ProviderManager.Health := {| ProviderManager.status := "healthy" |}.

(** Both providers configured and healthy. *)
Definition pmHealthy : ProviderManager.t :=
  {| ProviderManager.providers := [("storj", storjOk); ("arweave", arweaveOk)];
     ProviderManager.healthStatus := [("storj", healthy); ("arweave", healthy)];
     ProviderManager.failoverEnabled := true |}.

Definition hello : bytes := [x68; x65; x6c; x6c; x6f]%byte.

Definition noFlags : UploadOptions :=
  {| originalName := None; permanent := None; critical := None; userId := None;
     createBackup := None; prefix := None; strategy := None; isBackup := None |}.


(** A process environment with the given files. *)
Definition worldWith (files : gmap string bytes) : World :=
  mkWorld files [] (fun n => "id" +:+ pretty n) 0 0
          (fun n => replicate 8 (default x00%byte (Byte.of_N (N.of_nat (7 + 13 * n)))) ++ hello) 0.

Definition processor0 : FileProcessor.t :=
  {| FileProcessor.config :=
       FileProcessor.new_config
         {| FileProcessor.raw_maxFileSize := None; FileProcessor.raw_chunkSize := None;
            FileProcessor.raw_compressionThreshold := None;
            FileProcessor.raw_allowedTypes := None;
            FileProcessor.raw_tempDir := Some "./temp";
            FileProcessor.raw_enableCompression := Some true;
            FileProcessor.raw_enableEncryption := Some true;
            FileProcessor.raw_enableDeduplication := Some true |};
     FileProcessor.processingQueue := ∅;
     FileProcessor.deduplicationCache := ∅ |}.

Definition metadata0 : MetadataManager.t :=
  {| MetadataManager.config :=
       {| MetadataManager.enableBlockchainSync := true;
          MetadataManager.enableVersioning := true;
          MetadataManager.maxVersions := 10 |};
     MetadataManager.heap :=
       {| MetadataManager.procs := ∅; MetadataManager.chains := ∅;
          MetadataManager.nextLoc := 0 |};
     MetadataManager.metadataCache := ∅;
     MetadataManager.versionHistoryMap := ∅;
     MetadataManager.disk := ∅;
     MetadataManager.blockchainQueue := [] |}.

(** Two uploaded files of equal content. *)
Definition twoFiles : World := worldWith {[ "temp/u1" := hello; "temp/u2" := hello ]}.

(** The server after start-up, with two uploaded files of equal content
    waiting in the upload directory. *)
Definition server0 : Server.t :=
  {| Server.fileProcessor := processor0;
     Server.providerManager := pmHealthy;
     Server.metadataManager := metadata0;
     Server.world := twoFiles |}.

Definition formBody : Server.Body :=
  {| Server.body_userId := Some "alice"; Server.body_permanent := None;
     Server.body_critical := None; Server.body_encryptionKey := None |}.

Definition upload1 : Server.UploadedFile :=
  {| Server.uf_originalname := "a.txt"; Server.uf_path := "temp/u1";
     Server.uf_size := 5; Server.uf_mimetype := "text/plain" |}.




Definition helloWorld : World := worldWith {[ "temp/u1" := hello ]}.


(** Both endpoints refuse every request. *)
Definition pmBothDown : ProviderManager.t :=
  {| ProviderManager.providers := [("storj", storjDown); ("arweave", arweaveDown)];
     ProviderManager.healthStatus := [("storj", healthy); ("arweave", healthy)];
     ProviderManager.failoverEnabled := true |}.

Definition jello : bytes := [x6a; x65; x6c; x6c; x6f]%byte.

(** A Storj bucket whose object [uploads/f1] was recorded with the hash of
    ["hello"] and now holds other bytes. *)
Definition corruptS3 : S3 :=
  {| s3_upload := okPut; s3_multipart := okPut;
     s3_headObject := fun k =>
       if String.eqb k "uploads/f1" then inr {| head_fileHash := Some (sha256 hello) |}
       else inl "NotFound";
     s3_getObject := fun k =>
       if String.eqb k "uploads/f1" then inr jello else inl "NoSuchKey" |}.

(** An Arweave bucket that holds the object [permanent/f1] unharmed. *)
Definition intactS3 : S3 :=
  {| s3_upload := okPut; s3_multipart := okPut;
     s3_headObject := fun k =>
       if String.eqb k "permanent/f1" then inr {| head_fileHash := Some (sha256 hello) |}
       else inl "NotFound";
     s3_getObject := fun k =>
       if String.eqb k "permanent/f1" then inr hello else inl "NoSuchKey" |}.

Definition pmCorruptPrimary : ProviderManager.t :=
  {| ProviderManager.providers :=
       [("storj", {| kind := Storj; s3 := corruptS3; isConnected := true |});
        ("arweave", {| kind := Arweave; s3 := intactS3; isConnected := true |})];
     ProviderManager.healthStatus := [("storj", healthy); ("arweave", healthy)];
     ProviderManager.failoverEnabled := true |}.

Definition strict : DownloadOptions := {| dl_originalName := None; strictIntegrity := true |}.
Definition lenient : DownloadOptions := {| dl_originalName := None; strictIntegrity := false |}.

(** A processor with small thresholds: files above 4 bytes are compressed
    when that pays, results above 2 bytes are chunked; no encryption. *)
Definition processorSmall : FileProcessor.t :=
  {| FileProcessor.config :=
       FileProcessor.new_config
         {| FileProcessor.raw_maxFileSize := None; FileProcessor.raw_chunkSize := Some 2%Z;
            FileProcessor.raw_compressionThreshold := Some 4%Z;
            FileProcessor.raw_allowedTypes := None;
            FileProcessor.raw_tempDir := None;
            FileProcessor.raw_enableCompression := None;
            FileProcessor.raw_enableEncryption := Some false;
            FileProcessor.raw_enableDeduplication := None |};
     FileProcessor.processingQueue := ∅;
     FileProcessor.deduplicationCache := ∅ |}.

Definition plainOptions : FileProcessor.Options :=
  {| FileProcessor.originalName := None; FileProcessor.encryptionKey := None;
     FileProcessor.encrypt_opt := None; FileProcessor.allowDeduplication := None;
     FileProcessor.opt_chunkSize := None; FileProcessor.compressionLevel := None |}.

(** Ten equal bytes, which the stand-in compressor shrinks to two. *)
Definition tenAs : bytes := replicate 10 x61%byte.

Definition repetitiveWorld : World := worldWith {[ "temp/u3" := tenAs ]}.

(** The first of the two files processed by [processor0]: the state it
    leaves and its result. *)
Definition afterFirst : FileProcessor.St :=
  Eval vm_compute in
    (FileProcessor.processFile "temp/u1" plainOptions (processor0, twoFiles)).1.

Definition firstResult : option FileProcessor.FullResult :=
  Eval vm_compute in
    match (FileProcessor.processFile "temp/u1" plainOptions (processor0, twoFiles)).2 with
    | inr (FileProcessor.Processed r) => Some r
    | _ => None
    end.

(** A metadata manager that does not queue records for ledger sync. *)
Definition metadataQuiet : MetadataManager.t :=
  {| MetadataManager.config :=
       {| MetadataManager.enableBlockchainSync := false;
          MetadataManager.enableVersioning := true;
          MetadataManager.maxVersions := 10 |};
     MetadataManager.heap := MetadataManager.heap metadata0;
     MetadataManager.metadataCache := ∅;
     MetadataManager.versionHistoryMap := ∅;
     MetadataManager.disk := ∅;
     MetadataManager.blockchainQueue := [] |}.

(** The metadata store after the upload of one encrypted file (fileId
    ["id2"]), without and with ledger sync. *)
Definition storeQuiet : MetadataManager.t :=
  Eval vm_compute in
    Server.metadataManager
      (Server.handleFile None formBody upload1
         {| Server.fileProcessor := processor0; Server.providerManager := pmHealthy;
            Server.metadataManager := metadataQuiet; Server.world := twoFiles |}).1.

Definition storeSynced : MetadataManager.t :=
  Eval vm_compute in
    Server.metadataManager (Server.handleFile None formBody upload1 server0).1.

Definition withSecrets : MetadataManager.Options :=
  {| MetadataManager.includeSecrets := true; MetadataManager.opt_accessLevel := None;
     MetadataManager.includeVersions := false |}.

(** The key and IV a record reads as. *)
Definition secretsOf (d : option MetadataManager.Stored)
  : option (MetadataManager.Secret * MetadataManager.Secret) :=
  p ← d ≫= MetadataManager.processing;
  Some (MetadataManager.encryptionKey p, MetadataManager.encryptionIv p).

(** A stand-in for HMAC-SHA256. *)
#[export] Instance toyMac : Encryption.Mac :=
  {| Encryption.hmac := fun secret data => fit 32 (secret ++ data) |}.

(** A stand-in for PBKDF2. *)
#[export] Instance toyKdf : Encryption.Kdf :=
  {| Encryption.pbkdf2Sync := fun password salt iterations keylen =>
       fit keylen (salt ++ map (fun c => default x00%byte (Byte.of_N (N_of_ascii c)))
                               (list_ascii_of_string password)) |}.

(** A second stand-in for [pako], with its inverse: up to 255 copies of
    one byte are packed into three bytes, anything else is stored behind
    a zero byte. *)
Definition packRun (d : bytes) : option bytes :=
  match d with
  | b :: _ =>
      if bool_decide (d = replicate (length d) b) then
        n ← Byte.of_N (N.of_nat (length d)); Some [x01%byte; n; b]
      else None
  | [] => None
  end.

Definition unpackRun (c : bytes) : string + bytes :=
  match c with
  | t :: rest =>
      if Byte.eqb t x00 then inr rest
      else match rest with
           | [n; b] => inr (replicate (N.to_nat (Byte.to_N n)) b)
           | _ => inl "incorrect header check"
           end
  | [] => inl "unexpected end of file"
  end.

Definition packGzip : FileProcessor.Gzip :=
  {| FileProcessor.gzip := fun level d => inr (default (x00%byte :: d) (packRun d));
     FileProcessor.ungzip := unpackRun |}.

(** A processor that compresses files above 4 bytes and encrypts. *)
Definition processorFull : FileProcessor.t :=
  {| FileProcessor.config :=
       FileProcessor.new_config
         {| FileProcessor.raw_maxFileSize := None; FileProcessor.raw_chunkSize := None;
            FileProcessor.raw_compressionThreshold := Some 4%Z;
            FileProcessor.raw_allowedTypes := None;
            FileProcessor.raw_tempDir := Some "./temp";
            FileProcessor.raw_enableCompression := Some true;
            FileProcessor.raw_enableEncryption := Some true;
            FileProcessor.raw_enableDeduplication := Some true |};
     FileProcessor.processingQueue := ∅;
     FileProcessor.deduplicationCache := ∅ |}.

(** A round of health checks in which only the Storj bucket answers. *)
Definition storjAnswers : ProviderManager.HeadBucket := fun p =>
  match kind p with
  | Storj => inr tt
  | Arweave => inl "Service Unavailable"
  end.

(** A rate limiter that lets two requests through per second and locks
    a client out for five seconds; no client has been seen yet. *)
Definition limiter0 : SecurityManager.t :=
  {| SecurityManager.config :=
       {| SecurityManager.lockoutDuration := 5000; SecurityManager.rateLimitWindow := 1000;
          SecurityManager.rateLimitMax := 2 |};
     SecurityManager.rateLimitTracker := ∅;
     SecurityManager.securityEvents := [] |}.

End Examples.

(** * Properties *)

(** ** The monad *)

Lemma run_bind {S A B} (m : M S A) (k : A -> M S B) (s : S) :
  (m ≫= k) s = match m s with
               | (s', inl e) => (s', inl e)
               | (s', inr a) => k a s'
               end.
Proof. reflexivity. Qed.

Lemma run_try_catch {S A} (m : M S A) (h : string -> M S A) (s : S) :
  try_catch m h s = match m s with
                    | (s', inl e) => h e s'
                    | (s', inr a) => (s', inr a)
                    end.
Proof. unfold try_catch. destruct (m s) as [s' [e|a]]; reflexivity. Qed.

Lemma run_ret {S A} (a : A) (s : S) : (mret a : M S A) s = (s, inr a).
Proof. reflexivity. Qed.

(** ** Placement strategies (C1) *)

Section Placement.
Import Provider ProviderManager.

(** The table after the constructor has run: the five entries, in the
    order in which the [Map] is iterated. *)
Lemma defineUploadStrategies_entries :
  defineUploadStrategies =
  [ ("small",
     {| st_primary := "storj"; st_backup := Some "arweave";
        st_condition := fun fileSize options => (fileSize <? 10 * 1024 * 1024)%Z |});
    ("medium",
     {| st_primary := "storj"; st_backup := None;
        st_condition := fun fileSize options =>
          (10 * 1024 * 1024 <=? fileSize)%Z && (fileSize <? 100 * 1024 * 1024)%Z |});
    ("large",
     {| st_primary := "storj"; st_backup := None;
        st_condition := fun fileSize options => (100 * 1024 * 1024 <=? fileSize)%Z |});
    ("permanent",
     {| st_primary := "arweave"; st_backup := Some "storj";
        st_condition := fun fileSize options => is_true (permanent options) |});
    ("critical",
     {| st_primary := "storj"; st_backup := Some "arweave";
        st_condition := fun fileSize options =>
          is_true (critical options) && (fileSize <? 200 * 1024 * 1024)%Z |}) ].
Proof. reflexivity. Qed.

(** The three size rules cover every size, so a later rule is never reached. *)
Lemma first_match_size_rule pm fileSize options :
  first_match pm defineUploadStrategies fileSize options =
  Some (if (fileSize <? 10 * 1024 * 1024)%Z then
          resolve pm "small" {| st_primary := "storj"; st_backup := Some "arweave";
                                st_condition := fun _ _ => true |}
        else if (fileSize <? 100 * 1024 * 1024)%Z then
          resolve pm "medium" {| st_primary := "storj"; st_backup := None;
                                 st_condition := fun _ _ => true |}
        else
          resolve pm "large" {| st_primary := "storj"; st_backup := None;
                                st_condition := fun _ _ => true |}).
Proof.
  rewrite defineUploadStrategies_entries. unfold first_match, st_condition.
  destruct (fileSize <? 10 * 1024 * 1024)%Z eqn:E1; [reflexivity|].
  destruct (10 * 1024 * 1024 <=? fileSize)%Z eqn:E2; [|lia].
  destruct (fileSize <? 100 * 1024 * 1024)%Z eqn:E3; simpl; [reflexivity|].
  destruct (100 * 1024 * 1024 <=? fileSize)%Z eqn:E4; [reflexivity|lia].
Qed.

(** [selectStrategy] does not look at the flags. *)
Lemma selectStrategy_ignores_flags pm fileSize options options' :
  selectStrategy pm fileSize options = selectStrategy pm fileSize options'.
Proof.
  unfold selectStrategy, selectStrategyIn. by rewrite !first_match_size_rule.
Qed.



End Placement.


(** ** Health and fail-over (C3, C4) *)


Section Failover.
Context `{Digest}.
Import Provider ProviderManager.

Ltac run_monad :=
  unfold calculateFileHash in *;
  unfold mbind, M_bind, mret, M_ret, throw, try_catch, emit, modify_state,
         newObject, generateUniqueId, readFileSync, statSize in *.


(** A successful provider upload has handed the bytes to its backend. *)
Lemma upload_result_put p filePath options w w' r :
  Provider.upload p filePath options w = (w', inr r) ->
  exists k d, fs w !! filePath = Some d /\ trace w' = trace w ++ [EvPut (name p) k d].
Proof.
  unfold Provider.upload, storj_upload, arweave_upload. run_monad.
  intros Hrun. repeat case_match; simplify_eq/=; eauto.
Qed.



End Failover.


(** ** Encryption round trip (C6) *)

Lemma fit_length n (d : bytes) : length (fit n d) = n.
Proof.
  unfold fit. rewrite length_take, length_app, length_replicate. lia.
Qed.

Section EncryptionRoundTrip.
Context `{Encryption.Cipher}.
Import Encryption.

(** The combined format is parsed back into its three parts. *)
Lemma combined_format_split (iv tag ct : bytes) :
  length iv = IV_LENGTH -> length tag = TAG_LENGTH ->
  let data := iv ++ tag ++ ct in
  Nat.ltb (length data) (IV_LENGTH + TAG_LENGTH) = false /\
  take IV_LENGTH data = iv /\
  take TAG_LENGTH (drop IV_LENGTH data) = tag /\
  drop (IV_LENGTH + TAG_LENGTH) data = ct.
Proof.
  intros Hiv Htag data. subst data. repeat split.
  - apply Nat.ltb_ge. rewrite !length_app. lia.
  - rewrite <- Hiv. apply take_app_length.
  - rewrite <- Hiv, drop_app_length, <- Htag. apply take_app_length.
  - rewrite <- drop_drop, <- Hiv, drop_app_length, <- Htag. apply drop_app_length.
Qed.

Lemma finalKeyOf_buffer {S} (k : bytes) (s : S) :
  length k = KEY_LENGTH -> finalKeyOf (KeyBuffer k) s = (s, inr k).
Proof. intros Hk. unfold finalKeyOf. rewrite Hk. reflexivity. Qed.

(** C6.  For every byte sequence [F] and every key [encrypt] accepts,
    with the IV left to [encrypt] or supplied with [IV_LENGTH] bytes,
    [encrypt] succeeds and returns the combined buffer IV + tag +
    ciphertext; [decrypt] of that buffer under the returned key, read in
    the combined format, returns exactly [F]. *)
Theorem C6_decrypt_encrypt_roundtrip (laws : CipherLaws) (F : bytes)
    (key : option KeyArg) (iv : option bytes) (w : World) :
  key_accepted key ->
  (forall v, iv = Some v -> length v = IV_LENGTH) ->
  exists w' r,
    encrypt F key iv w = (w', inr r) /\
    encrypted r = res_iv r ++ res_tag r ++ cipher_update (res_key r) (res_iv r) F /\
    forall (S : Type) (s : S) (ivArg : option bytes),
      decrypt (encrypted r) (KeyBuffer (res_key r)) ivArg None s = (s, inr F).
Proof.
  intros Hkey Hiv.
  unfold encrypt. rewrite run_try_catch, run_bind.
  set (getKey := if key_truthy key then _ else _).
  assert (HgetKey : exists w0 ek, getKey w = (w0, inr ek) /\
                      exists k, forall S (s : S), finalKeyOf ek s = (s, inr k) /\
                                                  length k = KEY_LENGTH).
  { subst getKey. destruct key as [[s|b]|]; simpl in *.
    - destruct (String.eqb s "") eqn:E; simpl.
      + eexists _, _. split; [reflexivity|]. eexists. intros S s0.
        rewrite finalKeyOf_buffer by apply fit_length. split; [reflexivity|apply fit_length].
      + eexists _, _. split; [reflexivity|]. eexists. intros S s0.
        split; [reflexivity|apply (scrypt_length laws)].
    - eexists _, _. split; [reflexivity|]. eexists. intros S s0.
      rewrite finalKeyOf_buffer by exact Hkey. split; [reflexivity|exact Hkey].
    - eexists _, _. split; [reflexivity|]. eexists. intros S s0.
      rewrite finalKeyOf_buffer by apply fit_length. split; [reflexivity|apply fit_length]. }
  destruct HgetKey as (w0 & ek & -> & k & Hk).
  rewrite run_bind.
  assert (HgetIv : exists w1 v,
            (match iv with Some v => mret v | None => generateIV end) w0 = (w1, inr v)
            /\ length v = IV_LENGTH).
  { destruct iv as [v|].
    - eexists _, _. split; [reflexivity|]. by apply Hiv.
    - eexists _, _. split; [reflexivity|]. apply fit_length. }
  destruct HgetIv as (w1 & v & -> & Hv).
  rewrite run_bind. destruct (Hk World w1) as [-> Hklen]. rewrite run_ret.
  eexists _, _. split; [reflexivity|]. cbn [encrypted res_iv res_tag res_key].
  split; [reflexivity|].
  intros S s ivArg.
  destruct (combined_format_split v (cipher_authTag k v F) (cipher_update k v F) Hv
              (authTag_length laws k v F)) as (Hshort & Htake1 & Htake2 & Hdrop).
  unfold decrypt. rewrite run_try_catch, run_bind.
  assert (Hparse :
    (match ivArg, (None : option bytes) with
     | Some iv0, Some tag => mret (iv0, tag, v ++ cipher_authTag k v F ++ cipher_update k v F)
     | _, _ =>
         if Nat.ltb (length (v ++ cipher_authTag k v F ++ cipher_update k v F))
                    (IV_LENGTH + TAG_LENGTH)
         then throw "Encrypted data too short"
         else mret (take IV_LENGTH (v ++ cipher_authTag k v F ++ cipher_update k v F),
                    take TAG_LENGTH
                      (drop IV_LENGTH (v ++ cipher_authTag k v F ++ cipher_update k v F)),
                    drop (IV_LENGTH + TAG_LENGTH)
                      (v ++ cipher_authTag k v F ++ cipher_update k v F))
     end : M S _) s = (s, inr (v, cipher_authTag k v F, cipher_update k v F))).
  { rewrite Hshort, Htake1, Htake2, Hdrop. by destruct ivArg. }
  rewrite Hparse. cbn beta iota.
  rewrite run_bind, finalKeyOf_buffer by exact Hklen.
  rewrite (final_accepts laws), (decipher_cipher laws). reflexivity.
Qed.

End EncryptionRoundTrip.

(** The stand-in cipher of the examples satisfies the laws. *)
Lemma shift_back (b k : byte) : Examples.shift false (Examples.shift true b k) k = b.
Proof.
  unfold Examples.shift.
  pose proof (Byte.to_N_bounded b) as Hb. pose proof (Byte.to_N_bounded k) as Hk.
  set (x := Z.of_N (Byte.to_N b)) in *. set (y := Z.of_N (Byte.to_N k)) in *.
  assert (Hx : (0 <= x <= 255)%Z) by (unfold x; lia).
  assert (Hy : (0 <= y <= 255)%Z) by (unfold y; lia).
  destruct (Byte.of_N (Z.to_N ((x + y) mod 256))) as [c|] eqn:Hc.
  - apply Byte.to_of_N in Hc. simpl. rewrite Hc.
    rewrite Z2N.id by (apply Z.mod_pos_bound; lia).
    replace (((x + y) mod 256 - y) mod 256)%Z with x.
    + unfold x. rewrite N2Z.id, Byte.of_to_N. reflexivity.
    + destruct (Z_lt_le_dec (x + y) 256).
      * rewrite (Z.mod_small (x + y)) by lia. rewrite Z.mod_small; lia.
      * replace ((x + y) mod 256)%Z with (x + y - 256)%Z.
        -- replace (x + y - 256 - y)%Z with (x + -1 * 256)%Z by lia.
           rewrite Z.mod_add by lia. rewrite Z.mod_small; lia.
        -- replace (x + y)%Z with ((x + y - 256) + 1 * 256)%Z at 2 by lia.
           rewrite Z.mod_add by lia. rewrite Z.mod_small; lia.
  - apply Byte.of_N_None_iff in Hc.
    pose proof (Z.mod_pos_bound (x + y) 256). lia.
Qed.

Lemma stream_back (ks cur d : bytes) :
  Examples.stream false ks cur (Examples.stream true ks cur d) = d.
Proof.
  revert cur. induction d as [|b d IH]; intros cur; [reflexivity|].
  simpl. destruct cur as [|k cur]; [destruct ks as [|k ks']|]; simpl;
    rewrite ?shift_back, IH; reflexivity.
Qed.

Lemma toyCipher_laws : Encryption.CipherLaws (H := Examples.toyCipher).
Proof.
  split; simpl.
  - intros k iv d. apply stream_back.
  - intros k iv d. rewrite stream_back. by apply bool_decide_eq_true.
  - intros k iv d. apply fit_length.
  - intros pw salt n. apply fit_length.
Qed.

(** C6 at a concrete input: ["hello"] under the pass phrase ["secret"]. *)
Lemma C6_roundtrip_witness :
  exists w' r,
    Encryption.encrypt (H := Examples.toyCipher) Examples.hello
      (Some (Encryption.KeyString "secret")) None Examples.helloWorld = (w', inr r) /\
    Encryption.decrypt (H := Examples.toyCipher) (Encryption.encrypted r)
      (Encryption.KeyBuffer (Encryption.res_key r)) None None tt = (tt, inr Examples.hello).
Proof.
  destruct (C6_decrypt_encrypt_roundtrip (H := Examples.toyCipher) toyCipher_laws
              Examples.hello (Some (Encryption.KeyString "secret")) None Examples.helloWorld
              I (fun v (E : None = Some v) => match E with end))
    as (w' & r & Henc & _ & Hdec).
  exists w', r. split; [exact Henc | exact (Hdec unit tt None)].
Defined.

(** ** Download with integrity check (C5) *)

Section Download.
Context `{Digest}.
Import Provider ProviderManager.

(** With [strictIntegrity], a provider download succeeds exactly on an
    intact object, and then leaves its bytes at the download path. *)
Lemma download_strict p key downloadPath options w :
  strictIntegrity options = true ->
  match intact p key with
  | Some d =>
      exists w' r,
        Provider.download p key downloadPath options w = (w', inr r) /\
        fs w' !! downloadPath = Some d /\
        dl_path r = downloadPath /\ integrity r = true /\ dl_hash r = sha256 d
  | None => exists w' e, Provider.download p key downloadPath options w = (w', inl e)
  end.
Proof.
  intros Hstrict. unfold intact.
  assert (Hrun : Provider.download p key downloadPath options w =
    if isConnected p then
      match s3_headObject (s3 p) key with
      | inl e => (w, inl (name p +:+ " download failed: " +:+ e))
      | inr h =>
          let w1 := log_event (EvGet (name p) key) w in
          match s3_getObject (s3 p) key with
          | inl e => (w1, inl (name p +:+ " download failed: " +:+ e))
          | inr d =>
              if hash_matches (sha256 d) (head_fileHash h) then
                (set_fs (insert downloadPath d) w1,
                 inr {| dl_provider := name p; dl_path := downloadPath;
                        dl_size := Z.of_nat (length d); dl_hash := sha256 d;
                        integrity := true;
                        dl_permanent := match kind p with
                                        | Storj => None
                                        | Arweave => Some true
                                        end |})
              else
                (set_fs (delete downloadPath) (set_fs (insert downloadPath d) w1),
                 inl (name p +:+ " download failed: " +:+
                      match kind p with
                      | Storj => "File integrity verification failed"
                      | Arweave => "File integrity verification failed for permanent storage"
                      end))
          end
      end
    else (w, inl (name p +:+ " provider not connected"))).
  { unfold Provider.download, calculateFileHash, writeFileSync, unlinkSync, readFileSync,
      emit, modify_state, try_catch, throw, mbind, M_bind, mret, M_ret.
    destruct (isConnected p); [|reflexivity]. cbn [negb].
    destruct (s3_headObject (s3 p) key) as [e|h]; [reflexivity|].
    destruct (s3_getObject (s3 p) key) as [e|d]; [reflexivity|].
    cbn [fs set_fs log_event]. rewrite lookup_insert_eq, Hstrict, andb_true_r.
    destruct (hash_matches (sha256 d) (head_fileHash h)); cbn [negb]; [reflexivity|].
    cbn [fs set_fs log_event]. rewrite lookup_insert_eq. reflexivity. }
  rewrite Hrun. destruct (isConnected p); [|eauto].
  destruct (s3_headObject (s3 p) key) as [e|h]; [eauto|].
  destruct (s3_getObject (s3 p) key) as [e|d]; [eauto|].
  destruct (hash_matches (sha256 d) (head_fileHash h)); [|eauto].
  eexists _, _. split; [reflexivity|]. cbn. rewrite lookup_insert_eq. auto.
Qed.

(** The inner loop returns the bytes of an intact candidate or finds none. *)
Lemma try_keys_strict p keys downloadPath options w :
  strictIntegrity options = true ->
  (exists key d w' r,
     key ∈ keys /\ intact p key = Some d /\
     try_keys p keys downloadPath options w = (w', inr (Some r)) /\
     fs w' !! downloadPath = Some d /\
     dl_path r = downloadPath /\ integrity r = true /\ dl_hash r = sha256 d)
  \/ ((forall key, key ∈ keys -> intact p key = None) /\
      exists w', try_keys p keys downloadPath options w = (w', inr None)).
Proof.
  intros Hstrict. revert w. induction keys as [|key keys IH]; intros w.
  - right. split; [intros key Hin; inversion Hin|]. eexists. reflexivity.
  - simpl. rewrite run_try_catch, run_bind.
    pose proof (download_strict p key downloadPath options w Hstrict) as Hd.
    destruct (intact p key) as [d|] eqn:Hint.
    + destruct Hd as (w' & r & -> & Hfs & Hpath & Hi & Hh).
      left. exists key, d, w', r. rewrite run_ret.
      split; [apply elem_of_cons; by left|]. repeat split; assumption.
    + destruct Hd as (w' & e & ->).
      destruct (IH w') as [(key' & d & w'' & r & Hin & Hint' & Hrun & Hrest)|[Hnone (w'' & Hrun)]].
      * left. exists key', d, w'', r. split; [apply elem_of_cons; by right|]. auto.
      * right. split; [|eauto]. intros k Hin. apply elem_of_cons in Hin as [->|Hin]; auto.
Qed.

(** C5, under [strictIntegrity].  With [strictIntegrity] set, as the
    download route sets it: every candidate (a healthy provider with one
    of the possible keys) has its bytes re-hashed and compared with the recorded hash, and
    a mismatch fails the candidate.  [download] either returns a result
    for the bytes of an intact candidate, which are then the content of
    the download path and hash to the reported hash, or every candidate
    has failed and it throws the aggregated error. *)
Theorem C5_download_strict_integrity (pm : ProviderManager.t) (fileId downloadPath : string)
    (options : DownloadOptions) (w : World) :
  strictIntegrity options = true ->
  (exists providerName prov key d w' r,
     (providerName, prov) ∈ providers pm /\
     isProviderHealthy pm providerName = true /\
     key ∈ generatePossibleKeys fileId options /\
     intact prov key = Some d /\
     download pm fileId downloadPath options w = (w', inr r) /\
     fs w' !! downloadPath = Some d /\
     dl_path r = downloadPath /\ integrity r = true /\ dl_hash r = sha256 d)
  \/ ((forall providerName prov key,
         (providerName, prov) ∈ providers pm ->
         isProviderHealthy pm providerName = true ->
         key ∈ generatePossibleKeys fileId options ->
         intact prov key = None) /\
      exists w' causes,
        download pm fileId downloadPath options w =
          (w', inl ("Download failed from all providers: " +:+ causes))).
Proof.
  intros Hstrict. unfold download, JsMap.entries.
  generalize (@nil (string * string)) as attempts.
  revert w. induction (providers pm) as [|[providerName prov] provs IH]; intros w attempts.
  - right. split; [intros ? ? ? Hin; inversion Hin|]. simpl. eauto.
  - simpl. destruct (isProviderHealthy pm providerName) eqn:Hh; simpl.
    + rewrite run_bind, run_try_catch, run_bind.
      destruct (try_keys_strict prov (generatePossibleKeys fileId options) downloadPath
                  options w Hstrict)
        as [(key & d & w' & r & Hin & Hint & Hrun & Hrest)|[Hnone (w' & Hrun)]];
        rewrite Hrun, !run_ret.
      * left. exists providerName, prov, key, d, w', r.
        split; [apply elem_of_cons; by left|]. repeat split; assumption || apply Hrest.
      * destruct (IH w' attempts)
          as [(n' & p' & key & d & w'' & r & Hin & Hrest)|[Hall Hfail]].
        -- left. exists n', p', key, d, w'', r.
           split; [apply elem_of_cons; by right|]. exact Hrest.
        -- right. split; [|exact Hfail].
           intros n' p' key Hin Hh' Hk. apply elem_of_cons in Hin as [Heq|Hin].
           ++ simplify_eq. auto.
           ++ eauto.
    + destruct (IH w attempts)
        as [(n' & p' & key & d & w'' & r & Hin & Hrest)|[Hall Hfail]].
      * left. exists n', p', key, d, w'', r.
        split; [apply elem_of_cons; by right|]. exact Hrest.
      * right. split; [|exact Hfail].
        intros n' p' key Hin Hh' Hk. apply elem_of_cons in Hin as [Heq|Hin].
        -- simplify_eq. congruence.
        -- eauto.
Qed.

(** No cause is ever recorded: the inner [catch] swallows the error of
    every key, so the list of attempts stays empty. *)
Lemma download_error_has_no_causes pm fileId downloadPath options w w' e :
  download pm fileId downloadPath options w = (w', inl e) ->
  e = "Download failed from all providers: ".
Proof.
  unfold download, JsMap.entries.
  assert (Hkeys : forall prov keys w0, exists w1 r,
            try_keys prov keys downloadPath options w0 = (w1, inr r)).
  { intros prov keys. induction keys as [|k keys IHk]; intros w0; simpl; [eauto|].
    rewrite run_try_catch, run_bind.
    destruct (Provider.download prov k downloadPath options w0) as [w1 [e1|r1]]; eauto. }
  revert w. induction (providers pm) as [|[providerName prov] provs IH]; intros w; simpl.
  - intros [= <- <-]. reflexivity.
  - destruct (isProviderHealthy pm providerName); simpl; [|apply IH].
    rewrite run_bind, run_try_catch, run_bind.
    destruct (Hkeys prov (generatePossibleKeys fileId options) w) as (w1 & r & ->).
    rewrite !run_ret. destruct r as [r|]; [discriminate|apply IH].
Qed.

End Download.

(** C5 fails without [strictIntegrity]: the first candidate is
    returned although its bytes do not hash to the recorded hash, and the
    mismatching bytes are what the caller finds at the download path. *)
Lemma C5_mismatching_bytes_returned :
  exists w' r,
    ProviderManager.download (H := Examples.nodeDigest) Examples.pmCorruptPrimary "f1" "temp/dl"
      Examples.lenient Examples.helloWorld = (w', inr r) /\
    Provider.dl_provider r = "Storj" /\
    Provider.integrity r = false /\
    fs w' !! Provider.dl_path r = Some Examples.jello /\
    Provider.s3_headObject Examples.corruptS3 "uploads/f1"
      = inr {| Provider.head_fileHash := Some (Sha256.hash Examples.hello) |} /\
    Sha256.hash Examples.jello <> Sha256.hash Examples.hello.
Proof.
  eexists _, _. split; [vm_compute; reflexivity|].
  repeat split; try reflexivity. vm_compute. discriminate.
Qed.

(** C5 under [strictIntegrity], at a concrete input: the corrupted Storj object is
    skipped and the intact Arweave copy is returned. *)
Lemma C5_strict_witness :
  exists w' r,
    ProviderManager.download (H := Examples.nodeDigest) Examples.pmCorruptPrimary "f1" "temp/dl"
      Examples.strict Examples.helloWorld = (w', inr r) /\
    fs w' !! "temp/dl" = Some Examples.hello /\ Provider.integrity r = true.
Proof.
  destruct (C5_download_strict_integrity (H := Examples.nodeDigest) Examples.pmCorruptPrimary
              "f1" "temp/dl" Examples.strict Examples.helloWorld eq_refl)
    as [(n & p & key & d & w' & r & _ & _ & _ & _ & Hrun & Hfs & _ & Hint & _)|[_ (w' & c & Hrun)]].
  - exists w', r. split; [exact Hrun|]. split; [|exact Hint].
    vm_compute in Hrun. injection Hrun as <- <-. vm_compute. reflexivity.
  - vm_compute in Hrun. discriminate Hrun.
Defined.

(** ** Chunking and reconstruction (C7) *)







Section Chunking.
Context `{Digest}.
Import FileProcessor.

Variable fp : FileProcessor.t.
Variable filePath : string.
Variable data : bytes.
Variable cs : Z.
Hypothesis cs_pos : (0 < cs)%Z.
Hypothesis not_a_chunk :
  forall i uid, filePath <> chunkPathOf (tempDir (config fp)) i uid.

Local Abbreviation fileSize := (Z.of_nat (length data)).
Local Abbreviation dir := (tempDir (config fp)).





End Chunking.






(** ** Compression (C8) *)

Section Compression.
Context `{FileProcessor.Gzip}.
Import FileProcessor.

(** What [compressFile] does on a readable file. *)
Lemma compressFile_run (fp : FileProcessor.t) (w : World) (filePath : string)
    (options : Options) (data : bytes) :
  fs w !! filePath = Some data ->
  let tempCompressedPath :=
    path_join (tempDir (config fp)) ("compressed_" +:+ idSource w (nextId w) +:+ ".gz") in
  let w1 := log_event (EvGzip filePath)
              (mkWorld (fs w) (trace w) (idSource w) (S (nextId w)) (nextObj w)
                 (randomSource w) (nextRandom w)) in
  compressFile filePath options (fp, w) =
  match gzip (num_or (compressionLevel options) 6) data with
  | inr compressedData =>
      if is_beneficial (Z.of_nat (length compressedData)) (Z.of_nat (length data)) then
        ((fp, set_fs (insert tempCompressedPath compressedData) w1),
         inr {| beneficial := true; compressedPath := Some tempCompressedPath;
                compressedSize := Some (Z.of_nat (length compressedData)) |})
      else
        ((fp, w1), inr {| beneficial := false; compressedPath := None; compressedSize := None |})
  | inl e =>
      ((fp, w1), inr {| beneficial := false; compressedPath := None; compressedSize := None |})
  end.
Proof.
  intros Hfile tempCompressedPath w1.
  cbv [compressFile the_config inW zoom statSize readFileSync generateUniqueId emit
       modify_state try_catch throw mbind M_bind mret M_ret fst snd].
  rewrite Hfile. cbn [fs log_event]. rewrite Hfile.
  destruct (gzip _ data) as [e|c]; [reflexivity|].
  destruct (is_beneficial _ _); reflexivity.
Qed.

(** C8.  Step 4 of [processFile] on a readable file.  Unless compression
    is enabled and the file is larger than [compressionThreshold], nothing
    is attempted: the state is untouched and the file goes on as it is
    with [compressed = false].  Otherwise [pako.gzip] is run once, and the
    compressed bytes are kept ([compressed = true], written to the path
    that goes on) exactly when [gzip] returned and ten times the
    compressed size is below nine times the original size; in every other
    case the original path goes on, [compressed = false], and no file has
    been written. *)
Theorem C8_compression_kept_only_when_beneficial (fp : FileProcessor.t) (w : World)
    (filePath : string) (options : Options) (data : bytes) :
  fs w !! filePath = Some data ->
  let cfg := config fp in
  let originalSize := Z.of_nat (length data) in
  exists w' processedPath compressed,
    compressionStep filePath originalSize options (fp, w)
      = ((fp, w'), inr (processedPath, compressed)) /\
    (enableCompression cfg && (compressionThreshold cfg <? originalSize)%Z = false ->
       w' = w /\ processedPath = filePath /\ compressed = false) /\
    (enableCompression cfg && (compressionThreshold cfg <? originalSize)%Z = true ->
       trace w' = trace w ++ [EvGzip filePath] /\
       (compressed = true <->
        exists c, gzip (num_or (compressionLevel options) 6) data = inr c /\
                  (10 * Z.of_nat (length c) < 9 * originalSize)%Z) /\
       (compressed = true ->
        exists c, gzip (num_or (compressionLevel options) 6) data = inr c /\
                  fs w' !! processedPath = Some c) /\
       (compressed = false -> processedPath = filePath /\ fs w' = fs w)).
Proof.
  intros Hfile cfg originalSize.
  unfold compressionStep. rewrite run_bind. unfold the_config at 1. cbn [fst].
  fold cfg.
  destruct (enableCompression cfg && (compressionThreshold cfg <? originalSize)%Z) eqn:Hcond.
  - rewrite run_bind, (compressFile_run fp w filePath options data Hfile).
    destruct (gzip (num_or (compressionLevel options) 6) data) as [e|c] eqn:Hgz.
    + eexists _, _, _. split; [reflexivity|]. split; [discriminate|]. intros _.
      split; [reflexivity|]. split; [|split].
      * split; [discriminate|]. intros (c & Hc & _). discriminate.
      * discriminate.
      * intros _. split; reflexivity.
    + unfold is_beneficial. fold originalSize.
      destruct (10 * Z.of_nat (length c) <? 9 * originalSize)%Z eqn:Hben.
      * eexists _, _, _. split; [reflexivity|]. split; [discriminate|]. intros _.
        split; [reflexivity|]. split; [|split].
        -- split; [|reflexivity]. intros _. exists c. split; [reflexivity|lia].
        -- intros _. exists c. split; [reflexivity|]. cbn. by rewrite lookup_insert_eq.
        -- discriminate.
      * eexists _, _, _. split; [reflexivity|]. split; [discriminate|]. intros _.
        split; [reflexivity|]. split; [|split].
        -- split; [discriminate|]. intros (c' & Hc' & Hlt). simplify_eq. lia.
        -- discriminate.
        -- intros _. split; reflexivity.
  - eexists _, _, _. split; [reflexivity|]. split; [auto|discriminate].
Qed.

End Compression.

(** C8 at a concrete input: ten equal bytes, above the threshold of four,
    shrink to two bytes and the compressed file goes on. *)
Lemma C8_compression_witness :
  exists w' processedPath,
    FileProcessor.compressionStep (H := Examples.toyGzip) "temp/u3" 10 Examples.plainOptions
      (Examples.processorSmall, Examples.repetitiveWorld)
      = ((Examples.processorSmall, w'), inr (processedPath, true)) /\
    exists c, fs w' !! processedPath = Some c /\ length c = 2%nat.
Proof.
  destruct (C8_compression_kept_only_when_beneficial (H := Examples.toyGzip)
              Examples.processorSmall Examples.repetitiveWorld "temp/u3"
              Examples.plainOptions Examples.tenAs eq_refl)
    as (w' & p & b & Hrun & _ & Hyes).
  destruct (Hyes eq_refl) as (_ & [_ Hb] & Hkept & _).
  assert (Hbt : b = true).
  { apply Hb. eexists. split; [reflexivity|]. vm_compute. reflexivity. }
  subst b. destruct (Hkept eq_refl) as (c & Hgz & Hc).
  exists w', p. split; [exact Hrun|]. exists c. split; [exact Hc|].
  vm_compute in Hgz. by injection Hgz as <-.
Defined.

(** ** Deduplication (C2) *)

Section Deduplication.
Context `{Digest} `{Encryption.Cipher} `{FileProcessor.Gzip}.
Import FileProcessor.

(** The stages work on the process environment only. *)
Lemma keeps_inW {A} (m : M World A) : keeps_processor (inW m).
Proof.
  intros [fp w] s' r. unfold inW, zoom. cbn [fst snd].
  destruct (m w) as [w' r']. by intros [= <- _].
Qed.

Lemma keeps_config : keeps_processor the_config.
Proof. intros s s' r [= <- _]. reflexivity. Qed.

Lemma keeps_ret {A} (a : A) : keeps_processor (mret a).
Proof. intros s s' r [= <- _]. reflexivity. Qed.

Lemma keeps_throw {A} (e : string) : keeps_processor (throw e : M St A).
Proof. intros s s' r [= <- _]. reflexivity. Qed.

Lemma keeps_bind {A B} (m : M St A) (k : A -> M St B) :
  keeps_processor m -> (forall a, keeps_processor (k a)) -> keeps_processor (m ≫= k).
Proof.
  intros Hm Hk s s' r. rewrite run_bind.
  destruct (m s) as [s1 [e|a]] eqn:E.
  - intros [= <- _]. eapply Hm, E.
  - intros Hrun. rewrite (Hk a _ _ _ Hrun). eapply Hm, E.
Qed.

Lemma keeps_try_catch {A} (m : M St A) (h : string -> M St A) :
  keeps_processor m -> (forall e, keeps_processor (h e)) -> keeps_processor (try_catch m h).
Proof.
  intros Hm Hh s s' r. rewrite run_try_catch.
  destruct (m s) as [s1 [e|a]] eqn:E.
  - intros Hrun. rewrite (Hh e _ _ _ Hrun). eapply Hm, E.
  - intros [= <- _]. eapply Hm, E.
Qed.

Ltac keeps :=
  repeat first
    [ apply keeps_inW | apply keeps_config | apply keeps_ret | apply keeps_throw
    | apply keeps_bind; [|intros ?] | apply keeps_try_catch; [|intros ?]
    | progress cbv zeta
    | match goal with
      | |- keeps_processor (match ?x with _ => _ end) => destruct x
      | |- keeps_processor (let '(_, _) := ?x in _) => destruct x
      end ].

Lemma keeps_compressFile filePath options : keeps_processor (compressFile filePath options).
Proof. unfold compressFile. keeps. Qed.



Lemma keeps_chunk_loop n : forall i filePath fileSize chunkSize chunks,
  keeps_processor (chunk_loop n i filePath fileSize chunkSize chunks).
Proof.
  induction n as [|n IH]; intros; cbn [chunk_loop]; keeps; try apply IH.
Qed.

Lemma keeps_chunkFile filePath options : keeps_processor (chunkFile filePath options).
Proof. unfold chunkFile. keeps; try apply keeps_chunk_loop. Qed.


(** The start of [processFile], up to the deduplication check. *)
Lemma processFile_run filePath options (fp : FileProcessor.t) (w : World) (data : bytes) :
  fs w !! filePath = Some data ->
  valid (validate (config fp) filePath (Some data)) = true ->
  let pid := idSource w (nextId w) in
  let fp0 := set_queue pid (QProcessing (Path.basename filePath)) fp in
  let w0 := mkWorld (fs w) (trace w) (idSource w) (S (nextId w)) (nextObj w)
              (randomSource w) (nextRandom w) in
  processFile filePath options (fp, w) =
  try_catch
    (match (if enableDeduplication (config fp)
            then deduplicationCache fp !! sha256 data else None) with
     | Some existingFile =>
         if negb (bool_decide (allowDeduplication options = Some false))
         then mret (Deduplicated pid (sha256 data) existingFile)
         else runStages pid filePath (sha256 data) options
     | None => runStages pid filePath (sha256 data) options
     end)
    (fun error =>
       _ ← inFP (modify_state (set_queue pid (QFailed error)));
       throw error)
    (fp0, w0).
Proof.
  intros Hfile Hvalid pid fp0 w0.
  unfold processFile. rewrite run_bind.
  change (inW generateUniqueId (fp, w)) with ((fp, w0), (inr pid : string + string)).
  cbv beta iota. rewrite !run_try_catch. rewrite run_bind.
  change (inFP (modify_state (set_queue pid (QProcessing (Path.basename filePath)))) (fp, w0))
    with ((fp0, w0), (inr tt : string + unit)).
  cbv beta iota. rewrite run_bind. unfold validateFile at 1.
  cbn [fst snd fs config fp0 w0 set_queue]. rewrite Hfile, Hvalid. cbn [negb].
  rewrite run_bind. unfold inW at 1, zoom, calculateFileHash, readFileSync.
  rewrite run_bind. cbn [fst snd fs config fp0 w0 set_queue]. rewrite Hfile.
  rewrite run_ret. cbn [fst snd]. reflexivity.
Qed.



End Deduplication.



(** ** Reading metadata (C9, C10) *)

Section MetadataReads.
Import MetadataManager.

(** [filterMetadata] on a record whose [processing] object is [p]: the
    returned record refers to the same object, which has been redacted
    unless the secrets were asked for. *)
Lemma filterMetadata_run (s : MetadataManager.t) (m : Metadata) (options : Options)
    (l : nat) (p : ProcessingInfo) :
  processing m = Some l ->
  procs (heap s) !! l = Some p ->
  (restricted options = true -> is_Some (blockchain m)) ->
  exists s' r,
    filterMetadata m options s = (s', inr r) /\
    processing r = Some l /\
    procs (heap s') !! l = Some (if includeSecrets options then p else redacted p) /\
    metadataCache s' = metadataCache s /\ disk s' = disk s.
Proof.
  intros Hproc Hp Hchain.
  assert (Hredact : exists s1,
    ((if negb (includeSecrets options) then _ ← redactKey m; redactIv m else mret tt)
       : M MetadataManager.t unit) s = (s1, inr tt) /\
    procs (heap s1) !! l = Some (if includeSecrets options then p else redacted p) /\
    metadataCache s1 = metadataCache s /\ disk s1 = disk s /\
    versionHistoryMap s1 = versionHistoryMap s).
  { destruct (includeSecrets options); cbn [negb]; [eauto 10|].
    rewrite run_bind. unfold redactKey at 1. rewrite Hproc, Hp.
    destruct (truthy (encryptionKey p)) eqn:Hk.
    - unfold redactIv. rewrite Hproc. cbn [heap set_heap procs].
      rewrite lookup_insert_eq. cbn [encryptionIv].
      destruct (truthy (encryptionIv p)) eqn:Hi.
      + eexists. split; [reflexivity|]. cbn [heap set_heap procs].
        rewrite lookup_insert_eq. unfold redacted. rewrite Hk, Hi. auto.
      + eexists. split; [reflexivity|]. cbn [heap set_heap procs].
        rewrite lookup_insert_eq. unfold redacted. rewrite Hk, Hi. auto.
    - unfold redactIv. rewrite Hproc, Hp.
      destruct (truthy (encryptionIv p)) eqn:Hi.
      + eexists. split; [reflexivity|]. cbn [heap set_heap procs].
        rewrite lookup_insert_eq. unfold redacted. rewrite Hk, Hi. auto.
      + eexists. split; [reflexivity|]. unfold redacted. rewrite Hk, Hi.
        destruct p; auto. }
  destruct Hredact as (s1 & Hrun1 & Hp1 & Hc1 & Hd1 & Hv1).
  unfold filterMetadata. rewrite run_bind, Hrun1, run_bind.
  destruct (restricted options) eqn:Hr.
  - destruct (Hchain eq_refl) as [lb Hlb].
    rewrite run_bind. unfold deleteGasUsed. cbn [blockchain]. rewrite Hlb.
    destruct (chains (heap s1) !! lb) as [b|].
    + rewrite run_ret, run_bind. unfold get_state at 1. rewrite run_ret.
      eexists _, _. split; [reflexivity|].
      split; [by repeat case_match|]. cbn. auto.
    + rewrite run_ret, run_bind. unfold get_state at 1. rewrite run_ret.
      eexists _, _. split; [reflexivity|].
      split; [by repeat case_match|]. auto.
  - rewrite run_ret, run_bind. unfold get_state at 1. rewrite run_ret.
    eexists _, _. split; [reflexivity|].
    split; [by repeat case_match|]. auto.
Qed.


Lemma redacted_idem (p : ProcessingInfo) : redacted (redacted p) = redacted p.
Proof.
  unfold redacted. cbn.
  destruct (truthy (encryptionKey p)) eqn:Hk, (truthy (encryptionIv p)) eqn:Hi;
    cbn; rewrite ?Hk, ?Hi; reflexivity.
Qed.

(** C10 (the code departs from the claim).  [filterMetadata] copies the
    record but not the [processing] object it refers to, so the redaction
    is written into the cached record.  For a cached record whose
    [processing] object holds the raw key and IV, a read without
    [includeSecrets] leaves the record in the cache, but the cached record
    then reads ['[REDACTED]'] for both; every later read, with
    [includeSecrets] or without, returns ['[REDACTED]'] as well. *)
Theorem C10_read_redacts_the_cached_record (s : MetadataManager.t) (fileId : string)
    (options : Options) (m : Metadata) (p : ProcessingInfo) :
  metadataCache s !! fileId = Some m ->
  processing (view (heap s) m) = Some p ->
  is_Some (blockchain m) ->
  is_raw (encryptionKey p) = true ->
  is_raw (encryptionIv p) = true ->
  includeSecrets options = false ->
  exists s' r p',
    getMetadata fileId options s = (s', inr (Some r)) /\
    metadataCache s' !! fileId = Some m /\
    processing (view (heap s') m) = Some p' /\
    encryptionKey p' = REDACTED /\ encryptionIv p' = REDACTED /\
    forall options', exists s'' r' p'',
      getMetadata fileId options' s' = (s'', inr (Some r')) /\
      processing (view (heap s'') r') = Some p'' /\
      encryptionKey p'' = REDACTED /\ encryptionIv p'' = REDACTED.
Proof.
  intros Hcache Hview Hchain Hkey Hiv Hno.
  cbn [view rebind processing] in Hview.
  destruct (processing m) as [l|] eqn:Hl; [|discriminate]. cbn in Hview.
  assert (Hred : encryptionKey (redacted p) = REDACTED /\ encryptionIv (redacted p) = REDACTED).
  { unfold redacted. cbn.
    destruct (encryptionKey p), (encryptionIv p); try discriminate; auto. }
  assert (Hget : forall s0 o p0,
            metadataCache s0 !! fileId = Some m -> procs (heap s0) !! l = Some p0 ->
            exists s1 r,
              getMetadata fileId o s0 = (s1, inr (Some r)) /\
              processing r = Some l /\
              procs (heap s1) !! l = Some (if includeSecrets o then p0 else redacted p0) /\
              metadataCache s1 = metadataCache s0).
  { intros s0 o p0 Hc0 Hp0.
    destruct (filterMetadata_run s0 m o l p0 Hl Hp0 (fun _ => Hchain))
      as (s1 & r & Hrun & Hr & Hp1 & Hc1 & _).
    exists s1, r. unfold getMetadata. rewrite run_bind. unfold get_state at 1.
    rewrite Hc0, run_bind, Hrun, run_ret. auto. }
  destruct (Hget s options p Hcache Hview) as (s' & r & Hrun & Hr & Hp' & Hc').
  rewrite Hno in Hp'.
  exists s', r, (redacted p). split; [exact Hrun|].
  split; [by rewrite Hc'|].
  split; [cbn [view rebind processing]; by rewrite Hl|].
  split; [apply Hred|]. split; [apply Hred|].
  intros options'.
  destruct (Hget s' options' (redacted p)) as (s'' & r' & Hrun' & Hr' & Hp'' & _);
    [by rewrite Hc'|exact Hp'|].
  exists s'', r', (redacted p). split; [exact Hrun'|].
  split; [|exact Hred].
  cbn [view rebind processing]. rewrite Hr'. cbn. rewrite Hp''.
  destruct (includeSecrets options'); [reflexivity|by rewrite redacted_idem].
Qed.

End MetadataReads.


(** C10 at a concrete input: the record of an encrypted upload is read
    once without [includeSecrets]; the cached record and a later read
    with [includeSecrets] both give ['[REDACTED]']. *)
Lemma C10_redaction_witness :
  exists s' r,
    MetadataManager.getMetadata "id2" MetadataManager.defaultOptions Examples.storeQuiet
      = (s', inr (Some r)) /\
    Examples.secretsOf (MetadataManager.lookupRecord s' "id2")
      = Some (MetadataManager.REDACTED, MetadataManager.REDACTED) /\
    exists s'' r',
      MetadataManager.getMetadata "id2" Examples.withSecrets s' = (s'', inr (Some r')) /\
      Examples.secretsOf (Some (MetadataManager.view (MetadataManager.heap s'') r'))
        = Some (MetadataManager.REDACTED, MetadataManager.REDACTED).
Proof.
  destruct (MetadataManager.metadataCache Examples.storeQuiet !! "id2") as [m|] eqn:Hm;
    [|vm_compute in Hm; discriminate Hm].
  destruct (MetadataManager.processing
              (MetadataManager.view (MetadataManager.heap Examples.storeQuiet) m))
    as [p|] eqn:Hp; [|vm_compute in Hm; injection Hm as <-; discriminate Hp].
  destruct (C10_read_redacts_the_cached_record Examples.storeQuiet "id2"
              MetadataManager.defaultOptions m p Hm Hp)
    as (s' & r & p' & Hrun & Hcache & Hview & Hk & Hi & Hlater).
  - vm_compute in Hm. injection Hm as <-. eexists. reflexivity.
  - vm_compute in Hm. injection Hm as <-. injection Hp as <-. reflexivity.
  - vm_compute in Hm. injection Hm as <-. injection Hp as <-. reflexivity.
  - reflexivity.
  - exists s', r. split; [exact Hrun|]. split.
    + unfold MetadataManager.lookupRecord, Examples.secretsOf. rewrite Hcache. cbn [mbind option_bind].
      rewrite Hview. cbn. by rewrite Hk, Hi.
    + destruct (Hlater Examples.withSecrets) as (s'' & r' & p'' & Hrun' & Hview' & Hk' & Hi').
      exists s'', r'. split; [exact Hrun'|].
      unfold Examples.secretsOf. cbn [mbind option_bind]. rewrite Hview'. cbn. by rewrite Hk', Hi'.
Defined.

(** The same on the running example, with what is left on disk: after one
    read without [includeSecrets] the cached record of an encrypted upload
    reads ['[REDACTED]'], a later read with [includeSecrets] returns
    ['[REDACTED]'] too, and only the file on disk still holds the key.
    With ledger sync enabled the same read happens inside
    [createMetadata], so the cache is redacted from the start. *)
Lemma cached_secrets_lost_after_read :
  let first := MetadataManager.getMetadata "id2" MetadataManager.defaultOptions
                 Examples.storeQuiet in
  let second := MetadataManager.getMetadata "id2" Examples.withSecrets first.1 in
  (exists key iv,
     Examples.secretsOf (MetadataManager.lookupRecord Examples.storeQuiet "id2")
       = Some (MetadataManager.SBuffer key, MetadataManager.SBuffer iv) /\
     Examples.secretsOf (MetadataManager.disk first.1 !! "id2")
       = Some (MetadataManager.SJson key, MetadataManager.SJson iv)) /\
  Examples.secretsOf (MetadataManager.lookupRecord first.1 "id2")
    = Some (MetadataManager.REDACTED, MetadataManager.REDACTED) /\
  (exists r, second.2 = inr (Some r) /\
     Examples.secretsOf (Some (MetadataManager.view (MetadataManager.heap second.1) r))
       = Some (MetadataManager.REDACTED, MetadataManager.REDACTED)) /\
  Examples.secretsOf (MetadataManager.lookupRecord Examples.storeSynced "id2")
    = Some (MetadataManager.REDACTED, MetadataManager.REDACTED).
Proof.
  vm_compute. repeat split; eauto.
Qed.

(** * Further properties of the modelled code *)

(** ** Encryption utilities and formats *)

(** ** Strings *)

Lemma string_app_cons (c : ascii) (s t : string) : String c s +:+ t = String c (s +:+ t).
Proof. reflexivity. Qed.

(** ** Hexadecimal text *)

Lemma hex_byte (x : byte) :
  Hex.unhex (Hex.digit (Byte.to_N x / 16)) = Some (Byte.to_N x / 16)%N /\
  Hex.unhex (Hex.digit (Byte.to_N x mod 16)) = Some (Byte.to_N x mod 16)%N /\
  Hex.byte_of_N (16 * (Byte.to_N x / 16) + Byte.to_N x mod 16) = x.
Proof. destruct x; vm_compute; auto. Qed.

Lemma hex_decode_encode_app (b : bytes) (rest : string) :
  Hex.decode (Hex.encode b +:+ rest) = b ++ Hex.decode rest.
Proof.
  induction b as [|x b IH]; [reflexivity|].
  destruct (hex_byte x) as (H1 & H2 & H3).
  cbn [Hex.encode]. rewrite !string_app_cons. cbn [Hex.decode]. rewrite H1, H2, H3, IH. reflexivity.
Qed.

Lemma string_app_empty (s : string) : s +:+ "" = s.
Proof. induction s as [|c s IH]; [reflexivity|]. by rewrite string_app_cons, IH. Qed.

Lemma hex_decode_encode (b : bytes) : Hex.decode (Hex.encode b) = b.
Proof.
  rewrite <- (string_app_empty (Hex.encode b)), hex_decode_encode_app.
  apply app_nil_r.
Qed.

Lemma hex_encode_length (b : bytes) : String.length (Hex.encode b) = 2 * length b.
Proof. induction b as [|x b IH]; [reflexivity|]. cbn [Hex.encode String.length length]. lia. Qed.

Lemma jsstr_take_length (n : nat) (s : string) :
  String.length (JsStr.take n s) = Nat.min n (String.length s).
Proof.
  revert s. induction n as [|n IH]; intros [|c s]; cbn; try reflexivity. by rewrite IH.
Qed.

(** The characters of a string. *)
Lemma hex_encode_digits (b : bytes) :
  Forall (fun c => is_Some (Hex.unhex c)) (list_ascii_of_string (Hex.encode b)).
Proof.
  induction b as [|x b IH]; [constructor|].
  destruct (hex_byte x) as (H1 & H2 & _).
  cbn [Hex.encode list_ascii_of_string]. repeat constructor; eauto.
Qed.

Lemma jsstr_take_chars (P : ascii -> Prop) (n : nat) (s : string) :
  Forall P (list_ascii_of_string s) -> Forall P (list_ascii_of_string (JsStr.take n s)).
Proof.
  revert s. induction n as [|n IH]; intros [|c s] Hs; cbn; try constructor.
  - by inversion Hs.
  - apply IH. by inversion Hs.
Qed.

Section EncryptionUtilities.
Import Encryption.

(** X1.  [randomString(n)] is a string of exactly [n] hexadecimal digits, odd
    [n] included, for every length whose bytes [crypto.randomBytes] hands
    out and whose text fits a string (lengths below 2^28 do on every
    platform). *)
Theorem randomString_length (n : nat) (w : World) :
  (Z.of_nat n < 2 ^ 28)%Z ->
  exists w' s,
    randomString n w = (w', inr s) /\
    String.length s = n /\
    Forall (fun c => is_Some (Hex.unhex c)) (list_ascii_of_string s).
Proof.
  intros _. unfold randomString. rewrite run_bind. unfold randomBytes at 1. cbv beta iota.
  rewrite run_ret. eexists _, _. split; [reflexivity|]. split.
  - rewrite jsstr_take_length, hex_encode_length, fit_length.
    pose proof (Nat.div_mod_eq (n + 1) 2). pose proof (Nat.mod_upper_bound (n + 1) 2). lia.
  - apply jsstr_take_chars, hex_encode_digits.
Qed.

Context `{Mac} `{Kdf}.

Lemma timingSafeEqual_same {S} (a : bytes) (s : S) : timingSafeEqual a a s = (s, inr true).
Proof.
  unfold timingSafeEqual. rewrite Nat.eqb_refl, run_ret.
  by destruct (List.list_eq_dec byte_eq_dec a a).
Qed.

(** X2.  [verifyHMAC] accepts the signature [createHMAC] makes for the same
    data and secret, and also that signature followed by any text whose
    first two characters are not both hexadecimal digits. *)
Theorem verifyHMAC_accepts_trailing_text {S} (data secret : bytes) (junk : string) (s : S) :
  Hex.decode junk = [] ->
  verifyHMAC data secret (createHMAC data secret +:+ junk) s = (s, inr true).
Proof.
  intros Hjunk. unfold verifyHMAC, createHMAC.
  rewrite hex_decode_encode_app, Hjunk, app_nil_r, hex_decode_encode.
  apply timingSafeEqual_same.
Qed.

(** X3.  A signature that does not decode to as many bytes as the MAC has
    makes [verifyHMAC] throw instead of returning [false]. *)
Theorem verifyHMAC_throws_on_length {S} (data secret : bytes) (signature : string) (s : S) :
  length (Hex.decode signature) <> length (hmac secret data) ->
  verifyHMAC data secret signature s
    = (s, inl "Input buffers must have the same byte length").
Proof.
  intros Hlen. unfold verifyHMAC, createHMAC, timingSafeEqual.
  rewrite hex_decode_encode.
  by apply Nat.eqb_neq in Hlen as ->.
Qed.

(** X4.  [verifyPassword] accepts what [hashPassword] returned for the same
    password, for every number of rounds whose iteration count
    [pbkdf2Sync] accepts (1 to 2^31 - 1 iterations). *)
Theorem verifyPassword_hashPassword (password : string) (saltRounds : Z) (w : World) :
  (1 <= saltRounds * 1000 <= 2147483647)%Z ->
  exists w' h,
    hashPassword password saltRounds w = (w', inr h) /\
    pw_rounds h = saltRounds /\
    forall (S : Type) (s : S),
      verifyPassword password (pw_hash h) (pw_salt h) (pw_rounds h) s = (s, inr true).
Proof.
  intros _. unfold hashPassword. rewrite run_bind. unfold randomBytes at 1. cbv beta iota.
  rewrite run_ret. eexists _, _. split; [reflexivity|]. split; [reflexivity|].
  intros S s. unfold verifyPassword. cbn [pw_hash pw_salt pw_rounds].
  rewrite !hex_decode_encode. apply timingSafeEqual_same.
Qed.

End EncryptionUtilities.

Section EncryptionFormats.
Context `{Encryption.Cipher}.
Import Encryption.

(** What [encrypt] returns for an accepted key. *)
Lemma encrypt_run (laws : CipherLaws) (F : bytes) (key : option KeyArg) (iv : option bytes)
    (w : World) :
  key_accepted key ->
  (forall v, iv = Some v -> length v = IV_LENGTH) ->
  exists w' k v,
    encrypt F key iv w =
      (w', inr {| encrypted := v ++ cipher_authTag k v F ++ cipher_update k v F;
                  res_key := k; res_iv := v; res_tag := cipher_authTag k v F;
                  algorithm := ALGORITHM |}) /\
    length k = KEY_LENGTH /\ length v = IV_LENGTH /\
    (forall pw, key = Some (KeyString pw) -> pw <> "" -> k = scryptSync pw "salt" KEY_LENGTH) /\
    (forall v0, iv = Some v0 -> v = v0).
Proof.
  intros Hkey Hiv.
  unfold encrypt. rewrite run_try_catch, run_bind.
  set (getKey := if key_truthy key then _ else _).
  assert (HgetKey : exists w0 ek k, getKey w = (w0, inr ek) /\
            (forall S (s : S), finalKeyOf ek s = (s, inr k)) /\ length k = KEY_LENGTH /\
            (forall pw, key = Some (KeyString pw) -> pw <> "" ->
                        k = scryptSync pw "salt" KEY_LENGTH)).
  { subst getKey. destruct key as [[s|b]|]; simpl in *.
    - destruct (String.eqb s "") eqn:E; simpl.
      + apply String.eqb_eq in E as ->.
        eexists _, _, _. split; [reflexivity|]. split; [|split].
        * intros S s0. apply finalKeyOf_buffer, fit_length.
        * apply fit_length.
        * intros pw [= <-] Hne. done.
      + eexists _, _, _. split; [reflexivity|]. split; [|split].
        * intros S s0. reflexivity.
        * apply (scrypt_length laws).
        * by intros pw [= <-] _.
    - eexists _, _, _. split; [reflexivity|]. split; [|split].
      + intros S s0. by apply finalKeyOf_buffer.
      + exact Hkey.
      + intros pw [=].
    - eexists _, _, _. split; [reflexivity|]. split; [|split].
      + intros S s0. apply finalKeyOf_buffer, fit_length.
      + apply fit_length.
      + intros pw [=]. }
  destruct HgetKey as (w0 & ek & k & -> & Hfinal & Hklen & Hpw).
  rewrite run_bind.
  assert (HgetIv : exists w1 v,
            (match iv with Some v => mret v | None => generateIV end) w0 = (w1, inr v)
            /\ length v = IV_LENGTH /\ (forall v0, iv = Some v0 -> v = v0)).
  { destruct iv as [v|].
    - eexists _, _. split; [reflexivity|]. split; [by apply Hiv|]. by intros v0 [= <-].
    - eexists _, _. split; [reflexivity|]. split; [apply fit_length|]. intros v0 [=]. }
  destruct HgetIv as (w1 & v & -> & Hv & Hv0).
  rewrite run_bind, (Hfinal World w1), run_ret.
  exists w1, k, v. auto.
Qed.

(** [decrypt] on the three parts of an [encrypt] result, under the key
    [k] that [finalKeyOf] derives from [key]. *)
Lemma decrypt_parts (laws : CipherLaws) {S} (F k v : bytes) (key : KeyArg)
    (encryptedData : bytes) (iv tag : option bytes) (s : S) :
  (forall s0 : S, finalKeyOf key s0 = (s0, inr k)) ->
  (match iv, tag with
   | Some iv0, Some tag0 =>
       iv0 = v /\ tag0 = cipher_authTag k v F /\ encryptedData = cipher_update k v F
   | _, _ =>
       length v = IV_LENGTH /\
       encryptedData = v ++ cipher_authTag k v F ++ cipher_update k v F
   end) ->
  decrypt encryptedData key iv tag s = (s, inr F).
Proof.
  intros Hfinal Hparts. unfold decrypt. rewrite run_try_catch, run_bind.
  assert (Hparse :
    (match iv, tag with
     | Some iv0, Some tag0 => mret (iv0, tag0, encryptedData)
     | _, _ =>
         if Nat.ltb (length encryptedData) (IV_LENGTH + TAG_LENGTH)
         then throw "Encrypted data too short"
         else mret (take IV_LENGTH encryptedData,
                    take TAG_LENGTH (drop IV_LENGTH encryptedData),
                    drop (IV_LENGTH + TAG_LENGTH) encryptedData)
     end : M S _) s = (s, inr (v, cipher_authTag k v F, cipher_update k v F))).
  { assert (Hcombined : length v = IV_LENGTH ->
              encryptedData = v ++ cipher_authTag k v F ++ cipher_update k v F ->
              (if Nat.ltb (length encryptedData) (IV_LENGTH + TAG_LENGTH)
               then throw "Encrypted data too short"
               else mret (take IV_LENGTH encryptedData,
                          take TAG_LENGTH (drop IV_LENGTH encryptedData),
                          drop (IV_LENGTH + TAG_LENGTH) encryptedData) : M S _) s
              = (s, inr (v, cipher_authTag k v F, cipher_update k v F))).
    { intros Hv ->.
      destruct (combined_format_split v (cipher_authTag k v F) (cipher_update k v F) Hv
                  (authTag_length laws k v F)) as (Hshort & Htake1 & Htake2 & Hdrop).
      cbv zeta in Hshort, Htake1, Htake2, Hdrop.
      by rewrite Hshort, Htake1, Htake2, Hdrop. }
    destruct iv as [iv0|], tag as [tag0|].
    - destruct Hparts as (-> & -> & ->). reflexivity.
    - destruct Hparts. by apply Hcombined.
    - destruct Hparts. by apply Hcombined.
    - destruct Hparts. by apply Hcombined. }
  rewrite Hparse. cbn beta iota.
  rewrite run_bind, Hfinal.
  rewrite (final_accepts laws), (decipher_cipher laws). reflexivity.
Qed.

(** X5.  The result of [encrypt] can also be decrypted from its separate
    parts: the ciphertext that follows the 32 bytes of IV and tag, with
    the returned [iv] and [tag] passed as arguments. *)
Theorem decrypt_separate_components (laws : CipherLaws) (F : bytes) (key : option KeyArg)
    (iv : option bytes) (w : World) :
  key_accepted key ->
  (forall v, iv = Some v -> length v = IV_LENGTH) ->
  exists w' r,
    encrypt F key iv w = (w', inr r) /\
    length (res_iv r) = IV_LENGTH /\ length (res_tag r) = TAG_LENGTH /\
    forall (S : Type) (s : S),
      decrypt (drop (IV_LENGTH + TAG_LENGTH) (encrypted r)) (KeyBuffer (res_key r))
        (Some (res_iv r)) (Some (res_tag r)) s = (s, inr F).
Proof.
  intros Hkey Hiv.
  destruct (encrypt_run laws F key iv w Hkey Hiv) as (w' & k & v & Hrun & Hk & Hv & _).
  eexists _, _. split; [exact Hrun|]. cbn [encrypted res_key res_iv res_tag].
  split; [exact Hv|]. split; [apply (authTag_length laws)|].
  intros S s. apply (decrypt_parts laws F k v).
  - intros s0. by apply finalKeyOf_buffer.
  - split; [reflexivity|]. split; [reflexivity|].
    destruct (combined_format_split v (cipher_authTag k v F) (cipher_update k v F) Hv
                (authTag_length laws k v F)) as (_ & _ & _ & Hdrop).
    exact Hdrop.
Qed.

(** X6.  Data encrypted under a pass phrase is decrypted by the pass phrase
    itself: [decrypt] derives the same key from it as [encrypt] did. *)
Theorem decrypt_with_pass_phrase (laws : CipherLaws) (F : bytes) (pw : string)
    (iv : option bytes) (w : World) :
  pw <> "" ->
  (forall v, iv = Some v -> length v = IV_LENGTH) ->
  exists w' r,
    encrypt F (Some (KeyString pw)) iv w = (w', inr r) /\
    res_key r = scryptSync pw "salt" KEY_LENGTH /\
    forall (S : Type) (s : S) (ivArg : option bytes),
      decrypt (encrypted r) (KeyString pw) ivArg None s = (s, inr F).
Proof.
  intros Hpw Hiv.
  destruct (encrypt_run laws F (Some (KeyString pw)) iv w I Hiv)
    as (w' & k & v & Hrun & Hk & Hv & Hscrypt & _).
  eexists _, _. split; [exact Hrun|]. cbn [encrypted res_key res_iv res_tag].
  split; [by apply Hscrypt|].
  intros S s ivArg. apply (decrypt_parts laws F k v).
  - intros s0. cbn. by rewrite (Hscrypt pw).
  - by destruct ivArg.
Qed.

(** X7.  A [Buffer] key that is not [KEY_LENGTH] bytes long is refused by
    [encrypt] and by [decrypt] with the same message. *)
Theorem invalid_key_length_is_refused (F : bytes) (b : bytes) (iv tag : option bytes)
    (w : World) :
  length b <> KEY_LENGTH ->
  let msg := "Invalid key length: " +:+ pretty (length b) +:+ ", expected: "
             +:+ pretty KEY_LENGTH in
  (exists w', encrypt F (Some (KeyBuffer b)) iv w = (w', inl ("Encryption failed: " +:+ msg))) /\
  (IV_LENGTH + TAG_LENGTH <= length F ->
   forall (S : Type) (s : S),
     decrypt F (KeyBuffer b) iv tag s = (s, inl ("Decryption failed: " +:+ msg))).
Proof.
  intros Hlen msg. apply Nat.eqb_neq in Hlen. split.
  - unfold encrypt. rewrite run_try_catch, run_bind. cbn [key_truthy default].
    rewrite run_ret, run_bind.
    destruct ((match iv with Some v => mret v | None => generateIV end) w) as [w1 [e|v]] eqn:E.
    { destruct iv; [discriminate|]. unfold generateIV, randomBytes in E. discriminate. }
    rewrite run_bind. unfold finalKeyOf, id. rewrite Hlen. eexists. reflexivity.
  - intros Hlong S s. unfold decrypt. rewrite run_try_catch, run_bind.
    assert (Hnot : Nat.ltb (length F) (IV_LENGTH + TAG_LENGTH) = false)
      by (apply Nat.ltb_ge; lia).
    destruct iv as [iv0|], tag as [tag0|]; rewrite ?Hnot, run_ret;
      cbn beta iota; rewrite run_bind; unfold finalKeyOf; rewrite Hlen; reflexivity.
Qed.

End EncryptionFormats.

(** Seven hexadecimal digits. *)
Lemma randomString_witness :
  exists w' s,
    Encryption.randomString 7 Examples.helloWorld = (w', inr s) /\ String.length s = 7.
Proof.
  destruct (randomString_length 7 Examples.helloWorld) as (w' & s & Hrun & Hlen & _).
  - vm_compute. reflexivity.
  - exists w', s. split; [exact Hrun | exact Hlen].
Defined.

(** The default of twelve rounds. *)
Lemma verifyPassword_witness :
  exists w' h,
    Encryption.hashPassword (H := Examples.toyKdf) "secret" 12 Examples.helloWorld
      = (w', inr h) /\
    Encryption.verifyPassword (H := Examples.toyKdf) "secret" (Encryption.pw_hash h)
      (Encryption.pw_salt h) 12 tt = (tt, inr true).
Proof.
  destruct (verifyPassword_hashPassword (H0 := Examples.toyKdf) "secret" 12
              Examples.helloWorld) as (w' & h & Hrun & Hrounds & Hverify).
  - lia.
  - exists w', h. split; [exact Hrun|].
    pose proof (Hverify unit tt) as Hv. rewrite Hrounds in Hv. exact Hv.
Defined.

(** A signature with trailing text that is no hexadecimal digit. *)
Lemma verifyHMAC_trailing_witness :
  Encryption.verifyHMAC (H := Examples.toyMac) Examples.hello Examples.jello
    (Encryption.createHMAC (H := Examples.toyMac) Examples.hello Examples.jello +:+ "zz") tt
  = (tt, inr true).
Proof.
  apply (verifyHMAC_accepts_trailing_text (H := Examples.toyMac)). reflexivity.
Defined.

(** A signature of one byte. *)
Lemma verifyHMAC_length_witness :
  Encryption.verifyHMAC (H := Examples.toyMac) Examples.hello Examples.jello "00" tt
  = (tt, inl "Input buffers must have the same byte length").
Proof.
  apply (verifyHMAC_throws_on_length (H := Examples.toyMac)). vm_compute. lia.
Defined.

(** ["hello"] encrypted under a generated key, decrypted from its parts. *)
Lemma decrypt_components_witness :
  exists w' r,
    Encryption.encrypt (H := Examples.toyCipher) Examples.hello None None Examples.helloWorld
      = (w', inr r) /\
    Encryption.decrypt (H := Examples.toyCipher)
      (drop (Encryption.IV_LENGTH + Encryption.TAG_LENGTH) (Encryption.encrypted r))
      (Encryption.KeyBuffer (Encryption.res_key r))
      (Some (Encryption.res_iv r)) (Some (Encryption.res_tag r)) tt
    = (tt, inr Examples.hello).
Proof.
  destruct (decrypt_separate_components (H := Examples.toyCipher) toyCipher_laws
              Examples.hello None None Examples.helloWorld
              I (fun v (E : None = Some v) => match E with end))
    as (w' & r & Henc & _ & _ & Hdec).
  exists w', r. split; [exact Henc | exact (Hdec unit tt)].
Defined.

(** ["hello"] encrypted and decrypted under the pass phrase ["secret"]. *)
Lemma decrypt_pass_phrase_witness :
  exists w' r,
    Encryption.encrypt (H := Examples.toyCipher) Examples.hello
      (Some (Encryption.KeyString "secret")) None Examples.helloWorld = (w', inr r) /\
    Encryption.decrypt (H := Examples.toyCipher) (Encryption.encrypted r)
      (Encryption.KeyString "secret") None None tt
    = (tt, inr Examples.hello).
Proof.
  destruct (decrypt_with_pass_phrase (H := Examples.toyCipher) toyCipher_laws
              Examples.hello "secret" None Examples.helloWorld)
    as (w' & r & Henc & _ & Hdec).
  - discriminate.
  - intros v E. discriminate E.
  - exists w', r. split; [exact Henc | exact (Hdec unit tt None)].
Defined.

(** A key of five bytes. *)
Lemma invalid_key_witness :
  exists w',
    Encryption.encrypt (H := Examples.toyCipher) Examples.hello
      (Some (Encryption.KeyBuffer Examples.hello)) None Examples.helloWorld
    = (w', inl "Encryption failed: Invalid key length: 5, expected: 32").
Proof.
  destruct (invalid_key_length_is_refused (H := Examples.toyCipher) Examples.hello
              Examples.hello None None Examples.helloWorld) as [Henc _].
  - vm_compute. lia.
  - exact Henc.
Defined.

(** ** The stages of the file processor and their inverses *)

Section ProcessorStages.
Context `{Digest} `{Encryption.Cipher} `{FileProcessor.Gzip}.
Import Encryption FileProcessor.

(** The run of [processFile] on a file that fails validation. *)
Lemma processFile_invalid_run (filePath : string) (options : Options)
    (fp : FileProcessor.t) (w : World) :
  let validation := validate (config fp) filePath (fs w !! filePath) in
  valid validation = false ->
  let pid := idSource w (nextId w) in
  let msg := "File validation failed: " +:+ JsStr.join ", " (errors validation) in
  processFile filePath options (fp, w) =
    ((set_queue pid (QFailed msg) (set_queue pid (QProcessing (Path.basename filePath)) fp),
      mkWorld (fs w) (trace w) (idSource w) (S (nextId w)) (nextObj w)
        (randomSource w) (nextRandom w)),
     inl msg).
Proof.
  intros validation Hvalid pid msg.
  unfold processFile. rewrite run_bind.
  change (inW generateUniqueId (fp, w))
    with ((fp, mkWorld (fs w) (trace w) (idSource w) (S (nextId w)) (nextObj w)
                 (randomSource w) (nextRandom w)),
          (inr pid : string + string)).
  cbv beta iota. rewrite run_try_catch, run_bind.
  unfold inFP at 1, zoom, modify_state. cbn [fst snd]. rewrite run_bind.
  unfold validateFile at 1. cbn [fst snd fs config set_queue].
  fold validation. rewrite Hvalid. cbn [negb]. unfold throw at 1.
  unfold inFP, zoom, modify_state, throw. rewrite run_bind. reflexivity.
Qed.

(** X8.  A file that fails validation is refused before anything is done with
    it: [processFile] throws the joined validation errors, records the
    failure in the processing queue under the new processing id, and
    leaves the files, the deduplication cache and the trace as they were. *)
Theorem processFile_rejects_invalid_file (filePath : string) (options : Options)
    (fp : FileProcessor.t) (w : World) :
  let validation := validate (config fp) filePath (fs w !! filePath) in
  valid validation = false ->
  let pid := idSource w (nextId w) in
  let msg := "File validation failed: " +:+ JsStr.join ", " (errors validation) in
  exists fp' w',
    processFile filePath options (fp, w) = ((fp', w'), inl msg) /\
    getProcessingStatus fp' pid = Some (QFailed msg) /\
    deduplicationCache fp' = deduplicationCache fp /\
    config fp' = config fp /\
    fs w' = fs w /\ trace w' = trace w.
Proof.
  intros validation Hvalid pid msg.
  rewrite (processFile_invalid_run filePath options fp w Hvalid).
  eexists _, _. split; [reflexivity|].
  unfold getProcessingStatus. cbn. rewrite lookup_insert_eq. auto.
Qed.

(** A run of [processFile] that returns a full result went through the
    stages, from the state in which the processing is queued. *)
Lemma processFile_stages (filePath : string) (options : Options)
    (fp fp1 : FileProcessor.t) (w w1 : World) (data : bytes) (r : FullResult) :
  fs w !! filePath = Some data ->
  processFile filePath options (fp, w) = ((fp1, w1), inr (Processed r)) ->
  let pid := idSource w (nextId w) in
  valid (validate (config fp) filePath (Some data)) = true /\
  runStages pid filePath (sha256 data) options
    (set_queue pid (QProcessing (Path.basename filePath)) fp,
     mkWorld (fs w) (trace w) (idSource w) (S (nextId w)) (nextObj w)
       (randomSource w) (nextRandom w))
  = ((fp1, w1), inr (Processed r)).
Proof.
  intros Hfile Hrun pid.
  destruct (valid (validate (config fp) filePath (Some data))) eqn:Hvalid.
  - split; [reflexivity|].
    rewrite (processFile_run filePath options fp w data Hfile Hvalid) in Hrun.
    rewrite run_try_catch in Hrun. fold pid in Hrun |- *.
    set (st0 := (set_queue pid (QProcessing (Path.basename filePath)) fp,
                 mkWorld (fs w) (trace w) (idSource w) (S (nextId w)) (nextObj w)
                   (randomSource w) (nextRandom w))) in *.
    assert (Hstages : match runStages pid filePath (sha256 data) options st0 with
                      | (s', inl e) =>
                          (_ ← inFP (modify_state (set_queue pid (QFailed e))); throw e) s'
                      | (s', inr a) => (s', inr a)
                      end = ((fp1, w1), inr (Processed r)) ->
                      runStages pid filePath (sha256 data) options st0
                      = ((fp1, w1), inr (Processed r))).
    { destruct (runStages pid filePath (sha256 data) options st0) as [s' [e|a]]; [|done].
      unfold inFP, zoom, modify_state, throw. rewrite run_bind. discriminate. }
    destruct (if enableDeduplication (config fp)
              then deduplicationCache fp !! sha256 data else None) as [existing|].
    + destruct (negb (bool_decide (allowDeduplication options = Some false))).
      * rewrite run_ret in Hrun. discriminate.
      * by apply Hstages.
    + by apply Hstages.
  - exfalso. rewrite <- Hfile in Hvalid.
    rewrite (processFile_invalid_run filePath options fp w Hvalid) in Hrun. discriminate.
Qed.

(** X9.  [decryptFile] undoes [encryptFile]: the file it writes holds the
    bytes of the file that was encrypted, whatever is passed as [iv]. *)
Theorem decryptFile_encryptFile (laws : CipherLaws) (fp : FileProcessor.t) (w : World)
    (filePath outputPath : string) (key : option KeyArg) (ivArg : option bytes)
    (data : bytes) :
  fs w !! filePath = Some data ->
  key_accepted key ->
  exists w1 r w2 d,
    encryptFile filePath key (fp, w) = ((fp, w1), inr r) /\
    decryptFile (encryptedPath r) outputPath (KeyBuffer (er_key r)) ivArg w1 = (w2, inr d) /\
    decrypted_path d = outputPath /\
    decrypted_size d = Z.of_nat (length data) /\
    fs w2 !! outputPath = Some data.
Proof.
  intros Hfile Hkey.
  set (w0 := mkWorld (fs w) (trace w) (idSource w) (S (nextId w)) (nextObj w)
               (randomSource w) (nextRandom w)).
  set (wE := log_event (EvEncrypt filePath) w0).
  destruct (encrypt_run laws data key None wE Hkey ltac:(discriminate))
    as (w' & k & v & Hrun & Hk & Hv & _).
  set (enc := v ++ cipher_authTag k v data ++ cipher_update k v data) in *.
  set (encPath := path_join (tempDir (config fp))
                    ("encrypted_" +:+ idSource w (nextId w) +:+ ".enc")).
  exists (set_fs (insert encPath enc) w').
  exists {| encryptedPath := encPath; er_key := k; er_iv := v |}.
  assert (Henc : encryptFile filePath key (fp, w)
                 = ((fp, set_fs (insert encPath enc) w'),
                    inr {| encryptedPath := encPath; er_key := k; er_iv := v |})).
  { unfold encryptFile. rewrite run_bind. unfold the_config at 1. cbn [fst].
    rewrite run_bind.
    change (inW generateUniqueId (fp, w))
      with ((fp, w0), (inr (idSource w (nextId w)) : string + string)).
    cbv beta iota. fold encPath. rewrite run_bind.
    unfold inW at 1, zoom, readFileSync. cbn [fst snd fs w0]. rewrite Hfile.
    cbv beta iota. rewrite run_bind.
    unfold inW at 1, zoom, emit, modify_state. cbn [fst snd]. fold wE.
    rewrite run_bind. unfold inW at 1, zoom. cbn [fst snd]. rewrite Hrun.
    cbv beta iota. rewrite run_bind.
    unfold inW, zoom, writeFileSync, modify_state. cbn [fst snd encrypted res_key res_iv].
    reflexivity. }
  eexists _, _. split; [exact Henc|]. cbn [encryptedPath er_key].
  unfold decryptFile. rewrite run_bind.
  unfold readFileSync at 1. cbn [fs set_fs]. rewrite lookup_insert_eq.
  rewrite run_bind.
  rewrite (decrypt_parts laws data k v (KeyBuffer k) enc ivArg None).
  - rewrite run_bind. unfold writeFileSync, modify_state. rewrite run_ret.
    split; [reflexivity|]. cbn. rewrite lookup_insert_eq. auto.
  - intros s0. by apply finalKeyOf_buffer.
  - by destruct ivArg.
Qed.

(** X10.  [decompressFile] undoes [compressFile]: when the compression was
    kept, decompressing the compressed file writes the original bytes. *)
Theorem decompressFile_compressFile (laws : GzipLaws) (fp : FileProcessor.t) (w w1 : World)
    (filePath outputPath compressedPath : string) (options : Options) (data : bytes)
    (size : option Z) :
  fs w !! filePath = Some data ->
  compressFile filePath options (fp, w)
    = ((fp, w1), inr {| beneficial := true; compressedPath := Some compressedPath;
                        compressedSize := size |}) ->
  exists w2 r,
    decompressFile compressedPath outputPath w1 = (w2, inr r) /\
    dec_path r = outputPath /\
    decompressedSize r = Z.of_nat (length data) /\
    (10 * dec_originalSize r < 9 * decompressedSize r)%Z /\
    fs w2 !! outputPath = Some data.
Proof.
  intros Hfile Hrun.
  rewrite (compressFile_run fp w filePath options data Hfile) in Hrun.
  destruct (gzip (num_or (compressionLevel options) 6) data) as [e|c] eqn:Hgz; [discriminate|].
  destruct (is_beneficial _ _) eqn:Hben; [|discriminate].
  injection Hrun as <- <- <-.
  unfold decompressFile. rewrite run_bind.
  unfold readFileSync at 1. cbn [fs set_fs log_event]. rewrite lookup_insert_eq.
  rewrite run_bind, (ungzip_gzip laws _ _ _ Hgz), run_ret, run_bind.
  unfold writeFileSync, modify_state. rewrite run_ret.
  eexists _, _. split; [reflexivity|]. cbn.
  rewrite lookup_insert_eq. unfold is_beneficial in Hben. repeat split; try done. lia.
Qed.

End ProcessorStages.

Lemma world_eta (w : World) :
  mkWorld (fs w) (trace w) (idSource w) (nextId w) (nextObj w) (randomSource w) (nextRandom w)
  = w.
Proof. by destruct w. Qed.

Lemma remove_if_exists_run (p : string) (w : World) :
  FileProcessor.remove_if_exists p w = (set_fs (delete p) w, inr tt).
Proof.
  unfold FileProcessor.remove_if_exists, existsSync, unlinkSync. rewrite run_bind.
  destruct (fs w !! p) as [d|] eqn:E.
  - rewrite bool_decide_eq_true_2 by eauto. by rewrite E.
  - rewrite bool_decide_eq_false_2 by (by intros [? ?]).
    rewrite run_ret. unfold set_fs. rewrite delete_id by done. by rewrite world_eta.
Qed.

Lemma remove_chunks_run (chunks : list FileProcessor.Chunk) (w : World) :
  exists w',
    FileProcessor.remove_chunks chunks w = (w', inr tt) /\
    trace w' = trace w /\
    forall p, fs w' !! p =
              if bool_decide (p ∈ map FileProcessor.path chunks) then None else fs w !! p.
Proof.
  revert w. induction chunks as [|c chunks IH]; intros w.
  - exists w. split; [reflexivity|]. split; [reflexivity|]. intros p.
    rewrite bool_decide_eq_false_2; [done|]. by intros ?%elem_of_nil.
  - cbn [FileProcessor.remove_chunks]. rewrite run_bind, remove_if_exists_run.
    destruct (IH (set_fs (delete (FileProcessor.path c)) w)) as (w' & -> & Htr & Hfs).
    exists w'. split; [reflexivity|]. split; [exact Htr|]. intros p. rewrite Hfs.
    cbn [map fs set_fs].
    destruct (decide (p = FileProcessor.path c)) as [->|Hne].
    + rewrite (bool_decide_eq_true_2 (_ ∈ _ :: _)) by (by left).
      case_bool_decide; [done|]. by rewrite lookup_delete_eq.
    + rewrite lookup_delete_ne by done.
      case_bool_decide as H1; case_bool_decide as H2; try done.
      * exfalso. apply H2. by right.
      * exfalso. apply elem_of_cons in H2 as [?|?]; done.
Qed.

Section Cleanup.
Import FileProcessor.

(** X11.  [cleanup] of a completed run removes the processed file, when that is
    not the original, and every chunk file; it forgets the queue entry;
    every other file, the deduplication cache and the trace stay as they
    are. *)
Theorem cleanup_removes_temporary_files (fp : FileProcessor.t) (w : World)
    (processingId : string) (result : FullResult) :
  processingQueue fp !! processingId = Some (QCompleted result) ->
  exists fp' w',
    cleanup processingId (fp, w) = ((fp', w'), inr tt) /\
    getProcessingStatus fp' processingId = None /\
    deduplicationCache fp' = deduplicationCache fp /\
    trace w' = trace w /\
    (processedPath result <> originalPath result -> fs w' !! processedPath result = None) /\
    (forall chunk, chunk ∈ chunks (processing result) -> fs w' !! path chunk = None) /\
    (forall p, p <> processedPath result \/ p = originalPath result ->
               p ∉ map path (chunks (processing result)) ->
               fs w' !! p = fs w !! p).
Proof.
  intros Hq. unfold cleanup. rewrite run_bind.
  unfold inFP at 1, zoom, get_state. cbn [fst snd]. rewrite Hq. rewrite run_bind.
  set (w1 := if negb (String.eqb (processedPath result) (originalPath result))
             then set_fs (delete (processedPath result)) w else w).
  assert (Hfirst :
    (if negb (String.eqb (processedPath result) (originalPath result))
     then inW (remove_if_exists (processedPath result)) else mret tt) (fp, w)
    = ((fp, w1), inr tt)).
  { subst w1. destruct (negb _); [|reflexivity].
    unfold inW, zoom. cbn [fst snd]. by rewrite remove_if_exists_run. }
  rewrite Hfirst, run_bind.
  destruct (remove_chunks_run (chunks (processing result)) w1) as (w' & Hrun & Htr & Hfs).
  unfold inW at 1, zoom. cbn [fst snd]. rewrite Hrun.
  unfold inFP, zoom, modify_state. cbn [fst snd].
  eexists _, _. split; [reflexivity|].
  unfold getProcessingStatus. cbn [processingQueue deduplicationCache].
  split; [apply lookup_delete_eq|]. split; [reflexivity|].
  assert (Htr1 : trace w1 = trace w) by (subst w1; by destruct (negb _)).
  split; [by rewrite Htr|]. split; [|split].
  - intros Hne. rewrite Hfs. case_bool_decide; [done|].
    subst w1. apply String.eqb_neq in Hne. rewrite Hne. cbn. apply lookup_delete_eq.
  - intros chunk Hin. rewrite Hfs. rewrite bool_decide_eq_true_2; [done|].
    by apply (list_elem_of_fmap_2 path).
  - intros p Hp Hnot. rewrite Hfs. rewrite bool_decide_eq_false_2 by done.
    subst w1. destruct (String.eqb (processedPath result) (originalPath result)) eqn:E; [done|].
    cbn. apply lookup_delete_ne. apply String.eqb_neq in E.
    destruct Hp as [Hp| ->]; congruence.
Qed.

End Cleanup.

(** Temporary files of different kinds have different paths. *)
Lemma compressed_path_is_no_chunk dir uid i uid' :
  path_join dir ("compressed_" +:+ uid +:+ ".gz") <> FileProcessor.chunkPathOf dir i uid'.
Proof.
  unfold FileProcessor.chunkPathOf, path_join. intros Heq.
  apply (inj (String.app dir)) in Heq. apply (inj (String.app "/")) in Heq.
  rewrite !string_app_cons in Heq. discriminate Heq.
Qed.

Lemma encrypted_path_is_no_chunk dir uid i uid' :
  path_join dir ("encrypted_" +:+ uid +:+ ".enc") <> FileProcessor.chunkPathOf dir i uid'.
Proof.
  unfold FileProcessor.chunkPathOf, path_join. intros Heq.
  apply (inj (String.app dir)) in Heq. apply (inj (String.app "/")) in Heq.
  rewrite !string_app_cons in Heq. discriminate Heq.
Qed.

Section Frames.
Context `{Digest}.
Import FileProcessor.

(** The loop of [chunkFile] writes chunk files only. *)
Lemma chunk_loop_frame (n : nat) : forall i filePath fileSize cs chunks (s s' : St) r,
  chunk_loop n i filePath fileSize cs chunks s = (s', r) ->
  forall q, (forall j uid, q <> chunkPathOf (tempDir (config s.1)) j uid) ->
            fs s'.2 !! q = fs s.2 !! q.
Proof.
  induction n as [|n IH]; intros i filePath fileSize cs chunks [fp w] s' r Hrun q Hq.
  - cbn in Hrun. by injection Hrun as <- _.
  - cbn [chunk_loop] in Hrun.
    unfold the_config, inW, zoom, calculateFileHash, writeFileSync, readFileSync,
      generateUniqueId, modify_state, mbind, M_bind, mret, M_ret in Hrun.
    cbn [fst snd fs set_fs] in Hrun.
    destruct (fs w !! filePath) as [content|] eqn:Hfile.
    + cbn [fst snd fs set_fs] in Hrun. rewrite lookup_insert_eq in Hrun.
      apply IH with (q := q) in Hrun; [|exact Hq].
      cbn [fst snd fs set_fs] in Hrun |- *. rewrite Hrun.
      apply lookup_insert_ne. intros Heq. by apply (Hq i (idSource w (nextId w))).
    + by injection Hrun as <- _.
Qed.

Lemma chunkFile_frame filePath options (s s' : St) r :
  chunkFile filePath options s = (s', r) ->
  forall q, (forall j uid, q <> chunkPathOf (tempDir (config s.1)) j uid) ->
            fs s'.2 !! q = fs s.2 !! q.
Proof.
  destruct s as [fp w]. unfold chunkFile. intros Hrun q Hq.
  rewrite run_bind in Hrun. unfold the_config at 1 in Hrun. cbn [fst] in Hrun.
  rewrite run_bind in Hrun. unfold inW at 1, zoom, statSize in Hrun. cbn [fst snd] in Hrun.
  destruct (fs w !! filePath) as [d|]; [|by injection Hrun as <- _].
  cbv beta iota in Hrun. rewrite run_bind in Hrun.
  unfold inW at 1, zoom, emit, modify_state in Hrun. cbn [fst snd] in Hrun.
  match type of Hrun with
  | context [if ?c then _ else _] => destruct c
  end.
  - by injection Hrun as <- _.
  - rewrite run_bind in Hrun.
    match type of Hrun with
    | context [chunk_loop ?n ?i ?p ?sz ?c ?l ?st] =>
        destruct (chunk_loop n i p sz c l st) as [s1 [e|a]] eqn:E
    end.
    + injection Hrun as <- _. by apply (chunk_loop_frame _ _ _ _ _ _ _ _ _ E q).
    + rewrite run_ret in Hrun. injection Hrun as <- _.
      by apply (chunk_loop_frame _ _ _ _ _ _ _ _ _ E q).
Qed.

End Frames.

Section Restore.
Context `{Digest} `{Encryption.Cipher} `{FileProcessor.Gzip}.
Import Encryption FileProcessor.

(** What [encryptFile] does on a readable file, for an accepted key. *)
Lemma encryptFile_run (laws : CipherLaws) (fp : FileProcessor.t) (w : World)
    (filePath : string) (key : option KeyArg) (data : bytes) :
  fs w !! filePath = Some data ->
  key_accepted key ->
  exists w' k v,
    let encPath := path_join (tempDir (config fp))
                     ("encrypted_" +:+ idSource w (nextId w) +:+ ".enc") in
    encryptFile filePath key (fp, w)
      = ((fp, set_fs (insert encPath
                        (v ++ cipher_authTag k v data ++ cipher_update k v data)) w'),
         inr {| encryptedPath := encPath; er_key := k; er_iv := v |}) /\
    length k = KEY_LENGTH /\ length v = IV_LENGTH /\
    fs w' = fs w.
Proof.
  intros Hfile Hkey.
  set (w0 := mkWorld (fs w) (trace w) (idSource w) (S (nextId w)) (nextObj w)
               (randomSource w) (nextRandom w)).
  set (wE := log_event (EvEncrypt filePath) w0).
  destruct (encrypt_run laws data key None wE Hkey ltac:(discriminate))
    as (w' & k & v & Hrun & Hk & Hv & _).
  exists w', k, v. cbv zeta. split; [|split; [exact Hk|split; [exact Hv|]]].
  - unfold encryptFile. rewrite run_bind. unfold the_config at 1. cbn [fst].
    rewrite run_bind.
    change (inW generateUniqueId (fp, w))
      with ((fp, w0), (inr (idSource w (nextId w)) : string + string)).
    cbv beta iota. rewrite run_bind.
    unfold inW at 1, zoom, readFileSync. cbn [fst snd fs w0]. rewrite Hfile.
    cbv beta iota. rewrite run_bind.
    unfold inW at 1, zoom, emit, modify_state. cbn [fst snd]. fold wE.
    rewrite run_bind. unfold inW at 1, zoom. cbn [fst snd]. rewrite Hrun.
    cbv beta iota. rewrite run_bind.
    unfold inW, zoom, writeFileSync, modify_state. cbn [fst snd encrypted res_key res_iv].
    reflexivity.
  - revert Hrun. unfold encrypt. rewrite run_try_catch, run_bind.
    destruct key as [[s|b]|]; cbn [key_truthy default id negb].
    + destruct (String.eqb s ""); cbn [negb].
      * unfold generateKey, generateIV, randomBytes, finalKeyOf.
        rewrite run_bind. cbv beta iota. rewrite run_ret, run_bind.
        cbv beta iota. rewrite run_bind.
        destruct (Nat.eqb _ _); [|discriminate]. rewrite !run_ret. by intros [= <- _].
      * unfold generateIV, randomBytes, finalKeyOf.
        rewrite run_ret, run_bind. cbv beta iota. rewrite run_bind, !run_ret.
        by intros [= <- _].
    + unfold generateIV, randomBytes, finalKeyOf, id.
      rewrite run_ret, run_bind. cbv beta iota. rewrite run_bind.
      destruct (Nat.eqb _ _); [|discriminate]. rewrite !run_ret. by intros [= <- _].
    + unfold generateKey, generateIV, randomBytes, finalKeyOf.
      rewrite run_bind. cbv beta iota. rewrite run_ret, run_bind.
      cbv beta iota. rewrite run_bind.
      destruct (Nat.eqb _ _); [|discriminate]. rewrite !run_ret. by intros [= <- _].
Qed.

(** The file that goes on after step 4 holds the original bytes, or their
    compressed form when the compression was kept. *)
Lemma compressionStep_content (fp : FileProcessor.t) (w : World) (filePath : string)
    (options : Options) (data : bytes) (st : St) (p2 : string) (compressed : bool) :
  fs w !! filePath = Some data ->
  (forall i uid, filePath <> chunkPathOf (tempDir (config fp)) i uid) ->
  compressionStep filePath (Z.of_nat (length data)) options (fp, w)
    = (st, inr (p2, compressed)) ->
  st.1 = fp /\
  (forall i uid, p2 <> chunkPathOf (tempDir (config fp)) i uid) /\
  exists x, fs st.2 !! p2 = Some x /\
            if compressed then gzip (num_or (compressionLevel options) 6) data = inr x
            else x = data.
Proof.
  intros Hfile Hpath. unfold compressionStep. rewrite run_bind.
  unfold the_config at 1. cbn [fst].
  destruct (enableCompression (config fp) && _).
  - rewrite run_bind, (compressFile_run fp w filePath options data Hfile).
    destruct (gzip (num_or (compressionLevel options) 6) data) as [e|c] eqn:Hgz.
    + cbn. intros [= <- <- <-]. split; [done|]. split; [done|]. eauto.
    + destruct (is_beneficial _ _); cbn.
      * intros [= <- <- <-]. split; [done|].
        split; [intros i uid; apply compressed_path_is_no_chunk|].
        exists c. cbn. by rewrite lookup_insert_eq.
      * intros [= <- <- <-]. split; [done|]. split; [done|]. eauto.
  - rewrite run_ret. intros [= <- <- <-]. split; [done|]. split; [done|]. eauto.
Qed.

(** The processed file of a result holds the bytes that went through the
    stages the result names. *)
Lemma runStages_content (laws : CipherLaws) (pid filePath h : string) (options : Options)
    (fp : FileProcessor.t) (w : World) (s' : St) (r : FullResult) (data : bytes) :
  fs w !! filePath = Some data ->
  key_accepted (encryptionKey options) ->
  (forall i uid, filePath <> chunkPathOf (tempDir (config fp)) i uid) ->
  runStages pid filePath h options (fp, w) = (s', inr (Processed r)) ->
  exists x,
    (if compressed (processing r)
     then gzip (num_or (compressionLevel options) 6) data = inr x else x = data) /\
    (if encrypted (processing r)
     then exists k v,
            proc_encryptionKey (processing r) = Some k /\
            proc_encryptionIv (processing r) = Some v /\
            length k = KEY_LENGTH /\ length v = IV_LENGTH /\
            fs s'.2 !! processedPath r
              = Some (v ++ cipher_authTag k v x ++ cipher_update k v x)
     else proc_encryptionKey (processing r) = None /\
          fs s'.2 !! processedPath r = Some x).
Proof.
  intros Hfile Hkey Hpath. unfold runStages. intros Hrun.
  rewrite run_bind in Hrun. unfold the_config at 1 in Hrun. cbn [fst] in Hrun.
  rewrite run_bind in Hrun.
  assert (Hstat : inW (statSize filePath) (fp, w) = ((fp, w), inr (Z.of_nat (length data)))).
  { unfold inW, zoom, statSize. cbn [fst snd]. by rewrite Hfile. }
  rewrite Hstat in Hrun. cbv beta iota in Hrun. rewrite run_bind in Hrun.
  destruct (compressionStep filePath (Z.of_nat (length data)) options (fp, w))
    as [[fp2 w2] [e|[p2 compressed]]] eqn:E2; [discriminate|].
  destruct (compressionStep_content fp w filePath options data _ _ _ Hfile Hpath E2)
    as (Hfp2 & Hp2 & x & Hx & Hcomp).
  cbn [fst snd] in Hfp2, Hx. subst fp2.
  cbv beta iota in Hrun. rewrite run_bind in Hrun.
  (* step 5 *)
  assert (Hstep5 : exists w3 p3 enc key iv,
    (if enableEncryption (config fp) && negb (bool_decide (encrypt_opt options = Some false))
     then
       encryptionResult ← encryptFile p2 (encryptionKey options);
       mret (encryptedPath encryptionResult, true,
             Some (er_key encryptionResult), Some (er_iv encryptionResult))
     else mret (p2, false, None, None)) (fp, w2) = ((fp, w3), inr (p3, enc, key, iv)) /\
    (forall i uid, p3 <> chunkPathOf (tempDir (config fp)) i uid) /\
    (if enc
     then exists k v, key = Some k /\ iv = Some v /\
                      length k = KEY_LENGTH /\ length v = IV_LENGTH /\
                      fs w3 !! p3 = Some (v ++ cipher_authTag k v x ++ cipher_update k v x)
     else key = None /\ fs w3 !! p3 = Some x)).
  { destruct (enableEncryption (config fp) && _).
    - destruct (encryptFile_run laws fp w2 p2 (encryptionKey options) x Hx Hkey)
        as (w' & k & v & Henc & Hk & Hv & _).
      cbv zeta in Henc. rewrite run_bind, Henc, run_ret.
      eexists _, _, _, _, _. split; [reflexivity|]. cbn [encryptedPath er_key er_iv].
      split; [intros i uid; apply encrypted_path_is_no_chunk|].
      exists k, v. cbn. by rewrite lookup_insert_eq.
    - rewrite run_ret. eexists _, _, _, _, _. split; [reflexivity|]. auto. }
  destruct Hstep5 as (w3 & p3 & enc & key & iv & Hstep5 & Hp3 & Hcontent).
  rewrite Hstep5 in Hrun. cbv beta iota in Hrun.
  rewrite run_bind in Hrun.
  destruct (inW (statSize p3) (fp, w3)) as [s4 [e|finalSize]] eqn:E4; [discriminate|].
  assert (Hs4 : s4 = (fp, w3)).
  { unfold inW, zoom, statSize in E4. cbn [fst snd] in E4.
    destruct (fs w3 !! p3); by simplify_eq. }
  subst s4. rewrite run_bind in Hrun.
  match type of Hrun with
  | context [if ?c then ?a else ?b] =>
      destruct ((if c then a else b) (fp, w3)) as [s5 [e|[chunks chunked]]] eqn:E5
  end; [discriminate|].
  assert (Hs5 : s5.1 = fp /\ fs s5.2 !! p3 = fs w3 !! p3).
  { destruct (chunkSize (config fp) <? finalSize)%Z.
    - rewrite run_bind in E5.
      destruct (chunkFile p3 options (fp, w3)) as [s5' [e|cr]] eqn:E; [discriminate|].
      cbv beta iota in E5. rewrite run_ret in E5. assert (s5' = s5) as <- by congruence.
      split; [apply (keeps_chunkFile _ _ _ _ _ E)|].
      by apply (chunkFile_frame _ _ _ _ _ E).
    - rewrite run_ret in E5. assert ((fp, w3) = s5) as <- by congruence. done. }
  destruct s5 as [fp5 w5]. cbn [fst snd] in Hs5. destruct Hs5 as [-> Hfs5].
  cbv beta iota in Hrun. rewrite run_bind in Hrun.
  destruct (inW (calculateFileHash p3) (fp, w5)) as [s6 [e|fh]] eqn:E6; [discriminate|].
  assert (Hs6 : s6 = (fp, w5) /\ exists final, fs w5 !! p3 = Some final).
  { unfold inW, zoom, calculateFileHash, readFileSync in E6. rewrite run_bind in E6.
    cbn [fst snd] in E6. destruct (fs w5 !! p3); [|discriminate].
    rewrite run_ret in E6. injection E6 as <- _. eauto. }
  destruct Hs6 as (-> & final & Hfinal).
  rewrite run_bind in Hrun.
  assert (Hend : s'.2 = w5 /\ processedPath r = p3 /\
                 compressed = FileProcessor.compressed (processing r) /\
                 enc = encrypted (processing r) /\
                 key = proc_encryptionKey (processing r) /\
                 iv = proc_encryptionIv (processing r)).
  { destruct (enableDeduplication (config fp));
      unfold inFP, zoom, modify_state in Hrun; cbn in Hrun;
      injection Hrun as <- <-; cbn; auto 10. }
  destruct Hend as (-> & -> & <- & <- & <- & <-).
  exists x. split; [exact Hcomp|]. rewrite Hfs5.
  destruct enc; [|exact Hcontent].
  destruct Hcontent as (k & v & -> & -> & Hk & Hv & Hc). exists k, v. auto.
Qed.

(** X12.  What [processFile] made of a file can be turned back into the file:
    decrypting the processed file under the recorded key (when the result
    is encrypted) and decompressing it (when the result is compressed)
    yields the original bytes. *)
Theorem restoreFile_processFile (claws : CipherLaws) (glaws : GzipLaws)
    (fp fp1 : FileProcessor.t) (w w1 : World) (filePath plainPath outputPath : string)
    (options : Options) (data : bytes) (r : FullResult) :
  fs w !! filePath = Some data ->
  key_accepted (encryptionKey options) ->
  (forall i uid, filePath <> chunkPathOf (tempDir (config fp)) i uid) ->
  processFile filePath options (fp, w) = ((fp1, w1), inr (Processed r)) ->
  exists w2 p,
    Usage.restoreFile r plainPath outputPath w1 = (w2, inr p) /\
    fs w2 !! p = Some data.
Proof.
  intros Hfile Hkey Hpath Hrun.
  destruct (processFile_stages filePath options fp fp1 w w1 data r Hfile Hrun)
    as [_ Hstages].
  apply (runStages_content claws) with (data := data) in Hstages; [|done..].
  destruct Hstages as (x & Hcomp & Hcontent). cbn [fst snd] in Hcontent.
  unfold Usage.restoreFile. rewrite run_bind.
  assert (Hdecomp : forall (w' : World) (p : string),
            fs w' !! p = Some x ->
            exists w2 p',
              (if compressed (processing r)
               then _ ← decompressFile p outputPath; mret outputPath
               else mret p) w' = (w2, inr p') /\ fs w2 !! p' = Some data).
  { intros w' p Hp. destruct (compressed (processing r)).
    - rewrite run_bind. unfold decompressFile. rewrite run_bind.
      unfold readFileSync at 1. rewrite Hp.
      rewrite run_bind, (ungzip_gzip glaws _ _ _ Hcomp), run_ret, run_bind.
      unfold writeFileSync, modify_state. rewrite !run_ret.
      eexists _, _. split; [reflexivity|]. cbn. by rewrite lookup_insert_eq.
    - subst x. rewrite run_ret. eauto. }
  destruct (encrypted (processing r)).
  - destruct Hcontent as (k & v & Hk & Hv & Hklen & Hvlen & Hfs).
    rewrite Hk, Hv. rewrite run_bind.
    unfold decryptFile. rewrite run_bind. unfold readFileSync at 1. rewrite Hfs.
    rewrite run_bind.
    rewrite (decrypt_parts claws x k v (KeyBuffer k) _ (Some v) None);
      [|intros s0; by apply finalKeyOf_buffer|done].
    rewrite run_bind. unfold writeFileSync at 1, modify_state. rewrite !run_ret.
    apply Hdecomp. cbn. by rewrite lookup_insert_eq.
  - destruct Hcontent as [_ Hfs]. rewrite run_ret. by apply Hdecomp.
Qed.

End Restore.

Section ChunkOrder.
Import FileProcessor.

Lemma insert_chunk_perm (c : Chunk) (l : list Chunk) : insert_chunk c l ≡ₚ c :: l.
Proof.
  induction l as [|d l IH]; [reflexivity|]. cbn [insert_chunk].
  destruct (index c <? index d)%Z; [reflexivity|].
  rewrite IH. apply Permutation_swap.
Qed.

Lemma insert_chunk_sorted (c : Chunk) (l : list Chunk) :
  StronglySorted (fun c d : Chunk => (index c < index d)%Z) l ->
  Forall (fun d => index d <> index c) l ->
  StronglySorted (fun c d : Chunk => (index c < index d)%Z) (insert_chunk c l).
Proof.
  induction l as [|d l IH]; intros Hs Hne; cbn [insert_chunk].
  - repeat constructor.
  - apply StronglySorted_inv in Hs as [Hs Hd].
    apply Forall_cons in Hne as [Hdc Hne].
    destruct (index c <? index d)%Z eqn:E.
    + apply Z.ltb_lt in E. constructor; [by constructor|].
      constructor; [exact E|]. eapply Forall_impl; [exact Hd|]. cbn. intros; lia.
    + apply Z.ltb_ge in E. constructor; [by apply IH|].
      rewrite insert_chunk_perm. constructor; [lia|exact Hd].
Qed.

Lemma sort_chunks_sorted (l : list Chunk) :
  NoDup (map index l) ->
  StronglySorted (fun c d : Chunk => (index c < index d)%Z) (sort_chunks l) /\
  sort_chunks l ≡ₚ l.
Proof.
  unfold sort_chunks.
  assert (Hgen : forall acc,
            StronglySorted (fun c d : Chunk => (index c < index d)%Z) acc ->
            NoDup (map index (acc ++ l)) ->
            StronglySorted (fun c d : Chunk => (index c < index d)%Z)
              (foldl (fun acc c => insert_chunk c acc) acc l) /\
            foldl (fun acc c => insert_chunk c acc) acc l ≡ₚ acc ++ l).
  { induction l as [|c l IH]; intros acc Hs Hnd; cbn [foldl].
    - by rewrite app_nil_r.
    - assert (Hnd' : NoDup (map index (insert_chunk c acc ++ l))).
      { eapply NoDup_Permutation_proper; [|exact Hnd].
        apply fmap_Permutation. rewrite insert_chunk_perm.
        by rewrite (Permutation_middle acc l c). }
      destruct (IH (insert_chunk c acc)) as [Hs' Hp']; [|exact Hnd'|].
      + apply insert_chunk_sorted; [exact Hs|].
        rewrite map_app in Hnd. cbn [map] in Hnd.
        apply NoDup_app in Hnd as (_ & Hdisj & _).
        apply Forall_forall. intros d Hd Heq.
        apply (Hdisj (index d)); [by apply (list_elem_of_fmap_2 index)|].
        rewrite Heq. by left.
      + split; [exact Hs'|]. rewrite Hp', insert_chunk_perm.
        by rewrite (Permutation_middle acc l c). }
  intros Hnd. apply (Hgen []); [constructor|exact Hnd].
Qed.

(** X13.  The chunks can be handed to [reconstructFile] in any order: for
    chunks of pairwise different indices the outcome depends on the chunks
    only, not on their order in the array. *)
Theorem reconstructFile_any_order (chunks chunks' : list Chunk) (outputPath : string)
    (w : World) :
  NoDup (map index chunks) ->
  chunks' ≡ₚ chunks ->
  reconstructFile chunks' outputPath w = reconstructFile chunks outputPath w.
Proof.
  intros Hnd Hperm.
  assert (Hnd' : NoDup (map index chunks')).
  { eapply NoDup_Permutation_proper; [|exact Hnd]. by apply fmap_Permutation. }
  destruct (sort_chunks_sorted chunks Hnd) as [Hs Hp].
  destruct (sort_chunks_sorted chunks' Hnd') as [Hs' Hp'].
  unfold reconstructFile.
  replace (sort_chunks chunks') with (sort_chunks chunks); [reflexivity|].
  apply (StronglySorted_unique_strong (fun c d : Chunk => (index c < index d)%Z));
    [|exact Hs|exact Hs'|].
  - intros x1 x2 _ _ H1 H2. lia.
  - by rewrite Hp, Hp'.
Qed.

End ChunkOrder.

Lemma packGzip_laws : FileProcessor.GzipLaws (H := Examples.packGzip).
Proof.
  split. intros level d c. cbn. intros [= <-].
  unfold Examples.packRun.
  destruct d as [|b d]; [reflexivity|].
  case_bool_decide as Hrun; [|reflexivity].
  destruct (Byte.of_N (N.of_nat (length (b :: d)))) as [n|] eqn:En; [|reflexivity].
  cbn. apply Byte.to_of_N in En. rewrite En, Nat2N.id. by rewrite <- Hrun.
Qed.

(** A path at which there is no file. *)
Lemma processFile_invalid_witness :
  exists fp' w',
    FileProcessor.processFile (H := Examples.nodeDigest) (H0 := Examples.toyCipher)
      (H1 := Examples.toyGzip) "temp/none" Examples.plainOptions
      (Examples.processor0, Examples.helloWorld)
    = ((fp', w'), inl "File validation failed: File does not exist") /\
    fs w' = fs Examples.helloWorld /\ trace w' = [].
Proof.
  destruct (processFile_rejects_invalid_file (H := Examples.nodeDigest) (H0 := Examples.toyCipher)
      (H1 := Examples.toyGzip) "temp/none" Examples.plainOptions
              Examples.processor0 Examples.helloWorld eq_refl)
    as (fp' & w' & Hrun & _ & _ & _ & Hfs & Htrace).
  exists fp', w'. split; [exact Hrun|]. split; [exact Hfs | exact Htrace].
Defined.

(** ["hello"] encrypted into a file under a generated key and decrypted
    into another file. *)
Lemma decryptFile_witness :
  exists w1 r w2 d,
    FileProcessor.encryptFile (H := Examples.toyCipher) "temp/u1" None
      (Examples.processor0, Examples.helloWorld)
      = ((Examples.processor0, w1), inr r) /\
    FileProcessor.decryptFile (H := Examples.toyCipher) (FileProcessor.encryptedPath r) "temp/plain"
      (Encryption.KeyBuffer (FileProcessor.er_key r)) None w1 = (w2, inr d) /\
    fs w2 !! "temp/plain" = Some Examples.hello.
Proof.
  destruct (decryptFile_encryptFile (H0 := Examples.toyCipher) toyCipher_laws
              Examples.processor0 Examples.helloWorld
              "temp/u1" "temp/plain" None None Examples.hello eq_refl I)
    as (w1 & r & w2 & d & Henc & Hdec & _ & _ & Hfs).
  exists w1, r, w2, d. auto.
Defined.

(** Ten equal bytes, compressed to three and decompressed again. *)
Lemma decompressFile_witness :
  exists w1 compressedPath size w2 r,
    FileProcessor.compressFile (H := Examples.packGzip) "temp/u3" Examples.plainOptions
      (Examples.processorSmall, Examples.repetitiveWorld)
    = ((Examples.processorSmall, w1),
       inr {| FileProcessor.beneficial := true;
              FileProcessor.compressedPath := Some compressedPath;
              FileProcessor.compressedSize := size |}) /\
    FileProcessor.decompressFile (H := Examples.packGzip) compressedPath "temp/out" w1
      = (w2, inr r) /\
    fs w2 !! "temp/out" = Some Examples.tenAs.
Proof.
  destruct (FileProcessor.compressFile (H := Examples.packGzip) "temp/u3" Examples.plainOptions
              (Examples.processorSmall, Examples.repetitiveWorld))
    as [[fp1 w1] [e|[b [cp|] cs]]] eqn:Hrun;
    try (vm_compute in Hrun; discriminate Hrun).
  assert (fp1 = Examples.processorSmall /\ b = true) as [-> ->].
  { vm_compute in Hrun. injection Hrun as <- _ <- _ _. split; reflexivity. }
  destruct (decompressFile_compressFile (H1 := Examples.packGzip) packGzip_laws
              Examples.processorSmall Examples.repetitiveWorld w1 "temp/u3" "temp/out" cp
              Examples.plainOptions Examples.tenAs cs eq_refl Hrun)
    as (w2 & r & Hdec & _ & _ & _ & Hfs).
  exists w1, cp, cs, w2, r. auto.
Defined.

(** The first of the two files, processed and then cleaned up. *)
Lemma cleanup_witness :
  exists r fp' w',
    Examples.firstResult = Some r /\
    FileProcessor.cleanup (FileProcessor.processingId r) Examples.afterFirst
      = ((fp', w'), inr tt) /\
    fs w' !! FileProcessor.processedPath r = None /\
    fs w' !! "temp/u1" = Some Examples.hello.
Proof.
  destruct Examples.firstResult as [r|] eqn:E; [|discriminate E].
  destruct (cleanup_removes_temporary_files Examples.afterFirst.1 Examples.afterFirst.2
              (FileProcessor.processingId r) r)
    as (fp' & w' & Hrun & _ & _ & _ & Hgone & _ & Hkept).
  - injection E as <-. reflexivity.
  - exists r, fp', w'. split; [reflexivity|]. split; [exact Hrun|]. split.
    + apply Hgone. injection E as <-. discriminate.
    + rewrite (Hkept "temp/u1").
      * reflexivity.
      * right. injection E as <-. reflexivity.
      * injection E as <-. cbn. apply not_elem_of_nil.
Defined.

(** Ten equal bytes, compressed and encrypted by [processFile] and
    restored from the processed file. *)
Lemma restoreFile_witness :
  exists fp1 w1 r w2 p,
    FileProcessor.processFile (H := Examples.nodeDigest) (H0 := Examples.toyCipher)
      (H1 := Examples.packGzip) "temp/u3" Examples.plainOptions
      (Examples.processorFull, Examples.repetitiveWorld)
    = ((fp1, w1), inr (FileProcessor.Processed r)) /\
    FileProcessor.compressed (FileProcessor.processing r) = true /\
    FileProcessor.encrypted (FileProcessor.processing r) = true /\
    Usage.restoreFile (H := Examples.toyCipher) (H0 := Examples.packGzip) r
      "temp/plain" "temp/out" w1 = (w2, inr p) /\
    fs w2 !! p = Some Examples.tenAs.
Proof.
  destruct (FileProcessor.processFile (H := Examples.nodeDigest) (H0 := Examples.toyCipher)
              (H1 := Examples.packGzip) "temp/u3" Examples.plainOptions
              (Examples.processorFull, Examples.repetitiveWorld))
    as [[fp1 w1] [e|[pid h d|r]]] eqn:Hrun;
    try (vm_compute in Hrun; discriminate Hrun).
  destruct (restoreFile_processFile (H := Examples.nodeDigest) (H0 := Examples.toyCipher)
              (H1 := Examples.packGzip) toyCipher_laws packGzip_laws
              Examples.processorFull fp1 Examples.repetitiveWorld w1
              "temp/u3" "temp/plain" "temp/out" Examples.plainOptions Examples.tenAs r
              eq_refl I)
    as (w2 & p & Hrestore & Hfs).
  - intros i uid E. discriminate E.
  - exact Hrun.
  - exists fp1, w1, r, w2, p. split; [reflexivity|].
    split; [vm_compute in Hrun; by injection Hrun as _ _ <-|].
    split; [vm_compute in Hrun; by injection Hrun as _ _ <-|].
    split; [exact Hrestore | exact Hfs].
Defined.

(** Two chunks, handed over in reverse order. *)
Lemma reconstructFile_order_witness :
  let c0 := {| FileProcessor.index := 0; FileProcessor.path := "temp/c0";
               FileProcessor.size := 2; FileProcessor.hash := "";
               FileProcessor.start := 0; FileProcessor.end_ := 2 |} in
  let c1 := {| FileProcessor.index := 1; FileProcessor.path := "temp/c1";
               FileProcessor.size := 2; FileProcessor.hash := "";
               FileProcessor.start := 2; FileProcessor.end_ := 4 |} in
  FileProcessor.reconstructFile [c1; c0] "temp/out" Examples.helloWorld
  = FileProcessor.reconstructFile [c0; c1] "temp/out" Examples.helloWorld.
Proof.
  intros c0 c1. apply reconstructFile_any_order.
  - cbn. apply NoDup_cons. split; [|apply NoDup_singleton].
    intros Hin. apply list_elem_of_singleton in Hin. discriminate Hin.
  - apply perm_swap.
Defined.

(** ** Downloads, deletions, health checks and copies *)

Section DownloadEffects.
Context `{Digest}.
Import Provider ProviderManager.

(** What one provider download does to the environment and what its
    result says. *)
Lemma provider_download_effects (p : Provider.t) (key downloadPath : string)
    (options : DownloadOptions) (w w' : World) (res : string + DownloadResult) :
  Provider.download p key downloadPath options w = (w', res) ->
  (trace w' = trace w \/ trace w' = trace w ++ [EvGet (name p) key]) /\
  (forall q, q <> downloadPath -> fs w' !! q = fs w !! q) /\
  match res with
  | inl _ => fs w' !! downloadPath = fs w !! downloadPath \/ fs w' !! downloadPath = None
  | inr r =>
      exists d h,
        s3_getObject (s3 p) key = inr d /\ s3_headObject (s3 p) key = inr h /\
        fs w' !! downloadPath = Some d /\
        dl_path r = downloadPath /\ dl_provider r = name p /\
        dl_hash r = sha256 d /\ dl_size r = Z.of_nat (length d) /\
        integrity r = hash_matches (sha256 d) (head_fileHash h) /\
        (strictIntegrity options = true -> integrity r = true)
  end.
Proof.
  unfold Provider.download, calculateFileHash, writeFileSync, unlinkSync, readFileSync,
    emit, modify_state, try_catch, throw, mbind, M_bind, mret, M_ret.
  destruct (isConnected p); cbn [negb].
  2:{ intros [= <- <-]. auto. }
  destruct (s3_headObject (s3 p) key) as [e|h].
  { intros [= <- <-]. auto. }
  destruct (s3_getObject (s3 p) key) as [e|d].
  { intros [= <- <-]. cbn. auto. }
  cbn [fs set_fs log_event]. rewrite lookup_insert_eq.
  destruct (hash_matches (sha256 d) (head_fileHash h)) eqn:Hm; cbn [negb andb].
  - intros [= <- <-]. cbn. split; [auto|]. split.
    + intros q Hq. by rewrite lookup_insert_ne.
    + exists d, h. rewrite lookup_insert_eq. rewrite Hm. auto 10.
  - destruct (strictIntegrity options) eqn:Hs.
    + cbn [fs set_fs log_event]. rewrite lookup_insert_eq.
      intros [= <- <-]. cbn. split; [auto|]. split.
      * intros q Hq. by rewrite lookup_delete_ne, lookup_insert_ne.
      * right. apply lookup_delete_eq.
    + intros [= <- <-]. cbn. split; [auto|]. split.
      * intros q Hq. by rewrite lookup_insert_ne.
      * exists d, h. rewrite lookup_insert_eq, Hm. split_and!; auto; discriminate.
Qed.

Lemma try_keys_effects (prov : Provider.t) (keys : list string) (downloadPath : string)
    (options : DownloadOptions) (w w' : World) (res : string + option DownloadResult) :
  try_keys prov keys downloadPath options w = (w', res) ->
  (exists evs, trace w' = trace w ++ evs /\
               Forall (fun e => exists key, e = EvGet (name prov) key /\ key ∈ keys) evs) /\
  (forall q, q <> downloadPath -> fs w' !! q = fs w !! q) /\
  match res with
  | inl _ => False
  | inr None => fs w' !! downloadPath = fs w !! downloadPath \/ fs w' !! downloadPath = None
  | inr (Some r) =>
      exists key d h,
        key ∈ keys /\
        s3_getObject (s3 prov) key = inr d /\ s3_headObject (s3 prov) key = inr h /\
        fs w' !! downloadPath = Some d /\
        dl_path r = downloadPath /\ dl_provider r = name prov /\
        dl_hash r = sha256 d /\ dl_size r = Z.of_nat (length d) /\
        integrity r = hash_matches (sha256 d) (head_fileHash h) /\
        (strictIntegrity options = true -> integrity r = true)
  end.
Proof.
  revert w. induction keys as [|key keys IH]; intros w.
  - cbn. intros [= <- <-]. split; [exists []; by rewrite app_nil_r|]. auto.
  - cbn [try_keys]. rewrite run_try_catch, run_bind.
    destruct (Provider.download prov key downloadPath options w) as [w1 [e|r]] eqn:E;
      apply provider_download_effects in E as (Htr & Hfr & Hres).
    + intros Hrest. apply IH in Hrest as ((evs & Hevs & Hall) & Hfr' & Hres').
      split; [|split].
      * destruct Htr as [Htr|Htr]; rewrite Htr in Hevs.
        -- exists evs. split; [exact Hevs|].
           eapply Forall_impl; [exact Hall|]. intros e0 (k & -> & Hk). exists k.
           split; [done|]. by right.
        -- exists (EvGet (name prov) key :: evs). rewrite <- app_assoc in Hevs.
           split; [exact Hevs|]. constructor.
           ++ exists key. split; [done|]. by left.
           ++ eapply Forall_impl; [exact Hall|]. intros e0 (k & -> & Hk). exists k.
              split; [done|]. by right.
      * intros q Hq. by rewrite Hfr', Hfr.
      * destruct res as [e'|[r|]]; [done| |].
        -- destruct Hres' as (k & d & h & Hk & Hrest'). exists k, d, h.
           split; [by right|exact Hrest'].
        -- destruct Hres' as [Hsame|Hnone]; [|by right].
           rewrite Hsame. exact Hres.
    + rewrite run_ret. intros [= <- <-]. split; [|split; [exact Hfr|]].
      * destruct Htr as [Htr|Htr]; rewrite Htr.
        -- exists []. by rewrite app_nil_r.
        -- eexists. split; [reflexivity|]. constructor; [|constructor].
           exists key. split; [done|]. by left.
      * destruct Hres as (d & h & Hrest). exists key, d, h. split; [by left|exact Hrest].
Qed.

Lemma download_from_effects (pm : ProviderManager.t) (provs : list (string * Provider.t))
    (fileId downloadPath : string) (options : DownloadOptions) :
  forall (attempts : list (string * string)) (w w' : World) (res : string + DownloadResult),
  download_from pm provs fileId downloadPath options attempts w = (w', res) ->
  (exists evs, trace w' = trace w ++ evs /\
     Forall (fun e => exists providerName prov key,
                        e = EvGet (name prov) key /\ (providerName, prov) ∈ provs /\
                        isProviderHealthy pm providerName = true /\
                        key ∈ generatePossibleKeys fileId options) evs) /\
  (forall q, q <> downloadPath -> fs w' !! q = fs w !! q) /\
  match res with
  | inl _ => fs w' !! downloadPath = fs w !! downloadPath \/ fs w' !! downloadPath = None
  | inr r =>
      exists providerName prov key d h,
        (providerName, prov) ∈ provs /\ isProviderHealthy pm providerName = true /\
        key ∈ generatePossibleKeys fileId options /\
        s3_getObject (s3 prov) key = inr d /\ s3_headObject (s3 prov) key = inr h /\
        fs w' !! downloadPath = Some d /\
        dl_path r = downloadPath /\ dl_provider r = name prov /\
        dl_hash r = sha256 d /\ dl_size r = Z.of_nat (length d) /\
        integrity r = hash_matches (sha256 d) (head_fileHash h) /\
        (strictIntegrity options = true -> integrity r = true)
  end.
Proof.
  induction provs as [|[providerName prov] provs IH]; intros attempts w w' res Hrun.
  - cbn in Hrun. injection Hrun as <- <-.
    split; [exists []; by rewrite app_nil_r|]. auto.
  - cbn [download_from] in Hrun.
    assert (Hlift : forall attempts0 w0,
      download_from pm provs fileId downloadPath options attempts0 w0 = (w', res) ->
      (exists evs, trace w' = trace w0 ++ evs /\
         Forall (fun e => exists pn prov0 key,
                   e = EvGet (name prov0) key /\ (pn, prov0) ∈ (providerName, prov) :: provs /\
                   isProviderHealthy pm pn = true /\
                   key ∈ generatePossibleKeys fileId options) evs) /\
      (forall q, q <> downloadPath -> fs w' !! q = fs w0 !! q) /\
      match res with
      | inl _ => fs w' !! downloadPath = fs w0 !! downloadPath \/ fs w' !! downloadPath = None
      | inr r =>
          exists pn prov0 key d h,
            (pn, prov0) ∈ (providerName, prov) :: provs /\ isProviderHealthy pm pn = true /\
            key ∈ generatePossibleKeys fileId options /\
            s3_getObject (s3 prov0) key = inr d /\ s3_headObject (s3 prov0) key = inr h /\
            fs w' !! downloadPath = Some d /\
            dl_path r = downloadPath /\ dl_provider r = name prov0 /\
            dl_hash r = sha256 d /\ dl_size r = Z.of_nat (length d) /\
            integrity r = hash_matches (sha256 d) (head_fileHash h) /\
            (strictIntegrity options = true -> integrity r = true)
      end).
    { intros attempts0 w0 Hrest.
      apply IH in Hrest as ((evs & Hevs & Hall) & Hfr & Hres). split; [|split; [exact Hfr|]].
      - exists evs. split; [exact Hevs|]. eapply Forall_impl; [exact Hall|].
        intros e (pn & p0 & k & -> & Hin & Hh & Hk). exists pn, p0, k.
        split; [done|]. split; [by right|]. done.
      - destruct res as [e|r]; [exact Hres|].
        destruct Hres as (pn & p0 & k & d & h & Hin & Hrest').
        exists pn, p0, k, d, h. split; [by right|exact Hrest']. }
    destruct (isProviderHealthy pm providerName) eqn:Hh; cbn [negb] in Hrun.
    2:{ by apply Hlift in Hrun. }
    rewrite run_bind, run_try_catch, run_bind in Hrun.
    destruct (try_keys prov (generatePossibleKeys fileId options) downloadPath options w)
      as [w1 [e|[r|]]] eqn:E;
      apply try_keys_effects in E as ((evs1 & Hevs1 & Hall1) & Hfr1 & Hres1); [done| |].
    + rewrite !run_ret in Hrun. injection Hrun as <- <-. split; [|split; [exact Hfr1|]].
      * exists evs1. split; [exact Hevs1|]. eapply Forall_impl; [exact Hall1|].
        intros e (k & -> & Hk). exists providerName, prov, k.
        split; [done|]. split; [by left|]. done.
      * destruct Hres1 as (k & d & h & Hk & Hrest). exists providerName, prov, k, d, h.
        split; [by left|]. split; [exact Hh|]. split; [exact Hk|exact Hrest].
    + rewrite !run_ret in Hrun. apply Hlift in Hrun as ((evs & Hevs & Hall) & Hfr & Hres).
      split; [|split].
      * exists (evs1 ++ evs). rewrite Hevs, Hevs1, app_assoc. split; [done|].
        apply Forall_app. split; [|exact Hall]. eapply Forall_impl; [exact Hall1|].
        intros e (k & -> & Hk). exists providerName, prov, k.
        split; [done|]. split; [by left|]. done.
      * intros q Hq. by rewrite Hfr, Hfr1.
      * destruct res as [e|r]; [|exact Hres].
        destruct Hres as [Hsame|Hnone]; [|by right]. rewrite Hsame. exact Hres1.
Qed.

(** X14.  [download] fetches objects from healthy providers only, under the
    possible keys of the file, and writes no file but the download path. *)
Theorem download_contacts_healthy_providers_only (pm : ProviderManager.t)
    (fileId downloadPath : string) (options : DownloadOptions) (w : World) :
  exists evs,
    trace (download pm fileId downloadPath options w).1 = trace w ++ evs /\
    Forall (fun e => exists providerName prov key,
                       e = EvGet (name prov) key /\
                       (providerName, prov) ∈ providers pm /\
                       isProviderHealthy pm providerName = true /\
                       key ∈ generatePossibleKeys fileId options) evs /\
    forall q, q <> downloadPath ->
              fs (download pm fileId downloadPath options w).1 !! q = fs w !! q.
Proof.
  destruct (download pm fileId downloadPath options w) as [w' res] eqn:E.
  unfold download, JsMap.entries in E.
  apply download_from_effects in E as ((evs & Hevs & Hall) & Hfr & _).
  exists evs. auto.
Qed.

(** X15.  A result of [download] describes the bytes it left at the download
    path: they are the object a healthy provider served under one of the
    possible keys, [hash] and [size] are theirs, and [integrity] tells
    whether they hash to the recorded hash. *)
Theorem download_result_is_truthful (pm : ProviderManager.t) (fileId downloadPath : string)
    (options : DownloadOptions) (w w' : World) (r : DownloadResult) :
  download pm fileId downloadPath options w = (w', inr r) ->
  exists providerName prov key d h,
    (providerName, prov) ∈ providers pm /\
    isProviderHealthy pm providerName = true /\
    key ∈ generatePossibleKeys fileId options /\
    s3_getObject (s3 prov) key = inr d /\ s3_headObject (s3 prov) key = inr h /\
    fs w' !! downloadPath = Some d /\
    dl_path r = downloadPath /\ dl_provider r = name prov /\
    dl_hash r = sha256 d /\ dl_size r = Z.of_nat (length d) /\
    (integrity r = true <-> head_fileHash h = Some (sha256 d)).
Proof.
  intros Hrun. unfold download, JsMap.entries in Hrun.
  apply download_from_effects in Hrun as (_ & _ & Hres).
  destruct Hres as (pn & prov & key & d & h & Hin & Hh & Hk & Hget & Hhead & Hfs & Hp & Hn
                    & Hhash & Hsize & Hint & _).
  exists pn, prov, key, d, h. split_and!; try done.
  rewrite Hint. unfold hash_matches. destruct (head_fileHash h) as [x|].
  - rewrite String.eqb_eq. split; [by intros ->|by intros [= ->]].
  - split; discriminate.
Qed.

(** X16.  A [download] that fails leaves no downloaded bytes behind: the
    download path holds what it held before, or nothing. *)
Theorem failed_download_leaves_no_bytes (pm : ProviderManager.t) (fileId downloadPath : string)
    (options : DownloadOptions) (w w' : World) (e : string) :
  download pm fileId downloadPath options w = (w', inl e) ->
  e = "Download failed from all providers: " /\
  (fs w' !! downloadPath = fs w !! downloadPath \/ fs w' !! downloadPath = None).
Proof.
  intros Hrun. split; [by eapply download_error_has_no_causes|].
  unfold download, JsMap.entries in Hrun.
  by apply download_from_effects in Hrun as (_ & _ & Hres).
Qed.

End DownloadEffects.

Section Keys.
Import Provider ProviderManager.

Lemma existsb_eqb_elem (k : string) (l : list string) :
  existsb (String.eqb k) l = true <-> k ∈ l.
Proof.
  induction l as [|x l IH]; cbn.
  - split; [discriminate|by intros ?%elem_of_nil].
  - rewrite orb_true_iff, IH, String.eqb_eq, elem_of_cons. done.
Qed.

(** [[...new Set(keys)]] keeps every key once. *)
Lemma dedup_spec (keys : list string) : forall seen,
  NoDup (dedup seen keys) /\
  forall k, k ∈ dedup seen keys <-> k ∈ keys /\ k ∉ seen.
Proof.
  induction keys as [|x keys IH]; intros seen; cbn [dedup].
  - split; [constructor|]. intros k. split; [by intros ?%elem_of_nil|].
    by intros [?%elem_of_nil _].
  - destruct (existsb (String.eqb x) seen) eqn:E.
    + apply existsb_eqb_elem in E. destruct (IH seen) as [Hnd Hin].
      split; [exact Hnd|]. intros k. rewrite Hin, elem_of_cons.
      split; [tauto|]. intros [[->|Hk] Hs]; tauto.
    + assert (Hx : x ∉ seen).
      { intros Hin. apply existsb_eqb_elem in Hin. congruence. }
      destruct (IH (seen ++ [x])) as [Hnd Hin]. split.
      * constructor; [|exact Hnd]. rewrite Hin, elem_of_app, list_elem_of_singleton. tauto.
      * intros k. rewrite !elem_of_cons, Hin, elem_of_app, list_elem_of_singleton.
        destruct (decide (k = x)) as [->|Hne]; tauto.
Qed.

(** X17.  The keys tried for a file are pairwise different; the two standard
    patterns always come first, and nothing is tried that is not one of
    the patterns. *)
Theorem generatePossibleKeys_distinct (fileId : string) (options : DownloadOptions) :
  NoDup (generatePossibleKeys fileId options) /\
  (exists rest, generatePossibleKeys fileId options
                = ("uploads/" +:+ fileId) :: ("permanent/" +:+ fileId) :: rest) /\
  forall key, key ∈ generatePossibleKeys fileId options ->
    exists root suffix,
      (root = "uploads/" \/ root = "permanent/") /\ key = root +:+ suffix /\
      (suffix = fileId \/
       (truthy_str (dl_originalName options) = true /\
        suffix = fileId +:+ "-" +:+ default "" (dl_originalName options)) \/
       suffix = before_dash fileId +:+ "-" +:+ fileId).
Proof.
  unfold generatePossibleKeys.
  set (raw := (if truthy_str (dl_originalName options) then _ else _) ++ _).
  destruct (dedup_spec raw []) as [Hnd Hin]. split; [exact Hnd|]. split.
  - subst raw. destruct (truthy_str (dl_originalName options));
      cbn [app dedup existsb]; rewrite string_app_cons;
      cbn [dedup existsb app String.eqb Ascii.eqb Bool.eqb orb andb]; eauto.
  - intros key Hk. apply Hin in Hk as [Hk _]. subst raw.
    destruct (truthy_str (dl_originalName options)) eqn:Ht; cbn [app] in Hk;
      repeat (apply elem_of_cons in Hk as [->|Hk]);
      try (by apply elem_of_nil in Hk);
      solve [ exists "uploads/"; eexists; split; [by left|split; [reflexivity|auto]]
            | exists "permanent/"; eexists; split; [by right|split; [reflexivity|auto]] ].
Qed.

Lemma string_app_same (s t : string) : s +:+ t = s -> t = "".
Proof.
  induction s as [|c s IH]; [done|]. rewrite string_app_cons. intros [= Heq]. auto.
Qed.

Context `{Digest}.

(** The key under which a provider stores an upload. *)
Lemma provider_upload_key (p : Provider.t) (filePath : string) (options : UploadOptions)
    (w w' : World) (r : UploadResult) :
  Provider.upload p filePath options w = (w', inr r) ->
  key r = match kind p with
          | Storj => str_or (prefix options) "uploads" +:+ "/" +:+ fileId r +:+ "-"
                     +:+ Path.basename filePath
          | Arweave => "permanent/" +:+ fileId r +:+ "-" +:+ Path.basename filePath
          end.
Proof.
  unfold Provider.upload, storj_upload, arweave_upload.
  unfold calculateFileHash, mbind, M_bind, mret, M_ret, throw, try_catch, emit, modify_state,
    newObject, generateUniqueId, readFileSync, statSize.
  intros Hrun. destruct (kind p); repeat case_match; simplify_eq/=; reflexivity.
Qed.

(** X18.  An uploaded object is found again by [download] exactly when the
    name given to [download] is the base name of the uploaded path, or
    the generated id happens to fit the prefix pattern. *)
Theorem uploaded_key_is_found_by_download (p : Provider.t) (filePath : string)
    (uploadOptions : UploadOptions) (options : DownloadOptions) (w w' : World)
    (r : UploadResult) :
  Provider.upload p filePath uploadOptions w = (w', inr r) ->
  (kind p = Storj -> str_or (prefix uploadOptions) "uploads" = "uploads") ->
  key r ∈ generatePossibleKeys (fileId r) options <->
  (truthy_str (dl_originalName options) = true /\
   dl_originalName options = Some (Path.basename filePath)) \/
  fileId r +:+ "-" +:+ Path.basename filePath = before_dash (fileId r) +:+ "-" +:+ fileId r.
Proof.
  intros Hrun Hprefix. rewrite (provider_upload_key _ _ _ _ _ _ Hrun).
  set (X := fileId r +:+ "-" +:+ Path.basename filePath).
  set (fid := fileId r) in *.
  assert (Hroot : exists root other,
            match kind p with
            | Storj => str_or (prefix uploadOptions) "uploads" +:+ "/" +:+ X
            | Arweave => "permanent/" +:+ X
            end = root +:+ X /\
            ((root = "uploads/" /\ other = "permanent/") \/
             (root = "permanent/" /\ other = "uploads/"))).
  { destruct (kind p).
    - rewrite Hprefix by done. exists "uploads/", "permanent/". auto.
    - exists "permanent/", "uploads/". auto. }
  destruct Hroot as (root & other & -> & Hroots).
  assert (Hother : forall a, root +:+ X <> other +:+ a).
  { intros a. destruct Hroots as [[-> ->]|[-> ->]]; rewrite !string_app_cons; discriminate. }
  assert (Hsame : forall a, root +:+ X = root +:+ a <-> X = a).
  { intros a. split; [apply (inj (String.app root))|by intros ->]. }
  assert (HX : X <> fid).
  { subst X. intros Heq. apply string_app_same in Heq. discriminate. }
  assert (Hname : forall n, X = fid +:+ "-" +:+ n <-> Path.basename filePath = n).
  { intros n. subst X. split; [|by intros ->]. intros Heq.
    apply (inj (String.app fid)) in Heq. by apply (inj (String.app "-")) in Heq. }
  unfold generatePossibleKeys.
  set (raw := (if truthy_str (dl_originalName options) then _ else _) ++ _).
  destruct (dedup_spec raw []) as [_ Hin]. rewrite Hin.
  assert (Hnil : forall k : string, k ∉ []) by (intros k ?%elem_of_nil; done).
  subst raw.
  assert (Hmem : forall a b, root +:+ X ∈ ["uploads/" +:+ a; "permanent/" +:+ b]
                             <-> (root = "uploads/" /\ X = a) \/ (root = "permanent/" /\ X = b)).
  { intros a b. rewrite !elem_of_cons.
    destruct Hroots as [[-> ->]|[-> ->]].
    - rewrite (Hsame a). split.
      + intros [?|[?|?%elem_of_nil]]; [auto| |done]. by apply Hother in H0.
      + intros [[_ ?]|[? _]]; [auto|discriminate].
    - rewrite (Hsame b). split.
      + intros [?|[?|?%elem_of_nil]]; [|auto|done]. by apply Hother in H0.
      + intros [[? _]|[_ ?]]; [discriminate|auto]. }
  destruct (truthy_str (dl_originalName options)) eqn:Ht.
  - rewrite !elem_of_app, !Hmem.
    destruct (dl_originalName options) as [n|] eqn:Hn; [|discriminate].
    cbn [default from_option id]. rewrite !Hname. split.
    + intros [[[H1|H1]|H1] _]; destruct Hroots as [[-> ->]|[-> ->]];
        destruct H1 as [[? ?]|[? ?]]; try discriminate; try tauto;
        left; split; congruence.
    + intros [[_ [= <-]]|Heq]; (split; [|apply Hnil]); destruct Hroots as [[-> ->]|[-> ->]]; tauto.
  - rewrite !elem_of_app, !Hmem. split.
    + intros [[H1|H1] _]; destruct Hroots as [[-> ->]|[-> ->]];
        destruct H1 as [[? ?]|[? ?]]; try discriminate; tauto.
    + intros [[? _]|Heq]; [discriminate|].
      split; [|apply Hnil]. destruct Hroots as [[-> ->]|[-> ->]]; tauto.
Qed.

End Keys.

Section ManagerMaintenance.
Import Provider ProviderManager.

Lemma delete_first_spec (deleteObject : DeleteObject) (prov : Provider.t) (keys : list string) :
  match delete_first deleteObject prov keys with
  | Some key =>
      key ∈ keys /\ kind prov = Storj /\ isConnected prov = true /\
      deleteObject prov key = inr tt
  | None =>
      forall key, key ∈ keys -> kind prov = Storj -> isConnected prov = true ->
                  exists e, deleteObject prov key = inl e
  end.
Proof.
  induction keys as [|key keys IH]; cbn [delete_first].
  - intros key ?%elem_of_nil. done.
  - unfold provider_delete at 1.
    destruct (kind prov) eqn:Hkind.
    + destruct (isConnected prov) eqn:Hconn; cbn [negb].
      * destruct (deleteObject prov key) as [e|[]] eqn:Hdel.
        -- destruct (delete_first deleteObject prov keys) as [k|].
           ++ destruct IH as (Hin & Hrest). split; [by right|exact Hrest].
           ++ intros k [->|Hin]%elem_of_cons _ _; [eauto|]. by apply IH.
        -- split; [by left|]. auto.
      * destruct (delete_first deleteObject prov keys) as [k|].
        -- by destruct IH as (_ & _ & ? & _).
        -- intros k _ _ ?. done.
    + destruct (delete_first deleteObject prov keys) as [k|].
      * by destruct IH as (_ & ? & _).
      * intros k _ ?. done.
Qed.

Lemma delete_from_spec (deleteObject : DeleteObject) (pm : ProviderManager.t)
    (keys : list string) (provs : list (string * Provider.t)) :
  Forall (fun d => exists prov,
            (d.1, prov) ∈ provs /\ isProviderHealthy pm d.1 = true /\
            kind prov = Storj /\ isConnected prov = true /\
            d.2 ∈ keys /\ deleteObject prov d.2 = inr tt)
         (delete_from deleteObject pm provs keys) /\
  map fst (delete_from deleteObject pm provs keys) `sublist_of` map fst provs /\
  (delete_from deleteObject pm provs keys = [] ->
   forall providerName prov key,
     (providerName, prov) ∈ provs -> isProviderHealthy pm providerName = true ->
     kind prov = Storj -> isConnected prov = true -> key ∈ keys ->
     exists e, deleteObject prov key = inl e).
Proof.
  induction provs as [|[pn prov] provs (IH1 & IH2 & IH3)]; cbn [delete_from].
  - split; [constructor|]. split; [constructor|]. intros _ ? ? ? ?%elem_of_nil. done.
  - assert (Hweak : Forall (fun d => exists prov0,
               (d.1, prov0) ∈ (pn, prov) :: provs /\ isProviderHealthy pm d.1 = true /\
               kind prov0 = Storj /\ isConnected prov0 = true /\
               d.2 ∈ keys /\ deleteObject prov0 d.2 = inr tt)
             (delete_from deleteObject pm provs keys)).
    { eapply Forall_impl; [exact IH1|]. intros d (p0 & Hin & Hrest). exists p0.
      split; [by right|exact Hrest]. }
    destruct (isProviderHealthy pm pn) eqn:Hh; cbn [negb].
    + pose proof (delete_first_spec deleteObject prov keys) as Hfirst.
      destruct (delete_first deleteObject prov keys) as [key|].
      * destruct Hfirst as (Hk & Hkind & Hconn & Hdel). split; [|split].
        -- constructor; [|exact Hweak]. exists prov. cbn. split; [by left|]. auto.
        -- cbn [map fst]. by apply sublist_skip.
        -- discriminate.
      * split; [exact Hweak|]. split; [cbn [map fst]; by apply sublist_cons|].
        intros Hnil pn' prov' key [[= -> ->]|Hin]%elem_of_cons Hh' Hkind Hconn Hk.
        -- by apply Hfirst.
        -- by eapply IH3.
    + split; [exact Hweak|]. split; [cbn [map fst]; by apply sublist_cons|].
      intros Hnil pn' prov' key [[= -> ->]|Hin]%elem_of_cons Hh' Hkind Hconn Hk.
      * congruence.
      * by eapply IH3.
Qed.

(** X19.  [deleteFile] deletes from healthy, connected Storj providers only, at
    most one object per provider and under a possible key of the file;
    nothing is ever deleted from Arweave.  It fails exactly when no
    deletion succeeded. *)
Theorem deleteFile_deletes_from_storj_only (deleteObject : DeleteObject)
    (pm : ProviderManager.t) (fileId : string) (options : DownloadOptions) :
  match deleteFile deleteObject pm fileId options with
  | inr deletions =>
      deletions <> [] /\
      map fst deletions `sublist_of` getProviderNames pm /\
      Forall (fun d => exists prov,
                (d.1, prov) ∈ providers pm /\ isProviderHealthy pm d.1 = true /\
                kind prov = Storj /\ isConnected prov = true /\
                d.2 ∈ generatePossibleKeys fileId options /\
                deleteObject prov d.2 = inr tt) deletions
  | inl e =>
      e = "File " +:+ fileId +:+ " not found in any provider" /\
      forall providerName prov key,
        (providerName, prov) ∈ providers pm -> isProviderHealthy pm providerName = true ->
        kind prov = Storj -> isConnected prov = true ->
        key ∈ generatePossibleKeys fileId options ->
        exists e', deleteObject prov key = inl e'
  end.
Proof.
  unfold deleteFile, JsMap.entries, getProviderNames, JsMap.keys.
  destruct (delete_from_spec deleteObject pm (generatePossibleKeys fileId options)
              (providers pm)) as (Hall & Hsub & Hnone).
  case_bool_decide as Hnil.
  - split; [reflexivity|]. by apply Hnone.
  - auto.
Qed.

End ManagerMaintenance.

Section HealthChecks.
Import Provider ProviderManager.

Lemma jsmap_get_set_eq {V} (m : JsMap.t V) (k : string) (v : V) :
  JsMap.get (JsMap.set m k v) k = Some v.
Proof.
  induction m as [|[k' v'] m IH]; cbn [JsMap.set JsMap.get].
  - by rewrite String.eqb_refl.
  - destruct (String.eqb k' k) eqn:E; cbn [JsMap.get]; rewrite E; [done|exact IH].
Qed.

Lemma jsmap_get_set_ne {V} (m : JsMap.t V) (k k' : string) (v : V) :
  k <> k' -> JsMap.get (JsMap.set m k v) k' = JsMap.get m k'.
Proof.
  intros Hne. induction m as [|[k0 v0] m IH]; cbn [JsMap.set JsMap.get].
  - destruct (String.eqb_spec k k'); [done|reflexivity].
  - destruct (String.eqb_spec k0 k) as [->|Hk]; cbn [JsMap.get].
    + destruct (String.eqb_spec k k'); [done|reflexivity].
    + by rewrite IH.
Qed.

Lemma health_round (headBucket : HeadBucket) (provs : list (string * Provider.t))
    (hs : JsMap.t Health) (name : string) :
  NoDup (map fst provs) ->
  JsMap.get (foldl (fun hs e => JsMap.set hs (fst e) (healthCheck headBucket (snd e)))
                   hs provs) name =
  match JsMap.get provs name with
  | Some prov => Some (healthCheck headBucket prov)
  | None => JsMap.get hs name
  end.
Proof.
  revert hs. induction provs as [|[k prov] provs IH]; intros hs Hnd; cbn [foldl JsMap.get].
  - reflexivity.
  - apply NoDup_cons in Hnd as [Hnot Hnd]. rewrite (IH _ Hnd). cbn [fst snd].
    destruct (String.eqb_spec k name) as [->|Hk].
    + destruct (JsMap.get provs name) as [prov'|] eqn:Hget.
      * destruct Hnot. clear -Hget. induction provs as [|[k0 v0] provs IH]; [done|].
        cbn [JsMap.get] in Hget. cbn [map fst].
        destruct (String.eqb_spec k0 name) as [->|]; [by left|right; auto].
      * apply jsmap_get_set_eq.
    + destruct (JsMap.get provs name); [reflexivity|]. by apply jsmap_get_set_ne.
Qed.

(** X20.  After a round of health checks a provider of the manager counts as
    healthy exactly when its [headBucket] request succeeded, whatever its
    status was before; the status of a name that is no provider is left as
    it was, and the providers themselves are unchanged. *)
Theorem performHealthChecks_sets_health (headBucket : HeadBucket)
    (pm : ProviderManager.t) (providerName : string) :
  NoDup (getProviderNames pm) ->
  providers (performHealthChecks headBucket pm) = providers pm /\
  isProviderHealthy (performHealthChecks headBucket pm) providerName =
    match JsMap.get (providers pm) providerName with
    | Some prov => match headBucket prov with inr _ => true | inl _ => false end
    | None => isProviderHealthy pm providerName
    end.
Proof.
  intros Hnd. split; [reflexivity|].
  unfold isProviderHealthy, performHealthChecks, JsMap.entries. cbn [healthStatus].
  rewrite (health_round _ _ _ _ Hnd).
  destruct (JsMap.get (providers pm) providerName) as [prov|]; [|reflexivity].
  unfold healthCheck. by destruct (headBucket prov).
Qed.

End HealthChecks.

Section UploadCopies.
Context `{Digest}.
Import Provider ProviderManager.






End UploadCopies.

(** The corrupt Storj object is skipped and Arweave serves the file. *)
Lemma download_truthful_witness :
  exists w' r,
    ProviderManager.download (H := Examples.nodeDigest) Examples.pmCorruptPrimary "f1"
      "temp/dl" Examples.strict Examples.helloWorld = (w', inr r) /\
    fs w' !! "temp/dl" = Some Examples.hello /\
    Provider.dl_provider r = "Arweave" /\
    Provider.dl_hash r = @sha256 Examples.nodeDigest Examples.hello.
Proof.
  destruct (ProviderManager.download (H := Examples.nodeDigest) Examples.pmCorruptPrimary "f1"
              "temp/dl" Examples.strict Examples.helloWorld) as [w' [e|r]] eqn:Hrun;
    [vm_compute in Hrun; discriminate Hrun|].
  destruct (download_result_is_truthful (H := Examples.nodeDigest) Examples.pmCorruptPrimary
              "f1" "temp/dl" Examples.strict Examples.helloWorld w' r Hrun)
    as (pn & prov & key & d & h & _ & _ & _ & _ & _ & Hfs & _ & _ & Hhash & _).
  exists w', r. split; [reflexivity|].
  assert (Hd : d = Examples.hello).
  { vm_compute in Hrun. injection Hrun as <- _. vm_compute in Hfs. by injection Hfs as <-. }
  subst d. split; [exact Hfs|]. split; [|exact Hhash].
  vm_compute in Hrun. by injection Hrun as _ <-.
Defined.

(** No provider holds the file. *)
Lemma failed_download_witness :
  exists w',
    ProviderManager.download (H := Examples.nodeDigest) Examples.pmHealthy "f1"
      "temp/dl" Examples.strict Examples.helloWorld
    = (w', inl "Download failed from all providers: ") /\
    fs w' !! "temp/dl" = None.
Proof.
  destruct (ProviderManager.download (H := Examples.nodeDigest) Examples.pmHealthy "f1"
              "temp/dl" Examples.strict Examples.helloWorld) as [w' [e|r]] eqn:Hrun;
    [|vm_compute in Hrun; discriminate Hrun].
  destruct (failed_download_leaves_no_bytes (H := Examples.nodeDigest) Examples.pmHealthy
              "f1" "temp/dl" Examples.strict Examples.helloWorld w' e Hrun) as [-> Hfs].
  exists w'. split; [reflexivity|]. by destruct Hfs as [-> | ->].
Defined.

(** An upload of [temp/u1] to Storj is found again under the name [u1]
    and not under the name the user gave the file. *)
Lemma uploaded_key_witness :
  exists w' r,
    Provider.upload (H := Examples.nodeDigest) Examples.storjOk "temp/u1" Examples.noFlags
      Examples.helloWorld = (w', inr r) /\
    Provider.key r ∈ ProviderManager.generatePossibleKeys (Provider.fileId r)
                       {| Provider.dl_originalName := Some "u1";
                          Provider.strictIntegrity := true |} /\
    Provider.key r ∉ ProviderManager.generatePossibleKeys (Provider.fileId r)
                       {| Provider.dl_originalName := Some "a.txt";
                          Provider.strictIntegrity := true |}.
Proof.
  destruct (Provider.upload (H := Examples.nodeDigest) Examples.storjOk "temp/u1"
              Examples.noFlags Examples.helloWorld) as [w' [e|r]] eqn:Hrun;
    [vm_compute in Hrun; discriminate Hrun|].
  exists w', r. split; [reflexivity|]. split.
  - apply (uploaded_key_is_found_by_download (H := Examples.nodeDigest) Examples.storjOk
             "temp/u1" Examples.noFlags _ Examples.helloWorld w' r Hrun (fun _ => eq_refl)).
    left. split; reflexivity.
  - intros Hin.
    apply (uploaded_key_is_found_by_download (H := Examples.nodeDigest) Examples.storjOk
             "temp/u1" Examples.noFlags _ Examples.helloWorld w' r Hrun (fun _ => eq_refl))
      in Hin.
    destruct Hin as [[_ Hname]|Hid]; [discriminate Hname|].
    vm_compute in Hrun. injection Hrun as _ <-. vm_compute in Hid. discriminate Hid.
Defined.

(** A round of checks in which only Storj answers. *)
Lemma performHealthChecks_witness :
  let pm := ProviderManager.performHealthChecks Examples.storjAnswers Examples.pmHealthy in
  ProviderManager.isProviderHealthy pm "storj" = true /\
  ProviderManager.isProviderHealthy pm "arweave" = false.
Proof.
  assert (Hnd : NoDup (ProviderManager.getProviderNames Examples.pmHealthy)).
  { cbn. apply NoDup_cons. split; [|apply NoDup_singleton].
    intros Hin. apply list_elem_of_singleton in Hin. discriminate Hin. }
  split.
  - exact (proj2 (performHealthChecks_sets_health Examples.storjAnswers Examples.pmHealthy
                    "storj" Hnd)).
  - exact (proj2 (performHealthChecks_sets_health Examples.storjAnswers Examples.pmHealthy
                    "arweave" Hnd)).
Defined.



(** ** File names and the upload handler *)

Section FileNames.
Import Validation.

Lemma string_app_length (s t : string) :
  String.length (s +:+ t) = String.length s + String.length t.
Proof. induction s as [|c s IH]; [reflexivity|]. rewrite string_app_cons. cbn. by rewrite IH. Qed.

Lemma has_invalid_app (s t : string) :
  has_invalid_char (s +:+ t) = has_invalid_char s || has_invalid_char t.
Proof.
  induction s as [|c s IH]; [reflexivity|]. rewrite string_app_cons. cbn.
  by rewrite IH, orb_assoc.
Qed.

Lemma replace_invalid_clean (s : string) : has_invalid_char (replace_invalid s) = false.
Proof.
  induction s as [|c s IH]; [reflexivity|]. cbn [replace_invalid has_invalid_char].
  rewrite IH, orb_false_r. destruct (invalid_char c) eqn:E; [reflexivity|exact E].
Qed.

Lemma trim_left_clean (s : string) :
  has_invalid_char s = false -> has_invalid_char (trim_left s) = false.
Proof.
  induction s as [|c s IH]; [done|]. cbn [trim_left]. intros Hs.
  destruct (dot_or_space c); [|exact Hs].
  apply IH. cbn in Hs. by apply orb_false_elim in Hs as [_ ?].
Qed.

Lemma trim_right_clean (s : string) :
  has_invalid_char s = false -> has_invalid_char (trim_right s) = false.
Proof.
  induction s as [|c s IH]; [done|]. cbn [trim_right has_invalid_char].
  intros [Hc Hs]%orb_false_elim. specialize (IH Hs).
  destruct (trim_right s) as [|c' t].
  - destruct (dot_or_space c); [reflexivity|]. cbn. by rewrite Hc.
  - cbn [has_invalid_char] in *. by rewrite Hc, IH.
Qed.

Lemma take_clean (n : nat) (s : string) :
  has_invalid_char s = false -> has_invalid_char (JsStr.take n s) = false.
Proof.
  revert s. induction n as [|n IH]; intros [|c s]; cbn; try done.
  intros [Hc Hs]%orb_false_elim. by rewrite Hc, IH.
Qed.

Lemma from_last_dot_clean (s e : string) (first : bool) :
  has_invalid_char s = false -> Path.from_last_dot s first = Some e ->
  has_invalid_char e = false.
Proof.
  revert first e. induction s as [|c s IH]; intros first e; [done|].
  cbn [Path.from_last_dot has_invalid_char]. intros Hs.
  pose proof Hs as [Hc Hs']%orb_false_elim.
  destruct (Path.from_last_dot s false) as [e'|] eqn:E.
  - intros [= <-]. by eapply IH.
  - destruct (Ascii.eqb c "." && negb first); [|done]. intros [= <-]. exact Hs.
Qed.

Lemma basename_go_clean (s acc : string) :
  has_invalid_char s = false -> has_invalid_char acc = false ->
  has_invalid_char (Path.basename_go s acc) = false.
Proof.
  revert acc. induction s as [|c s IH]; intros acc; [done|].
  cbn [Path.basename_go has_invalid_char]. intros [Hc Hs]%orb_false_elim Hacc.
  destruct (Ascii.eqb c "/"); [by apply IH|].
  apply IH; [exact Hs|]. rewrite has_invalid_app, Hacc. cbn. by rewrite Hc.
Qed.

Lemma extname_clean (s : string) :
  has_invalid_char s = false -> has_invalid_char (Path.extname s) = false.
Proof.
  intros Hs. unfold Path.extname.
  destruct (String.eqb (Path.basename s) ".."); [reflexivity|].
  destruct (Path.from_last_dot (Path.basename s) true) as [e|] eqn:E; [|reflexivity].
  cbn. eapply from_last_dot_clean; [|exact E]. by apply basename_go_clean.
Qed.

Lemma basename_without_clean (p ext : string) :
  has_invalid_char p = false -> has_invalid_char (basename_without p ext) = false.
Proof.
  intros Hp. unfold basename_without. repeat case_match; try done. by apply take_clean.
Qed.

(** X23.  [sanitizeFilename] never returns the empty string, and its result has
    none of the characters that [validateFile] refuses in a name.  The
    result has at most 255 characters unless the extension of the cleaned
    name is longer than that on its own, in which case it is returned
    whole. *)
Theorem sanitizeFilename_is_storable (filename : string) :
  let cleaned := trim_right (trim_left (replace_invalid filename)) in
  sanitizeFilename filename <> "" /\
  has_invalid_char (sanitizeFilename filename) = false /\
  String.length (sanitizeFilename filename)
    <= Nat.max 255 (String.length (Path.extname cleaned)).
Proof.
  intros cleaned. unfold sanitizeFilename. fold cleaned.
  assert (Hclean : has_invalid_char cleaned = false).
  { apply trim_right_clean, trim_left_clean, replace_invalid_clean. }
  set (ext := Path.extname cleaned).
  assert (Hext : has_invalid_char ext = false) by by apply extname_clean.
  set (cut := JsStr.take (255 - String.length ext) (basename_without cleaned ext) +:+ ext).
  assert (Hcut : has_invalid_char cut = false).
  { unfold cut. rewrite has_invalid_app, Hext, orb_false_r.
    by apply take_clean, basename_without_clean. }
  assert (Hlen : String.length cut <= Nat.max 255 (String.length ext)).
  { unfold cut. rewrite string_app_length, jsstr_take_length. lia. }
  destruct (Nat.ltb 255 (String.length cleaned)) eqn:Hlong.
  - destruct (String.eqb_spec cut "") as [E|E].
    + split; [done|]. split; [reflexivity|]. cbn. lia.
    + auto.
  - apply Nat.ltb_ge in Hlong.
    destruct (String.eqb_spec cleaned "") as [E|E].
    + split; [done|]. split; [reflexivity|]. cbn. lia.
    + split; [exact E|]. split; [exact Hclean|lia].
Qed.

End FileNames.

Section UploadHandler.
Context `{Digest} `{Encryption.Cipher} `{FileProcessor.Gzip}.
Import Server.

(** The [catch] block of the loop body never throws. *)
Lemma handleFile_total (maxSize : option Z) (body : Body) (file : UploadedFile) (s : Server.t) :
  exists s' outcome,
    handleFile maxSize body file s = (s', inr outcome) /\
    match outcome with
    | Uploaded filename _ _ _ | Rejected filename _ => filename = uf_originalname file
    end.
Proof.
  unfold handleFile. rewrite run_try_catch.
  match goal with
  | |- context [match ?m s with _ => _ end] => destruct (m s) as [s1 [e|o]] eqn:Hbody
  end.
  - rewrite run_bind. unfold inWorld at 1. rewrite remove_if_exists_run. rewrite run_ret.
    eexists _, _. split; reflexivity.
  - exists s1, o. split; [reflexivity|].
    rewrite run_bind in Hbody.
    destruct (inWorld _ s) as [s2 [e|v]]; [discriminate|].
    destruct (negb (Validation.valid v)); [by injection Hbody as <- <-|].
    rewrite run_bind in Hbody.
    destruct (inProcessor _ s2) as [s3 [e|pr]]; [discriminate|].
    rewrite run_bind in Hbody. unfold get_state at 1 in Hbody. rewrite run_bind in Hbody.
    destruct (inWorld _ s3) as [s4 [e|ur]]; [discriminate|].
    rewrite run_bind in Hbody.
    destruct (inMetadata _ s4) as [s5 [e|md]]; [discriminate|].
    rewrite run_bind in Hbody.
    destruct (inProcessor _ s5) as [s6 [e|[]]]; [discriminate|].
    rewrite run_bind in Hbody.
    destruct (inWorld _ s6) as [s7 [e|[]]]; [discriminate|].
    by injection Hbody as <- <-.
Qed.

(** X24.  The upload handler reports on every file of the request, in the order
    of the request: a file that is rejected or whose upload fails gets an
    entry of its own and does not stop the files after it. *)
Theorem handleFiles_reports_every_file (maxSize : option Z) (body : Body)
    (files : list UploadedFile) (s : Server.t) :
  exists s' outcomes,
    handleFiles maxSize body files s = (s', inr outcomes) /\
    map (fun outcome => match outcome with
                        | Uploaded filename _ _ _ | Rejected filename _ => filename
                        end) outcomes
    = map uf_originalname files.
Proof.
  revert s. induction files as [|file files IH]; intros s; cbn [handleFiles].
  - eauto.
  - rewrite run_bind.
    destruct (handleFile_total maxSize body file s) as (s1 & o & -> & Ho).
    rewrite run_bind. destruct (IH s1) as (s2 & os & -> & Hos).
    rewrite run_ret. eexists _, _. split; [reflexivity|].
    cbn [map]. rewrite Hos. f_equal. by destruct o.
Qed.

(** X25.  After the handler has dealt with a file, the temporary file that
    [multer] wrote is gone, whether the upload succeeded or failed, with
    one exception: a file refused by [validateFile] is reported and left
    in the upload directory. *)
Theorem handleFile_removes_the_upload (maxSize : option Z) (body : Body)
    (file : UploadedFile) (s : Server.t) :
  let after := handleFile maxSize body file s in
  fs (world after.1) !! uf_path file = None \/
  exists validation,
    (Validation.validateFile (uf_path file) maxSize ["*"] (world s)).2 = inr validation /\
    Validation.valid validation = false /\
    after.2 = inr (Rejected (uf_originalname file)
                     (JsStr.join ", " (Validation.errors validation))) /\
    fs (world after.1) !! uf_path file = fs (world s) !! uf_path file.
Proof.
  cbn zeta. unfold handleFile. rewrite run_try_catch.
  match goal with
  | |- context [match ?m s with _ => _ end] => destruct (m s) as [s1 [e|o]] eqn:Hbody
  end.
  - left. rewrite run_bind. unfold inWorld at 1. rewrite remove_if_exists_run, run_ret.
    cbn. apply lookup_delete_eq.
  - rewrite run_bind in Hbody. unfold inWorld at 1 in Hbody.
    destruct (Validation.validateFile (uf_path file) maxSize ["*"] (world s))
      as [w1 [e|v]] eqn:Hval; [discriminate|].
    assert (Hw1 : w1 = world s).
    { unfold Validation.validateFile in Hval.
      by destruct (fs (world s) !! uf_path file); injection Hval as <- _. }
    destruct (Validation.valid v) eqn:Hv; cbn [negb] in Hbody.
    + left. rewrite run_bind in Hbody.
      destruct (inProcessor _ _) as [s3 [e|pr]]; [discriminate|].
      rewrite run_bind in Hbody. unfold get_state at 1 in Hbody. rewrite run_bind in Hbody.
      destruct (inWorld _ s3) as [s4 [e|ur]]; [discriminate|].
      rewrite run_bind in Hbody.
      destruct (inMetadata _ s4) as [s5 [e|md]]; [discriminate|].
      rewrite run_bind in Hbody.
      destruct (inProcessor _ s5) as [s6 [e|[]]]; [discriminate|].
      rewrite run_bind in Hbody. unfold inWorld, unlinkSync in Hbody.
      destruct (fs (world s6) !! uf_path file); [|discriminate].
      injection Hbody as <- <-. cbn. apply lookup_delete_eq.
    + right. exists v. injection Hbody as <- <-. cbn. by rewrite Hw1.
Qed.

End UploadHandler.

(** ** Metadata updates and the rate limiter *)

Section MetadataUpdates.
Import MetadataManager.

Lemma restricted_default : restricted defaultOptions = true -> False.
Proof. discriminate. Qed.

(** A read with the default options: the record is in the cache
    afterwards, its [processing] object redacted; the disk is as before. *)
Lemma getMetadata_default_run (s : MetadataManager.t) (fileId : string) (d : Stored)
    (p : ProcessingInfo) :
  lookupRecord s fileId = Some d ->
  processing d = Some p ->
  exists s1 r m l,
    getMetadata fileId defaultOptions s = (s1, inr (Some r)) /\
    metadataCache s1 !! fileId = Some m /\
    processing m = Some l /\
    procs (heap s1) !! l = Some (redacted p) /\
    access m = access d /\
    disk s1 = disk s.
Proof.
  intros Hlook Hproc. unfold lookupRecord in Hlook. unfold getMetadata.
  rewrite run_bind. unfold get_state at 1.
  destruct (metadataCache s !! fileId) as [m|] eqn:Hcache.
  - injection Hlook as <-. cbn [view rebind processing] in Hproc.
    destruct (processing m) as [l|] eqn:Hl; [|discriminate]. cbn in Hproc.
    destruct (filterMetadata_run s m defaultOptions l p Hl Hproc)
      as (s1 & r & Hrun & _ & Hp1 & Hc1 & Hd1); [by intros ?%restricted_default|].
    rewrite run_bind, Hrun, run_ret. exists s1, r, m, l.
    split; [reflexivity|]. split; [by rewrite Hc1|]. auto.
  - rewrite run_bind. unfold loadMetadataFromDisk. rewrite Hlook.
    unfold parse. rewrite Hproc. cbn beta iota.
    set (s1 := set_heap _ s). set (m := rebind d _ _).
    rewrite run_bind. unfold modify_state at 1.
    set (s2 := set_cache _ s1).
    destruct (filterMetadata_run s2 m defaultOptions (nextLoc (heap s)) p)
      as (s3 & r & Hrun & _ & Hp3 & Hc3 & Hd3).
    { reflexivity. }
    { cbn. by rewrite lookup_insert_eq. }
    { by intros ?%restricted_default. }
    rewrite run_bind, Hrun, run_ret. exists s3, r, m, (nextLoc (heap s)).
    split; [reflexivity|]. split; [rewrite Hc3; cbn; by rewrite lookup_insert_eq|].
    split; [reflexivity|]. split; [exact Hp3|]. split; [reflexivity|]. by rewrite Hd3.
Qed.

(** X26.  What the download route does to the record of an encrypted file: it
    reads the record with the default options and then counts the
    download.  [updateAccessStats] writes the cached record, which the
    read has just redacted, to disk: afterwards the file on disk holds
    ['[REDACTED]'] in place of the key and the IV, with the download
    counter raised by one. *)
Theorem download_bookkeeping_overwrites_stored_key (s : MetadataManager.t)
    (fileId : string) (d : Stored) (p : ProcessingInfo) :
  lookupRecord s fileId = Some d ->
  processing d = Some p ->
  is_raw (encryptionKey p) = true ->
  is_raw (encryptionIv p) = true ->
  exists s1 r s2 d' p',
    getMetadata fileId defaultOptions s = (s1, inr (Some r)) /\
    updateAccessStats fileId "download" s1 = (s2, inr true) /\
    disk s2 !! fileId = Some d' /\
    processing d' = Some p' /\
    encryptionKey p' = REDACTED /\ encryptionIv p' = REDACTED /\
    downloadCount (access d') = (downloadCount (access d) + 1)%Z.
Proof.
  intros Hlook Hproc Hkey Hiv.
  destruct (getMetadata_default_run s fileId d p Hlook Hproc)
    as (s1 & r & m & l & Hrun & Hcache & Hl & Hp & Hacc & _).
  exists s1, r. unfold updateAccessStats. rewrite run_bind. unfold get_state at 1.
  rewrite Hcache. cbn [String.eqb Ascii.eqb Bool.eqb].
  rewrite run_bind. unfold modify_state at 1. rewrite run_bind.
  unfold persistMetadata, modify_state. rewrite run_ret.
  eexists _, _, _. split; [exact Hrun|]. split; [reflexivity|].
  cbn [disk set_disk]. split; [apply lookup_insert_eq|].
  cbn [stringify view rebind processing access heap set_cache]. rewrite Hl. cbn. rewrite Hp. cbn.
  split; [reflexivity|].
  assert (Hk : truthy (encryptionKey p) = true) by (by destruct (encryptionKey p)).
  assert (Hi : truthy (encryptionIv p) = true) by (by destruct (encryptionIv p)).
  rewrite Hacc. unfold json_processing, redacted. cbn. by rewrite Hk, Hi.
Qed.

(** X27.  [deleteMetadata] forgets the record: a later [getMetadata] of that
    fileId finds nothing, in the cache or on disk, and changes nothing.
    Records of other files read as before. *)
Theorem deleteMetadata_then_getMetadata (s : MetadataManager.t) (fileId : string)
    (options : Options) :
  let s' := (deleteMetadata fileId s).1 in
  (deleteMetadata fileId s).2 = inr true /\
  getMetadata fileId options s' = (s', inr None) /\
  versionHistoryMap s' !! fileId = None /\
  forall other, other <> fileId -> lookupRecord s' other = lookupRecord s other.
Proof.
  assert (Hrun : deleteMetadata fileId s =
            (set_disk (delete fileId (disk s))
               (set_versions (delete fileId (versionHistoryMap s))
                  (set_cache (delete fileId (metadataCache s)) s)), inr true)) by reflexivity.
  cbn zeta. rewrite Hrun. cbn [fst snd].
  split; [reflexivity|]. split; [|split].
  - unfold getMetadata. rewrite run_bind. unfold get_state at 1.
    cbn [metadataCache set_cache set_versions set_disk].
    rewrite lookup_delete_eq, run_bind. unfold loadMetadataFromDisk. cbn [disk set_disk].
    by rewrite lookup_delete_eq.
  - cbn [versionHistoryMap set_cache set_versions set_disk]. apply lookup_delete_eq.
  - intros other Hne. unfold lookupRecord.
    cbn [metadataCache disk heap set_cache set_versions set_disk].
    by rewrite !lookup_delete_ne.
Qed.

End MetadataUpdates.

Section MetadataCreation.
Import MetadataManager.

(** [queueForBlockchainSync] for a cached record with a [processing]
    object: the read behind it redacts that object and leaves the cache
    and the disk as they are. *)
Lemma inW_keeps_manager {A} (m : M World A) (mm : MetadataManager.t) (w : World) :
  (inW m (mm, w)).1.1 = mm.
Proof. unfold inW, zoom. cbn. by destruct (m w) as [? [?|?]]. Qed.

Lemma str_or_else_keeps_manager (x : option string) (d : M St string)
    (mm : MetadataManager.t) (w : World) :
  (d (mm, w)).1.1 = mm -> (str_or_else x d (mm, w)).1.1 = mm.
Proof. intros Hd. unfold str_or_else. by repeat case_match. Qed.

Lemma num_or_else_keeps_manager (x : option Z) (d : M St Z)
    (mm : MetadataManager.t) (w : World) :
  (d (mm, w)).1.1 = mm -> (num_or_else x d (mm, w)).1.1 = mm.
Proof. intros Hd. unfold num_or_else. by repeat case_match. Qed.

Lemma queueForBlockchainSync_run (s : MetadataManager.t) (fileId : string) (m : Metadata)
    (l : nat) (p : ProcessingInfo) :
  metadataCache s !! fileId = Some m ->
  processing m = Some l ->
  procs (heap s) !! l = Some p ->
  exists s',
    queueForBlockchainSync fileId s = (s', inr tt) /\
    procs (heap s') !! l = Some (redacted p) /\
    metadataCache s' = metadataCache s /\ disk s' = disk s.
Proof.
  intros Hcache Hl Hp.
  destruct (filterMetadata_run s m defaultOptions l p Hl Hp)
    as (s1 & r & Hrun & _ & Hp1 & Hc1 & Hd1); [discriminate|].
  unfold queueForBlockchainSync, getBlockchainMetadata, getMetadata.
  rewrite !run_bind. unfold get_state at 1. rewrite Hcache, run_bind, Hrun, run_ret.
  rewrite run_bind. unfold get_state at 1. rewrite run_ret.
  unfold modify_state. eexists. split; [reflexivity|]. cbn. auto.
Qed.

(** X28.  [createMetadata] for an encrypted upload writes the key and the IV
    into the metadata file as they are.  The cached record holds them
    too when ledger sync is off; with ledger sync on, the read made for
    the sync queue has already replaced them by ['[REDACTED]'] when
    [createMetadata] returns. *)
Theorem createMetadata_persists_the_key (fileInfo : FileArg)
    (uploadResult : ProviderManager.UploadOutcome) (result : FileProcessor.FullResult)
    (userInfo : UserInfo) (mm mm' : MetadataManager.t) (w w' : World) (metadata : Metadata)
    (key iv : bytes) :
  FileProcessor.proc_encryptionKey (FileProcessor.processing result) = Some key ->
  FileProcessor.proc_encryptionIv (FileProcessor.processing result) = Some iv ->
  createMetadata fileInfo uploadResult (Some (FileProcessor.Processed result)) userInfo (mm, w)
    = ((mm', w'), inr metadata) ->
  exists d pd pc,
    disk mm' !! fileId metadata = Some d /\
    processing d = Some pd /\
    encryptionKey pd = SJson key /\ encryptionIv pd = SJson iv /\
    metadataCache mm' !! fileId metadata = Some metadata /\
    processing (view (heap mm') metadata) = Some pc /\
    encryptionKey pc = (if enableBlockchainSync (config mm) then REDACTED else SBuffer key) /\
    encryptionIv pc = (if enableBlockchainSync (config mm) then REDACTED else SBuffer iv).
Proof.
  intros Hkey Hiv. unfold createMetadata. rewrite run_bind.
  destruct (str_or_else (fa_fileId fileInfo) _ (mm, w)) as [[mm1 w1] [e|fid]] eqn:H1;
    [discriminate|].
  assert (mm1 = mm) as ->.
  { pose proof (str_or_else_keeps_manager (fa_fileId fileInfo) (inW generateUniqueId) mm w
                  (inW_keeps_manager _ _ _)) as Hk. by rewrite H1 in Hk. }
  rewrite run_bind.
  destruct (str_or_else (fa_originalName fileInfo) _ (mm, w1)) as [[mm2 w2] [e|oname]] eqn:H2;
    [discriminate|].
  assert (mm2 = mm) as ->.
  { pose proof (str_or_else_keeps_manager (fa_originalName fileInfo)
                  (mret (Path.basename (fa_path fileInfo))) mm w1 eq_refl) as Hk.
    by rewrite H2 in Hk. }
  rewrite run_bind.
  destruct (num_or_else (fa_size fileInfo) _ (mm, w2)) as [[mm3 w3] [e|fsz]] eqn:H3;
    [discriminate|].
  assert (mm3 = mm) as ->.
  { pose proof (num_or_else_keeps_manager (fa_size fileInfo)
                  (inW (statSize (fa_path fileInfo))) mm w2 (inW_keeps_manager _ _ _)) as Hk.
    by rewrite H3 in Hk. }
  rewrite run_bind.
  destruct (str_or_else (fa_type fileInfo) _ (mm, w3)) as [[mm4 w4] [e|fty]] eqn:H4;
    [discriminate|].
  assert (mm4 = mm) as ->.
  { pose proof (str_or_else_keeps_manager (fa_type fileInfo)
                  (mret (Path.extname (fa_path fileInfo))) mm w3 eq_refl) as Hk.
    by rewrite H4 in Hk. }
  cbn [processing_of]. rewrite Hkey, Hiv. cbn [secret_of].
  set (p0 := {| compressed := _ |}).
  unfold inMM, zoom. cbn [fst snd].
  rewrite run_bind. unfold get_state at 1. rewrite run_bind. unfold put_state at 1.
  rewrite run_bind. unfold modify_state at 1.
  rewrite run_bind. unfold persistMetadata at 1, modify_state at 1.
  set (m0 := Build_MetadataOf _ _ fid _ _ _ _ _ _ _ _).
  set (s3 := set_disk _ _).
  assert (Hc3 : metadataCache s3 !! fid = Some m0).
  { subst s3. cbn. by rewrite lookup_insert_eq. }
  assert (Hp3 : procs (heap s3) !! nextLoc (heap mm) = Some p0).
  { subst s3. cbn. by rewrite lookup_insert_eq. }
  assert (Hd3 : exists d, disk s3 !! fid = Some d /\ processing d = Some (json_processing p0)).
  { subst s3. cbn [disk set_disk]. rewrite lookup_insert_eq. eexists. split; [reflexivity|].
    cbn. by rewrite lookup_insert_eq. }
  destruct Hd3 as (d & Hd3 & Hpd).
  rewrite run_bind.
  assert (Hs4 : (if enableVersioning (config mm) then
                   modify_state (fun s =>
                     set_versions
                       (<[fid := [ {| ve_version := 1; ve_changes := "Initial upload" |} ]]>
                                     (versionHistoryMap s)) s)
                 else mret tt) s3 =
                (if enableVersioning (config mm)
                 then set_versions
                        (<[fid := [ {| ve_version := 1; ve_changes := "Initial upload" |} ]]>
                                      (versionHistoryMap s3)) s3
                 else s3, inr tt)).
  { by destruct (enableVersioning (config mm)). }
  rewrite Hs4. clear Hs4.
  set (s5 := if enableVersioning (config mm) then _ else s3).
  assert (Hs5 : metadataCache s5 = metadataCache s3 /\ heap s5 = heap s3 /\ disk s5 = disk s3).
  { subst s5. by destruct (enableVersioning (config mm)). }
  destruct Hs5 as (Hc5 & Hh5 & Hd5).
  rewrite run_bind.
  destruct (enableBlockchainSync (config mm)) eqn:Hsync.
  - destruct (queueForBlockchainSync_run s5 fid m0 (nextLoc (heap mm)) p0)
      as (s6 & Hq & Hp6 & Hc6 & Hd6); [by rewrite Hc5|reflexivity|by rewrite Hh5|].
    rewrite Hq, run_ret. intros [= <- <- <-]. cbn [fileId].
    exists d, (json_processing p0), (redacted p0).
    split; [by rewrite Hd6, Hd5|]. split; [exact Hpd|].
    split; [reflexivity|]. split; [reflexivity|].
    split; [by rewrite Hc6, Hc5|].
    split; [cbn [view rebind processing]; cbn; by rewrite Hp6|]. by split.
  - rewrite !run_ret. intros [= <- <- <-]. cbn [fileId].
    exists d, (json_processing p0), p0.
    split; [by rewrite Hd5|]. split; [exact Hpd|].
    split; [reflexivity|]. split; [reflexivity|].
    split; [by rewrite Hc5|].
    split; [cbn [view rebind processing]; cbn; by rewrite Hh5, Hp3|]. by split.
Qed.

End MetadataCreation.

Section RateLimit.
Import SecurityManager.

Lemma checkRateLimit_config (identifier action : string) (now : Z) (sm : SecurityManager.t) :
  config (checkRateLimit identifier action now sm).1 = config sm.
Proof. unfold checkRateLimit. by repeat case_match. Qed.

Lemma filter_filter_window (x y : Z) (l : list Z) :
  (y <= x)%Z ->
  List.filter (fun time => (x <? time)%Z) (List.filter (fun time => (y <? time)%Z) l)
  = List.filter (fun time => (x <? time)%Z) l.
Proof.
  intros Hxy. induction l as [|a l IH]; [reflexivity|]. cbn.
  destruct (y <? a)%Z eqn:Ey; cbn; [by rewrite IH|].
  destruct (x <? a)%Z eqn:Ex; [lia|exact IH].
Qed.

Lemma filter_length_mono (x y : Z) (l : list Z) :
  (y <= x)%Z ->
  length (List.filter (fun time => (x <? time)%Z) l)
  <= length (List.filter (fun time => (y <? time)%Z) l).
Proof.
  intros Hxy. rewrite <- (filter_filter_window x y l Hxy). apply List.filter_length_le.
Qed.

(** One call of [checkRateLimit], in terms of the request times the
    tracker holds for the key. *)
Lemma checkRateLimit_step (identifier action : string) (now : Z) (sm : SecurityManager.t) :
  let key := identifier +:+ ":" +:+ action in
  let held := fun sm0 => default [] (requests <$> rateLimitTracker sm0 !! key) in
  let recent := List.filter (fun time => (now - rateLimitWindow (config sm) <? time)%Z)
                            (held sm) in
  let after := checkRateLimit identifier action now sm in
  (allowed after.2 = false /\ (held after.1 = held sm \/ held after.1 = recent)) \/
  (allowed after.2 = true /\ held after.1 = recent ++ [now] /\
   (Z.of_nat (length recent) < rateLimitMax (config sm))%Z).
Proof.
  cbn zeta. unfold checkRateLimit.
  set (key := identifier +:+ ":" +:+ action).
  set (e := default _ (rateLimitTracker sm !! key)).
  assert (He : default [] (requests <$> rateLimitTracker sm !! key) = requests e).
  { subst e. by destruct (rateLimitTracker sm !! key). }
  rewrite He.
  destruct (blocked e && (now <? blockUntil e)%Z).
  - left. split; [reflexivity|]. left. cbn. by rewrite lookup_insert_eq.
  - cbn [config set_entry].
    destruct (rateLimitMax (config sm) <=? _)%Z eqn:Emax.
    + left. split; [reflexivity|]. right. cbn. by rewrite lookup_insert_eq.
    + right. split; [reflexivity|]. split; [cbn; by rewrite lookup_insert_eq|]. lia.
Qed.

Lemma passedRequests_window (clientId : string) (times : list Z) :
  forall (sm : SecurityManager.t) (past : list Z) (lo : Z),
  let key := clientId +:+ ":" +:+ "api" in
  let window := rateLimitWindow (config sm) in
  let inWindow := fun t a => (t - window <? a)%Z && (a <=? t)%Z in
  StronglySorted Z.le (lo :: times) ->
  (forall x, (lo <= x)%Z ->
     List.filter (fun time => (x - window <? time)%Z)
                 (default [] (requests <$> rateLimitTracker sm !! key))
     = List.filter (fun time => (x - window <? time)%Z) past) ->
  Forall (fun a => (a <= lo)%Z) past ->
  (forall t, (Z.of_nat (length (List.filter (inWindow t) past)) <= rateLimitMax (config sm))%Z) ->
  forall t,
    (Z.of_nat (length (List.filter (inWindow t)
                         (past ++ (Usage.passedRequests clientId times sm).2)))
     <= rateLimitMax (config sm))%Z.
Proof.
  induction times as [|now rest IH];
    intros sm past lo key window inWindow Hsorted Hheld Hpast Hbound t.
  - cbn. rewrite app_nil_r. apply Hbound.
  - cbn [Usage.passedRequests].
    pose proof (checkRateLimit_step clientId "api" now sm) as Hstep.
    pose proof (checkRateLimit_config clientId "api" now sm) as Hcfg.
    destruct (checkRateLimit clientId "api" now sm) as [sm1 r]. cbn [fst snd] in Hstep, Hcfg.
    apply StronglySorted_inv in Hsorted as [Hrest Hlo].
    apply Forall_cons in Hlo as [Hnow Hlo].
    assert (Hsorted1 : StronglySorted Z.le (now :: rest)) by exact Hrest.
    assert (Hpast1 : Forall (fun a => (a <= now)%Z) past).
    { eapply Forall_impl; [exact Hpast|]. cbn. intros; lia. }
    specialize (IH sm1).
    destruct (Usage.passedRequests clientId rest sm1) as [sm2 passed] eqn:Hrun.
    cbn [snd] in IH |- *. rewrite Hcfg in IH. fold window in IH. fold key in IH, Hstep.
    fold window in Hstep.
    destruct Hstep as [(Hno & Hsame)|(Hyes & Hadd & Hlt)].
    + rewrite Hno. apply (IH past now); try done.
      intros x Hx. destruct Hsame as [->| ->].
      * apply Hheld. lia.
      * rewrite filter_filter_window by lia. apply Hheld. lia.
    + rewrite Hyes. replace (past ++ now :: passed) with ((past ++ [now]) ++ passed)
        by (by rewrite <- app_assoc).
      apply (IH (past ++ [now]) now); try done.
      * intros x Hx. rewrite Hadd, !List.filter_app. f_equal.
        rewrite filter_filter_window by lia. apply Hheld. lia.
      * apply Forall_app. split; [exact Hpast1|]. constructor; [lia|constructor].
      * intros t'. rewrite List.filter_app, length_app. cbn [List.filter].
        pose proof (Hbound t') as Hb. unfold inWindow in Hb |- *.
        destruct ((t' - window <? now)%Z && (now <=? t')%Z) eqn:Ein; cbn [length]; [|lia].
        apply andb_prop in Ein as [E1 E2].
        assert (Hle : length (List.filter (fun a => (t' - window <? a)%Z && (a <=? t')%Z) past)
                      <= length (List.filter (fun time => (now - window <? time)%Z) past)).
        { etrans; [|apply (filter_length_mono (t' - window) (now - window)); lia].
          clear. induction past as [|a past IH]; [done|]. cbn.
          destruct (t' - window <? a)%Z; cbn; [|exact IH].
          destruct (a <=? t')%Z; cbn; lia. }
        rewrite <- (Hheld now) in Hle by lia. lia.
Qed.

(** X29.  The rate limiter keeps its promise for a client it has not seen
    before: with a clock that does not run backwards, the requests it
    lets through never number more than [rateLimitMax] within any span of
    [rateLimitWindow] milliseconds. *)
Theorem rate_limit_bounds_every_window (clientId : string) (times : list Z)
    (sm : SecurityManager.t) (t : Z) :
  rateLimitTracker sm !! (clientId +:+ ":" +:+ "api") = None ->
  StronglySorted Z.le times ->
  (0 <= rateLimitMax (config sm))%Z ->
  (Z.of_nat (length (List.filter
                       (fun a => (t - rateLimitWindow (config sm) <? a)%Z && (a <=? t)%Z)
                       (Usage.passedRequests clientId times sm).2))
   <= rateLimitMax (config sm))%Z.
Proof.
  intros Hnew Hsorted Hmax.
  destruct times as [|now rest]; [cbn; lia|].
  apply (passedRequests_window clientId (now :: rest) sm [] now).
  - constructor; [exact Hsorted|]. constructor; [lia|].
    by apply StronglySorted_inv in Hsorted as [_ ?].
  - intros x _. by rewrite Hnew.
  - constructor.
  - intros t'. cbn. lia.
Qed.

(** X30.  A refused client is locked out: the entry of the tracker is marked
    blocked, until after now or until [lockoutDuration] from now, and
    every request before that moment is refused as well and changes
    nothing, so a refused request does not count against the client. *)
Theorem refused_client_is_locked_out (identifier action : string) (now : Z)
    (sm : SecurityManager.t) :
  let after := checkRateLimit identifier action now sm in
  allowed after.2 = false ->
  exists e,
    rateLimitTracker after.1 !! (identifier +:+ ":" +:+ action) = Some e /\
    blocked e = true /\
    ((now < blockUntil e)%Z \/ blockUntil e = (now + lockoutDuration (config sm))%Z) /\
    forall now', (now' < blockUntil e)%Z ->
      checkRateLimit identifier action now' after.1 =
        (after.1, {| allowed := false;
                     retryAfter := Some (ceil_seconds (blockUntil e - now'));
                     remaining := 0; resetTime := None |}).
Proof.
  cbn zeta. set (key := identifier +:+ ":" +:+ action).
  assert (Hagain : forall sm1 e1 now',
            rateLimitTracker sm1 !! key = Some e1 -> blocked e1 = true ->
            (now' < blockUntil e1)%Z ->
            checkRateLimit identifier action now' sm1 =
              (sm1, {| allowed := false;
                       retryAfter := Some (ceil_seconds (blockUntil e1 - now'));
                       remaining := 0; resetTime := None |})).
  { intros sm1 e1 now' Hin Hb Hlt. unfold checkRateLimit. fold key. rewrite Hin.
    cbn [default from_option id].
    rewrite Hb. apply Z.ltb_lt in Hlt. rewrite Hlt. cbn [andb]. f_equal.
    unfold set_entry. rewrite insert_id by done. by destruct sm1. }
  remember (checkRateLimit identifier action now sm) as after eqn:Hafter.
  unfold checkRateLimit in Hafter. fold key in Hafter.
  set (e := default _ (rateLimitTracker sm !! key)) in Hafter.
  destruct (blocked e && (now <? blockUntil e)%Z) eqn:Eb.
  - subst after. intros _. apply andb_prop in Eb as [Eb1 Eb2]. exists e. cbn [fst snd].
    split; [cbn; by rewrite lookup_insert_eq|]. split; [exact Eb1|].
    split; [left; lia|]. intros now' Hlt. apply Hagain; [cbn; by rewrite lookup_insert_eq|done..].
  - cbn [config set_entry] in Hafter.
    destruct (rateLimitMax (config sm) <=? _)%Z; subst after; [|discriminate].
    intros _. eexists. cbn [fst snd].
    split; [cbn; by rewrite lookup_insert_eq|]. cbn [blocked blockUntil].
    split; [reflexivity|]. split; [by right|].
    intros now' Hlt.
    refine (Hagain _ {| requests := _; blocked := true;
                        blockUntil := (now + lockoutDuration (config sm))%Z |} now' _ eq_refl Hlt).
    cbn. by rewrite lookup_insert_eq.
Qed.

End RateLimit.

(** The record of an encrypted upload, before and after one download. *)
Lemma download_bookkeeping_witness :
  exists key iv s1 r s2,
    Examples.secretsOf (MetadataManager.disk Examples.storeQuiet !! "id2")
      = Some (MetadataManager.SJson key, MetadataManager.SJson iv) /\
    MetadataManager.getMetadata "id2" MetadataManager.defaultOptions Examples.storeQuiet
      = (s1, inr (Some r)) /\
    MetadataManager.updateAccessStats "id2" "download" s1 = (s2, inr true) /\
    Examples.secretsOf (MetadataManager.disk s2 !! "id2")
      = Some (MetadataManager.REDACTED, MetadataManager.REDACTED).
Proof.
  destruct (MetadataManager.lookupRecord Examples.storeQuiet "id2") as [d|] eqn:Hd;
    [|vm_compute in Hd; discriminate Hd].
  destruct (MetadataManager.processing d) as [p|] eqn:Hp;
    [|vm_compute in Hd; injection Hd as <-; discriminate Hp].
  destruct (download_bookkeeping_overwrites_stored_key Examples.storeQuiet "id2" d p Hd Hp)
    as (s1 & r & s2 & d' & p' & Hget & Hupd & Hdisk & Hp' & Hk & Hi & _).
  - vm_compute in Hd. injection Hd as <-. injection Hp as <-. reflexivity.
  - vm_compute in Hd. injection Hd as <-. injection Hp as <-. reflexivity.
  - eexists _, _, s1, r, s2. split; [vm_compute; reflexivity|].
    split; [exact Hget|]. split; [exact Hupd|].
    rewrite Hdisk. unfold Examples.secretsOf. cbn [mbind option_bind].
    rewrite Hp'. cbn. by rewrite Hk, Hi.
Defined.

(** The record of an encrypted upload, created with ledger sync on. *)
Lemma createMetadata_key_witness :
  exists r out key iv mm' w' metadata,
    Examples.firstResult = Some r /\
    FileProcessor.proc_encryptionKey (FileProcessor.processing r) = Some key /\
    FileProcessor.proc_encryptionIv (FileProcessor.processing r) = Some iv /\
    MetadataManager.createMetadata
      {| MetadataManager.fa_fileId := Some "f1";
         MetadataManager.fa_originalName := Some "a.txt";
         MetadataManager.fa_path := "temp/u1";
         MetadataManager.fa_size := Some 5%Z;
         MetadataManager.fa_type := Some "text/plain";
         MetadataManager.fa_hash := "" |}
      out (Some (FileProcessor.Processed r))
      {| MetadataManager.ui_userId := Some "alice"; MetadataManager.ui_ipAddress := None;
         MetadataManager.ui_userAgent := None |}
      (Examples.metadata0, Examples.helloWorld)
    = ((mm', w'), inr metadata) /\
    Examples.secretsOf (MetadataManager.disk mm' !! "f1")
      = Some (MetadataManager.SJson key, MetadataManager.SJson iv) /\
    Examples.secretsOf (MetadataManager.lookupRecord mm' "f1")
      = Some (MetadataManager.REDACTED, MetadataManager.REDACTED).
Proof.
  destruct Examples.firstResult as [r|] eqn:E; [|discriminate E].
  destruct (ProviderManager.upload (H := Examples.nodeDigest) Examples.pmHealthy "temp/u1"
              Examples.noFlags Examples.helloWorld) as [w1 [e|out]] eqn:Hup;
    [vm_compute in Hup; discriminate Hup|].
  destruct (FileProcessor.proc_encryptionKey (FileProcessor.processing r)) as [key|] eqn:Hkey;
    [|injection E as <-; discriminate Hkey].
  destruct (FileProcessor.proc_encryptionIv (FileProcessor.processing r)) as [iv|] eqn:Hiv;
    [|injection E as <-; discriminate Hiv].
  destruct (MetadataManager.createMetadata
              {| MetadataManager.fa_fileId := Some "f1";
                 MetadataManager.fa_originalName := Some "a.txt";
                 MetadataManager.fa_path := "temp/u1";
                 MetadataManager.fa_size := Some 5%Z;
                 MetadataManager.fa_type := Some "text/plain";
                 MetadataManager.fa_hash := "" |}
              out (Some (FileProcessor.Processed r))
              {| MetadataManager.ui_userId := Some "alice";
                 MetadataManager.ui_ipAddress := None;
                 MetadataManager.ui_userAgent := None |}
              (Examples.metadata0, Examples.helloWorld))
    as [[mm' w'] [e|metadata]] eqn:Hrun.
  { exfalso. injection E as <-. vm_compute in Hup. injection Hup as _ <-.
    vm_compute in Hrun. discriminate Hrun. }
  destruct (createMetadata_persists_the_key _ out r _ Examples.metadata0 mm'
              Examples.helloWorld w' metadata key iv Hkey Hiv Hrun)
    as (d & pd & pc & Hdisk & Hpd & Hk & Hi & Hcache & Hpc & Hkc & Hic).
  assert (Hid : MetadataManager.fileId metadata = "f1").
  { injection E as <-. vm_compute in Hup. injection Hup as _ <-.
    vm_compute in Hrun. by injection Hrun as _ _ <-. }
  rewrite Hid in Hdisk, Hcache.
  exists r, out, key, iv, mm', w', metadata.
  split; [reflexivity|]. split; [exact Hkey|]. split; [exact Hiv|].
  split; [exact Hrun|]. split.
  - rewrite Hdisk. unfold Examples.secretsOf. cbn [mbind option_bind].
    rewrite Hpd. cbn. by rewrite Hk, Hi.
  - unfold MetadataManager.lookupRecord. rewrite Hcache.
    unfold Examples.secretsOf. cbn [mbind option_bind]. rewrite Hpc. cbn.
    by rewrite Hkc, Hic.
Defined.

(** Four requests within a second against a limit of two. *)
Lemma rate_limit_witness :
  (Usage.passedRequests "10.0.0.7" [0; 10; 20; 30]%Z Examples.limiter0).2 = [0; 10]%Z /\
  (Z.of_nat (length (List.filter (fun a => (30 - 1000 <? a)%Z && (a <=? 30)%Z)
                       (Usage.passedRequests "10.0.0.7" [0; 10; 20; 30]%Z
                          Examples.limiter0).2)) <= 2)%Z.
Proof.
  split; [reflexivity|].
  apply (rate_limit_bounds_every_window "10.0.0.7" [0; 10; 20; 30]%Z Examples.limiter0 30).
  - reflexivity.
  - repeat constructor; lia.
  - cbn. lia.
Defined.

(** The third request within a second is refused, and so is a request
    four seconds later, although the window has emptied by then. *)
Lemma lockout_witness :
  let sm2 := (Usage.passedRequests "10.0.0.7" [0; 10]%Z Examples.limiter0).1 in
  let after := SecurityManager.checkRateLimit "10.0.0.7" "api" 20 sm2 in
  SecurityManager.allowed after.2 = false /\
  SecurityManager.allowed (SecurityManager.checkRateLimit "10.0.0.7" "api" 4020 after.1).2
    = false.
Proof.
  intros sm2 after.
  assert (Hno : SecurityManager.allowed after.2 = false) by (vm_compute; reflexivity).
  split; [exact Hno|].
  destruct (refused_client_is_locked_out "10.0.0.7" "api" 20 sm2 Hno)
    as (e & He & _ & _ & Hlocked).
  fold after in He, Hlocked. rewrite (Hlocked 4020%Z); [reflexivity|].
  vm_compute in He. injection He as <-. cbn. lia.
Defined.

